(** * lightNVR: writer registry, stream catalog, timeline and playback handlers

    A shallow embedding of the parts of lightNVR that the recording-engine
    specification talks about:

    - [Registry]: the global arrays [mp4_writers] / [mp4_writer_stream_names]
      and the functions [register_mp4_writer_for_stream],
      [get_mp4_writer_for_stream], [unregister_mp4_writer_for_stream];
    - [StreamsDb]: [add_stream_config], [delete_stream_config_internal] and
      [is_stream_eligible_for_live_streaming] of database/db_streams.c;
    - [Timeline]: [create_timeline_manifest] and the time parameters of
      [mg_handle_get_timeline_segments];
    - [Playback]: the active-request table, [mg_handle_play_recording] and
      [playback_recording_task_function] of web/recordings_playback_task.c.

    C [int] is modelled as [Z] with explicit two's complement wrap-around,
    a [double] that holds an integer as that integer, rounded to 53 bits,
    C strings as [string] (no embedded NUL), nullable pointers as [option],
    fixed-size global arrays as lists indexed with stdpp's [!!] and
    [<[ i := x ]>]. *)

From stdpp Require Import base list strings sorting.
From Stdlib Require Import ZArith Lia Ascii DecimalString DecimalPos.

Local Open Scope Z_scope.

(** ** C integers and strings *)

Definition INT_MAX : Z := 2147483647.
Definition INT_MIN : Z := -2147483648.

(** Two's complement reduction of a mathematical integer to a 32-bit [int]. *)
Definition wrap_int (z : Z) : Z := (z + 2 ^ 31) mod 2 ^ 32 - 2 ^ 31.

Definition int_mul (a b : Z) : Z := wrap_int (a * b).

Definition in_int_range (z : Z) : Prop := INT_MIN <= z <= INT_MAX.

(** [strncpy (dst, src, n); dst[n] = 0]: the first [n] bytes of [src]. *)
Definition strncpy (n : nat) (src : string) : string := String.substring 0 n src.

(** [s[0] != 0] *)
Definition nonempty (s : string) : bool := negb (String.eqb s "").

(** [strcmp (a, b) == 0] *)
Definition streq (a b : string) : bool := String.eqb a b.

(** ** Stream configuration ([stream_config_t], as read and written by
    database/db_streams.c) *)

Record stream_config_t := {
  name : string;
  url : string;
  enabled : bool;
  streaming_enabled : bool;
  width : Z;
  height : Z;
  fps : Z;
  codec : string;
  priority : Z;
  record : bool;
  segment_duration : Z;
  detection_based_recording : bool;
  detection_model : string;
  detection_threshold : Z;   (* a float, carried as its bit pattern *)
  detection_interval : Z;
  pre_detection_buffer : Z;
  post_detection_buffer : Z;
  protocol : Z;              (* (int) stream_protocol_t *)
  is_onvif : bool;
  record_audio : bool
}.

(** A camera as an administrator would add it: name, enabled and streaming
    flags, pre-detection buffer (seconds) and frame rate. *)
Definition camera (nm : string) (on live : bool) (pre rate : Z) : stream_config_t :=
  {| name := nm; url := "rtsp://10.0.0.2/live"; enabled := on;
     streaming_enabled := live; width := 1280; height := 720; fps := rate;
     codec := "h264"; priority := 5; record := true; segment_duration := 60;
     detection_based_recording := false; detection_model := "";
     detection_threshold := 0; detection_interval := 10;
     pre_detection_buffer := pre; post_detection_buffer := 3;
     protocol := 0; is_onvif := false; record_audio := false |}.

(** ** The writer registry (video/mp4_recording_writer) *)

Module Registry.

(** A writer handle is a non-null [mp4_writer_t *]; only its identity matters
    to the registry. *)
Definition mp4_writer_t := positive.

(** [frame_buffers[j].frames]: [Some cap] when the frame array is allocated
    (with that capacity), [None] when the pointer is null. *)
Definition frame_buffer_t := option Z.

Record registry := {
  mp4_writers : list (option mp4_writer_t);
  mp4_writer_stream_names : list string;
  frame_buffers : list frame_buffer_t
}.

(** The arrays as they are at program start: [n] null writers, [n] empty
    names, [n] unallocated buffers ([n] is [MAX_STREAMS]). *)
Definition empty_registry (n : nat) : registry :=
  {| mp4_writers := replicate n None;
     mp4_writer_stream_names := replicate n ""%string;
     frame_buffers := replicate n None |}.

(** Calls that leave the registry: each is recorded in the order made. *)
Inductive call :=
| mp4_writer_close (w : mp4_writer_t)
| flush_frame_buffer_call (buffer_idx : nat) (w : mp4_writer_t)
| init_frame_buffer_call (stream : string) (capacity : Z)
| free_frame_buffer_call (buffer_idx : nat).

(** Outcome of the slot loop of [register_mp4_writer_for_stream]. *)
Inductive slot_search :=
| empty_slot (i : nat)
| existing_entry (i : nat) (old_writer : mp4_writer_t)
| no_slot.

(** [for (i = 0; i < MAX_STREAMS; i++)]: stop at the first null writer, or at
    the first named slot that carries [local]. *)
Fixpoint find_slot (local : string) (ws : list (option mp4_writer_t))
    (ns : list string) (i : nat) : slot_search :=
  match ws, ns with
  | w :: ws', n :: ns' =>
      match w with
      | None => empty_slot i
      | Some old =>
          if nonempty n && streq n local then existing_entry i old
          else find_slot local ws' ns' (S i)
      end
  | _, _ => no_slot
  end.

(** The buffer lookup both functions use: first [j] with
    [frame_buffers[j].frames] non-null and [mp4_writer_stream_names[j]]
    equal to [local]. *)
Fixpoint find_buffer (local : string) (fbs : list frame_buffer_t)
    (ns : list string) (j : nat) : option nat :=
  match fbs, ns with
  | fb :: fbs', n :: ns' =>
      if bool_decide (is_Some fb) && nonempty n && streq n local then Some j
      else find_buffer local fbs' ns' (S j)
  | _, _ => None
  end.

(** First [i] with a non-null writer and a name equal to [local]
    (the loop of [get_mp4_writer_for_stream] and of
    [unregister_mp4_writer_for_stream]). *)
Fixpoint find_writer (local : string) (ws : list (option mp4_writer_t))
    (ns : list string) (i : nat) : option (nat * mp4_writer_t) :=
  match ws, ns with
  | w :: ws', n :: ns' =>
      match w with
      | Some wr =>
          if nonempty n && streq n local then Some (i, wr)
          else find_writer local ws' ns' (S i)
      | None => find_writer local ws' ns' (S i)
      end
  | _, _ => None
  end.

(** The writers the registry references for stream [s]: the non-null writers
    of the slots whose name is non-empty and equal to [s], in slot order. *)
Fixpoint writers_for (s : string) (ws : list (option mp4_writer_t))
    (ns : list string) : list mp4_writer_t :=
  match ws, ns with
  | w :: ws', n :: ns' =>
      match w with
      | Some wr =>
          if nonempty n && streq n s then wr :: writers_for s ws' ns'
          else writers_for s ws' ns'
      | None => writers_for s ws' ns'
      end
  | _, _ => []
  end.

Definition registered_writers (st : registry) (s : string) : list mp4_writer_t :=
  writers_for s (mp4_writers st) (mp4_writer_stream_names st).

(** Result of a registry function: return value, new arrays, calls made. *)
Record outcome (R : Type) := {
  ret : R;
  after : registry;
  calls : list call
}.
Arguments ret {R}.
Arguments after {R}.
Arguments calls {R}.

Section WithEnvironment.

(** Constants of core/config.h and video/mp4_recording_internal.h. *)
Variable MAX_STREAM_NAME : nat.
Variable MAX_PREBUFFER_FRAMES : Z.

(** The stream manager: [get_stream_by_name] followed by a successful
    [get_stream_config] yields the configuration of the stream. *)
Variable stream_handle_t : Type.
Variable get_stream_by_name : string -> option stream_handle_t.
Variable get_stream_config : stream_handle_t -> option stream_config_t.

(** The frame-buffer module, as transformers of the [frame_buffers] array.
    [init_frame_buffer] also returns the index it chose (negative on
    failure). *)
Variable init_frame_buffer :
  string -> Z -> list frame_buffer_t -> Z * list frame_buffer_t.
Variable flush_frame_buffer :
  nat -> mp4_writer_t -> list frame_buffer_t -> list frame_buffer_t.
Variable free_frame_buffer : nat -> list frame_buffer_t -> list frame_buffer_t.

Definition local_copy (stream_name : string) : string :=
  strncpy (MAX_STREAM_NAME - 1) stream_name.

(** [config.pre_detection_buffer > 0] after both lookups succeed. *)
Definition prebuffer_config (local : string) : option stream_config_t :=
  match get_stream_by_name local with
  | Some stream =>
      match get_stream_config stream with
      | Some config =>
          if 0 <? pre_detection_buffer config then Some config else None
      | None => None
      end
  | None => None
  end.

Definition register_mp4_writer_for_stream (st : registry)
    (stream_name : option string) (writer : option mp4_writer_t) : outcome Z :=
  match stream_name, writer with
  | Some stream_name, Some writer =>
      let local := local_copy stream_name in
      match find_slot local (mp4_writers st) (mp4_writer_stream_names st) 0 with
      | existing_entry i old_writer =>
          (* Stream already has a writer, replace it *)
          let ws := <[ i := Some writer ]> (mp4_writers st) in
          let flush :=
            match prebuffer_config local with
            | Some config =>
                let capacity :=
                  int_mul (pre_detection_buffer config) (fps config) in
                if 0 <? capacity then
                  find_buffer local (frame_buffers st)
                    (mp4_writer_stream_names st) 0
                else None
            | None => None
            end in
          let '(fbs, flushed) :=
            match flush with
            | Some buffer_idx =>
                (flush_frame_buffer buffer_idx writer (frame_buffers st),
                 [flush_frame_buffer_call buffer_idx writer])
            | None => (frame_buffers st, [])
            end in
          {| ret := 0;
             after := {| mp4_writers := ws;
                         mp4_writer_stream_names := mp4_writer_stream_names st;
                         frame_buffers := fbs |};
             calls := flushed ++ [mp4_writer_close old_writer] |}
      | no_slot =>
          {| ret := -1; after := st; calls := [] |}
      | empty_slot slot =>
          let ws := <[ slot := Some writer ]> (mp4_writers st) in
          let ns := <[ slot := strncpy 63 local ]> (mp4_writer_stream_names st) in
          let '(fbs, inits) :=
            match prebuffer_config local with
            | Some config =>
                let capacity :=
                  int_mul (pre_detection_buffer config) (fps config) in
                if 0 <? capacity then
                  let capacity :=
                    if capacity <? MAX_PREBUFFER_FRAMES then capacity
                    else MAX_PREBUFFER_FRAMES in
                  (snd (init_frame_buffer local capacity (frame_buffers st)),
                   [init_frame_buffer_call local capacity])
                else (frame_buffers st, [])
            | None => (frame_buffers st, [])
            end in
          {| ret := 0;
             after := {| mp4_writers := ws;
                         mp4_writer_stream_names := ns;
                         frame_buffers := fbs |};
             calls := inits |}
      end
  | _, _ => {| ret := -1; after := st; calls := [] |}
  end.

Definition get_mp4_writer_for_stream (st : registry)
    (stream_name : option string) : option mp4_writer_t :=
  match stream_name with
  | Some stream_name =>
      if nonempty stream_name then
        snd <$> find_writer (local_copy stream_name)
                  (mp4_writers st) (mp4_writer_stream_names st) 0
      else None
  | None => None
  end.

Definition unregister_mp4_writer_for_stream (st : registry)
    (stream_name : option string) : outcome unit :=
  match stream_name with
  | Some stream_name =>
      if nonempty stream_name then
        let local := local_copy stream_name in
        match find_writer local (mp4_writers st) (mp4_writer_stream_names st) 0 with
        | Some (writer_idx, _) =>
            (* Don't close the writer here, just unregister it *)
            let ws := <[ writer_idx := None ]> (mp4_writers st) in
            let ns := <[ writer_idx := ""%string ]> (mp4_writer_stream_names st) in
            (* Find and free the frame buffer for this stream *)
            match find_buffer local (frame_buffers st) ns 0 with
            | Some buffer_idx =>
                {| ret := tt;
                   after := {| mp4_writers := ws;
                               mp4_writer_stream_names := ns;
                               frame_buffers :=
                                 free_frame_buffer buffer_idx (frame_buffers st) |};
                   calls := [free_frame_buffer_call buffer_idx] |}
            | None =>
                {| ret := tt;
                   after := {| mp4_writers := ws;
                               mp4_writer_stream_names := ns;
                               frame_buffers := frame_buffers st |};
                   calls := [] |}
            end
        | None => {| ret := tt; after := st; calls := [] |}
        end
      else {| ret := tt; after := st; calls := [] |}
  | None => {| ret := tt; after := st; calls := [] |}
  end.

(** The re-arm contract in the specification's words: the previous writer
    [w1] is handed back to the caller to close (so the call itself does not
    close it), and afterwards [w2] is the only writer the registry references
    for the stream. *)
Definition detached_and_returned (st : registry) (stream_name : string)
    (w1 w2 : mp4_writer_t) : Prop :=
  let o := register_mp4_writer_for_stream st (Some stream_name) (Some w2) in
  (mp4_writer_close w1 ∉ calls o) /\
  registered_writers (after o) (local_copy stream_name) = [w2].

End WithEnvironment.

(** *** A sample installation

    Sixteen slots, stream names of at most 63 bytes, at most 600 buffered
    frames; every stream is configured with a 5 second pre-detection buffer
    at 10 frames per second; buffers are allocated in the first free entry of
    [frame_buffers]. *)

Fixpoint first_unallocated (fbs : list frame_buffer_t) (i : nat) : option nat :=
  match fbs with
  | None :: _ => Some i
  | Some _ :: fbs' => first_unallocated fbs' (S i)
  | [] => None
  end.

Definition sample_init_frame_buffer (stream : string) (capacity : Z)
    (fbs : list frame_buffer_t) : Z * list frame_buffer_t :=
  match first_unallocated fbs 0 with
  | Some i => (Z.of_nat i, <[ i := Some capacity ]> fbs)
  | None => (-1, fbs)
  end.

Definition sample_flush_frame_buffer (buffer_idx : nat) (w : mp4_writer_t)
    (fbs : list frame_buffer_t) : list frame_buffer_t := fbs.

Definition sample_free_frame_buffer (buffer_idx : nat)
    (fbs : list frame_buffer_t) : list frame_buffer_t :=
  <[ buffer_idx := None ]> fbs.

Definition sample_config (pre rate : Z) (stream : string) : option stream_config_t :=
  Some (camera stream true true pre rate).

Definition arm (st : registry) (stream : string) (w : mp4_writer_t) : outcome Z :=
  register_mp4_writer_for_stream 64 600 string Some (sample_config 5 10)
    sample_init_frame_buffer sample_flush_frame_buffer
    st (Some stream) (Some w).

Definition disarm (st : registry) (stream : string) : outcome unit :=
  unregister_mp4_writer_for_stream 64 sample_free_frame_buffer st (Some stream).

End Registry.

(** ** The streams table (database/db_streams.c) *)

Module StreamsDb.

Definition to_uint64 (z : Z) : Z := z mod 2 ^ 64.

(** [(sqlite3_int64) x] for a [uint64_t] [x]. *)
Definition to_int64 (z : Z) : Z := (z + 2 ^ 63) mod 2 ^ 64 - 2 ^ 63.

(** One row of [streams]: the rowid and the twenty columns the functions
    bind, which are the fields of [stream_config_t]. *)
Record stream_row := {
  row_id : Z;
  row_config : stream_config_t
}.

(** The open database. [schema_ok] says that [streams] has the columns the
    statements name, so that [sqlite3_prepare_v2] returns [SQLITE_OK]. *)
Record database := {
  streams : list stream_row;
  schema_ok : bool
}.

(** [get_db_handle ()]: [None] while the database is not initialised. *)
Definition db_handle := option database.

Definition with_streams (d : database) (rows : list stream_row) : database :=
  {| streams := rows; schema_ok := schema_ok d |}.

(** [SELECT id FROM streams WHERE name = ? AND enabled = 0], first row. *)
Definition select_disabled_id (nm : string) (rows : list stream_row) : option Z :=
  row_id <$> List.find
    (fun r => streq (name (row_config r)) nm && negb (enabled (row_config r))) rows.

(** [SELECT ... FROM streams WHERE name = ?], first row. *)
Definition select_by_name (nm : string) (rows : list stream_row) : option stream_row :=
  List.find (fun r => streq (name (row_config r)) nm) rows.

(** The [SET] list of the [UPDATE] in [add_stream_config]: every column but
    [name]. *)
Definition set_all_but_name (old new : stream_config_t) : stream_config_t :=
  {| name := name old;
     url := url new;
     enabled := enabled new;
     streaming_enabled := streaming_enabled new;
     width := width new;
     height := height new;
     fps := fps new;
     codec := codec new;
     priority := priority new;
     record := record new;
     segment_duration := segment_duration new;
     detection_based_recording := detection_based_recording new;
     detection_model := detection_model new;
     detection_threshold := detection_threshold new;
     detection_interval := detection_interval new;
     pre_detection_buffer := pre_detection_buffer new;
     post_detection_buffer := post_detection_buffer new;
     protocol := protocol new;
     is_onvif := is_onvif new;
     record_audio := record_audio new |}.

(** [UPDATE streams SET ... WHERE id = ?] *)
Definition update_by_id (id : Z) (new : stream_config_t)
    (rows : list stream_row) : list stream_row :=
  List.map (fun r =>
    if row_id r =? id
    then {| row_id := row_id r; row_config := set_all_but_name (row_config r) new |}
    else r) rows.

(** The rowid SQLite gives a new row: one more than the largest in use. *)
Definition next_rowid (rows : list stream_row) : Z :=
  1 + List.fold_right (fun r m => Z.max (row_id r) m) 0 rows.

(** Modelled from the spec: the schema (database/db_schema.c is not among the
    sources) declares [streams (id, name UNIQUE, ...)], so an [INSERT] whose
    name is already in the table fails with a constraint violation and
    leaves the table as it was. *)
Definition insert_stream (new : stream_config_t)
    (rows : list stream_row) : option (Z * list stream_row) :=
  match select_by_name (name new) rows with
  | Some _ => None
  | None =>
      let id := next_rowid rows in
      Some (id, rows ++ [{| row_id := id; row_config := new |}])
  end.

(** Returns the stream id (0 on failure) and the database afterwards. *)
Definition add_stream_config (db : db_handle)
    (stream : option stream_config_t) : Z * db_handle :=
  match db, stream with
  | Some d, Some stream =>
      if negb (schema_ok d) then (0, db)
      else
        match select_disabled_id (name stream) (streams d) with
        | Some id =>
            (* Stream exists but is disabled, enable it by updating *)
            let existing_id := to_uint64 id in
            (existing_id,
             Some (with_streams d
                     (update_by_id (to_int64 existing_id) stream (streams d))))
        | None =>
            (* No disabled stream found, insert a new one *)
            match insert_stream stream (streams d) with
            | Some (rowid, rows) => (to_uint64 rowid, Some (with_streams d rows))
            | None => (0, db)
            end
        end
  | _, _ => (0, db)
  end.

(** [permanent = false]: [UPDATE streams SET enabled = 0 WHERE name = ?];
    [permanent = true]: [DELETE FROM streams WHERE name = ?]. *)
Definition disable_row (r : stream_row) : stream_row :=
  let c := row_config r in
  {| row_id := row_id r;
     row_config :=
       {| name := name c; url := url c; enabled := false;
          streaming_enabled := streaming_enabled c; width := width c;
          height := height c; fps := fps c; codec := codec c;
          priority := priority c; record := record c;
          segment_duration := segment_duration c;
          detection_based_recording := detection_based_recording c;
          detection_model := detection_model c;
          detection_threshold := detection_threshold c;
          detection_interval := detection_interval c;
          pre_detection_buffer := pre_detection_buffer c;
          post_detection_buffer := post_detection_buffer c;
          protocol := protocol c; is_onvif := is_onvif c;
          record_audio := record_audio c |} |}.

Definition delete_stream_config_internal (db : db_handle)
    (nm : option string) (permanent : bool) : Z * db_handle :=
  match db, nm with
  | Some d, Some nm =>
      if negb (schema_ok d) then (-1, db)
      else if permanent then
        (0, Some (with_streams d
              (List.filter (fun r => negb (streq (name (row_config r)) nm)) (streams d))))
      else
        (0, Some (with_streams d
              (List.map (fun r => if streq (name (row_config r)) nm
                                  then disable_row r else r) (streams d))))
  | _, _ => (-1, db)
  end.

Definition delete_stream_config (db : db_handle) (nm : option string) :=
  delete_stream_config_internal db nm false.

(** 1 if eligible, 0 if not eligible, -1 on error. *)
Definition is_stream_eligible_for_live_streaming (db : db_handle)
    (stream_name : option string) : Z :=
  match db, stream_name with
  | Some d, Some stream_name =>
      if negb (schema_ok d) then -1
      else
        match select_by_name stream_name (streams d) with
        | Some r =>
            if enabled (row_config r) && streaming_enabled (row_config r)
            then 1 else 0
        | None => 0 (* Not eligible if not found *)
        end
  | _, _ => -1
  end.

(** Names and rowids are keys of the table. *)
Definition table_ok (rows : list stream_row) : Prop :=
  NoDup ((fun r => name (row_config r)) <$> rows) /\
  NoDup (row_id <$> rows) /\
  Forall (fun r => 0 < row_id r < 2 ^ 63 - 1) rows.

(** The upsert in the specification's words, for a name already in the
    table: the row keeps its id, which is returned, and takes all of the new
    configuration's fields. *)
Definition upsert_replaces_existing (db : db_handle) (c : stream_config_t) : Prop :=
  forall d r,
    db = Some d ->
    select_by_name (name c) (streams d) = Some r ->
    exists d',
      add_stream_config db (Some c) = (row_id r, Some d') /\
      select_by_name (name c) (streams d')
        = Some {| row_id := row_id r; row_config := c |}.

(** A database that holds the single stream [cam-front]. *)
Definition one_camera (on live : bool) : database :=
  {| streams := [{| row_id := 1; row_config := camera "cam-front" on live 5 10 |}];
     schema_ok := true |}.

Definition one_camera_db (on live : bool) : db_handle := Some (one_camera on live).

End StreamsDb.

(** ** Timeline handlers (web/api_handlers_timeline.c) *)

Module Timeline.

(** *** libc time conversions used by the handlers *)

(** [struct tm], the fields [strptime] fills and [mktime] reads. *)
Record tm := {
  tm_year : Z;   (* years since 1900 *)
  tm_mon : Z;    (* 0 .. 11 *)
  tm_mday : Z;
  tm_hour : Z;
  tm_min : Z;
  tm_sec : Z;
  tm_isdst : Z
}.

Definition tm_zero : tm :=
  {| tm_year := 0; tm_mon := 0; tm_mday := 0; tm_hour := 0; tm_min := 0;
     tm_sec := 0; tm_isdst := 0 |}.

Definition is_digit (c : ascii) : bool :=
  (48 <=? Z.of_nat (nat_of_ascii c)) && (Z.of_nat (nat_of_ascii c) <=? 57).

Definition digit_val (c : ascii) : Z := Z.of_nat (nat_of_ascii c) - 48.

Definition is_space (c : ascii) : bool :=
  let n := Z.of_nat (nat_of_ascii c) in (n =? 32) || ((9 <=? n) && (n <=? 13)).

Fixpoint skip_spaces (rp : list ascii) : list ascii :=
  match rp with
  | c :: rp' => if is_space c then skip_spaces rp' else rp
  | [] => []
  end.

(** The tail of glibc's [get_number]: at most [n] further digits, as long as
    the value can still stay below [to]. *)
Fixpoint more_digits (n : nat) (to val : Z) (rp : list ascii) : Z * list ascii :=
  match n, rp with
  | S n', c :: rp' =>
      if (val * 10 <=? to) && is_digit c
      then more_digits n' to (val * 10 + digit_val c) rp'
      else (val, rp)
  | _, _ => (val, rp)
  end.

Definition get_number (from to : Z) (n : nat) (rp : list ascii)
    : option (Z * list ascii) :=
  match skip_spaces rp with
  | c :: rp' =>
      if is_digit c then
        let '(val, rest) := more_digits (n - 1) to (digit_val c) rp' in
        if (val <? from) || (to <? val) then None else Some (val, rest)
      else None
  | [] => None
  end.

(** The conversion specifications the handlers' formats use. *)
Inductive directive :=
| lit (c : ascii)
| pct_Y | pct_m | pct_d | pct_H | pct_M | pct_S.

Definition with_field (d : directive) (val : Z) (t : tm) : tm :=
  match d with
  | pct_Y => {| tm_year := val - 1900; tm_mon := tm_mon t; tm_mday := tm_mday t;
                tm_hour := tm_hour t; tm_min := tm_min t; tm_sec := tm_sec t;
                tm_isdst := tm_isdst t |}
  | pct_m => {| tm_year := tm_year t; tm_mon := val - 1; tm_mday := tm_mday t;
                tm_hour := tm_hour t; tm_min := tm_min t; tm_sec := tm_sec t;
                tm_isdst := tm_isdst t |}
  | pct_d => {| tm_year := tm_year t; tm_mon := tm_mon t; tm_mday := val;
                tm_hour := tm_hour t; tm_min := tm_min t; tm_sec := tm_sec t;
                tm_isdst := tm_isdst t |}
  | pct_H => {| tm_year := tm_year t; tm_mon := tm_mon t; tm_mday := tm_mday t;
                tm_hour := val; tm_min := tm_min t; tm_sec := tm_sec t;
                tm_isdst := tm_isdst t |}
  | pct_M => {| tm_year := tm_year t; tm_mon := tm_mon t; tm_mday := tm_mday t;
                tm_hour := tm_hour t; tm_min := val; tm_sec := tm_sec t;
                tm_isdst := tm_isdst t |}
  | pct_S => {| tm_year := tm_year t; tm_mon := tm_mon t; tm_mday := tm_mday t;
                tm_hour := tm_hour t; tm_min := tm_min t; tm_sec := val;
                tm_isdst := tm_isdst t |}
  | lit _ => t
  end.

Definition field_range (d : directive) : Z * Z * nat :=
  match d with
  | pct_Y => (0, 9999, 4%nat)
  | pct_m => (1, 12, 2%nat)
  | pct_d => (1, 31, 2%nat)
  | pct_H => (0, 23, 2%nat)
  | pct_M => (0, 59, 2%nat)
  | pct_S => (0, 61, 2%nat)
  | lit _ => (0, 0, 0%nat)
  end.

(** [strptime (s, fmt, &tm) != NULL]: the broken-down time when the whole
    format is matched by a prefix of [s]. *)
Fixpoint strptime (rp : list ascii) (fmt : list directive) (t : tm) : option tm :=
  match fmt with
  | [] => Some t
  | lit c :: fmt' =>
      match rp with
      | c' :: rp' => if Ascii.eqb c c' then strptime rp' fmt' t else None
      | [] => None
      end
  | d :: fmt' =>
      let '(from, to, n) := field_range d in
      match get_number from to n rp with
      | Some (val, rest) => strptime rest fmt' (with_field d val t)
      | None => None
      end
  end.

Definition lits (s : string) : list directive :=
  List.map lit (String.list_ascii_of_string s).

(** ["%Y-%m-%d"] *)
Definition fmt_date : list directive :=
  [pct_Y; lit "-"%char; pct_m; lit "-"%char; pct_d].

(** ["%Y-%m-%dT%H:%M:%S"] *)
Definition fmt_datetime : list directive :=
  fmt_date ++ [lit "T"%char; pct_H; lit ":"%char; pct_M; lit ":"%char; pct_S].

(** Days from 1970-01-01 to the civil date [y]-[m]-[d] (proleptic Gregorian
    calendar, [m] in 1 .. 12; days past the end of the month run on). *)
Definition days_from_civil (y m d : Z) : Z :=
  let y' := if m <=? 2 then y - 1 else y in
  let era := y' / 400 in
  let yoe := y' - era * 400 in
  let mp := if 2 <? m then m - 3 else m + 9 in
  let doy := (153 * mp + 2) / 5 + d - 1 in
  let doe := yoe * 365 + yoe / 4 - yoe / 100 + doy in
  era * 146097 + doe - 719468.

(** [timegm]: the broken-down time read as UTC. *)
Definition timegm (t : tm) : Z :=
  days_from_civil (tm_year t + 1900) (tm_mon t + 1) (tm_mday t) * 86400
  + tm_hour t * 3600 + tm_min t * 60 + tm_sec t.

(** The server's time zone: the offset from UTC, in seconds east, that is in
    force at a given local wall-clock time. *)
Record timezone := { gmtoff : Z -> Z }.

Definition utc : timezone := {| gmtoff := fun _ => 0 |}.
Definition fixed_zone (seconds_east : Z) : timezone :=
  {| gmtoff := fun _ => seconds_east |}.

(** [mktime] with [tm_isdst = -1]: the broken-down time read as local time
    of the server. *)
Definition mktime (tz : timezone) (t : tm) : Z :=
  timegm t - gmtoff tz (timegm t).

(** *** Time parameters of [mg_handle_get_timeline_segments] *)

(** [while ((pos = strstr (pos, "%3A")) != NULL) { *pos = ':'; memmove ... }] *)
Fixpoint decode_colons (s : list ascii) : list ascii :=
  match s with
  | c1 :: s1 =>
      match s1 with
      | c2 :: c3 :: s3 =>
          if Ascii.eqb c1 "%"%char && Ascii.eqb c2 "3"%char && Ascii.eqb c3 "A"%char
          then ":"%char :: decode_colons s3
          else c1 :: decode_colons s1
      | _ => c1 :: decode_colons s1
      end
  | [] => []
  end.

Definition with_isdst (v : Z) (t : tm) : tm :=
  {| tm_year := tm_year t; tm_mon := tm_mon t; tm_mday := tm_mday t;
     tm_hour := tm_hour t; tm_min := tm_min t; tm_sec := tm_sec t;
     tm_isdst := v |}.

Definition with_time_of_day (h m s : Z) (t : tm) : tm :=
  {| tm_year := tm_year t; tm_mon := tm_mon t; tm_mday := tm_mday t;
     tm_hour := h; tm_min := m; tm_sec := s; tm_isdst := tm_isdst t |}.

(** The four formats tried in turn with [||]. *)
Definition datetime_formats : list (list directive) :=
  [fmt_datetime;
   fmt_datetime ++ lits ".000Z";
   fmt_datetime ++ lits ".000";
   fmt_datetime ++ lits "Z"].

Fixpoint first_match (decoded : list ascii) (fmts : list (list directive))
    : option tm :=
  match fmts with
  | fmt :: fmts' =>
      match strptime decoded fmt tm_zero with
      | Some t => Some t
      | None => first_match decoded fmts'
      end
  | [] => None
  end.

(** The value given to [start_time] / [end_time] for a non-empty parameter
    string; [h], [m], [s] is the time of day used for a date-only string.
    The variable keeps its initial 0 when nothing parses. *)
Definition parse_time_string (tz : timezone) (h m s : Z) (time_str : string) : Z :=
  let decoded := decode_colons (String.list_ascii_of_string (strncpy 63 time_str)) in
  match first_match decoded datetime_formats with
  | Some t => mktime tz (with_isdst (-1) t)
  | None =>
      match strptime decoded fmt_date tm_zero with
      | Some t => mktime tz (with_isdst (-1) (with_time_of_day h m s t))
      | None => 0
      end
  end.

(** [start_time] and [end_time] as the handler computes them from the
    [start] and [end] query parameters; [now] is [time (NULL)]. *)
Definition query_start_time (tz : timezone) (now : Z) (start_time_str : string) : Z :=
  if nonempty start_time_str then parse_time_string tz 0 0 0 start_time_str
  else now - 24 * 60 * 60.

Definition query_end_time (tz : timezone) (now : Z) (end_time_str : string) : Z :=
  if nonempty end_time_str then parse_time_string tz 23 59 59 end_time_str
  else now.

(** *** [create_timeline_manifest] *)

Record timeline_segment_t := {
  seg_id : Z;
  stream_name : string;
  file_path : string;
  start_time : Z;
  end_time : Z;
  size_bytes : Z;
  has_detection : bool
}.

Definition MAX_TIMELINE_SEGMENTS : nat := 1000.
Definition MAX_MANIFEST_SEGMENTS : nat := 100.

(** [%ld] / [%d] *)
Definition string_of_Z (z : Z) : string :=
  DecimalString.NilZero.string_of_int (Z.to_int z).

(** *** Durations

    [create_timeline_manifest] holds durations in a [double]. Every such
    value is the difference of two [time_t] or the initial 0, hence an
    integer, and is carried as that integer. *)

Definition DBL_MANT_DIG : Z := 53.

(** The [double] nearest to the integer [z], ties to the even mantissa:
    [z] itself while it has at most 53 significant bits. *)
Definition round_double (z : Z) : Z :=
  let m := Z.abs z in
  let drop := Z.log2 m + 1 - DBL_MANT_DIG in
  if drop <=? 0 then z
  else
    let q := Z.shiftr m drop in
    let r := m - Z.shiftl q drop in
    let half := Z.shiftl 1 (drop - 1) in
    let q' := if (half <? r) || ((r =? half) && Z.odd q) then q + 1 else q in
    Z.sgn z * Z.shiftl q' drop.

(** [difftime (end, start)]: the difference, rounded once to a [double]. *)
Definition difftime (e s : Z) : Z := round_double (e - s).

(** [%.6f] of a [double] that holds an integer. *)
Definition string_of_double (d : Z) : string :=
  (string_of_Z d ++ ".000000")%string.

(** [(int) d] for a [double] that holds the integer [d]. C leaves the
    conversion undefined when the value is outside the range of [int]:
    [None]. *)
Definition int_of_double (d : Z) : option Z :=
  if (INT_MIN <=? d) && (d <=? INT_MAX) then Some d else None.

(** [a + b] in [int]; [None] where it overflows, which C leaves undefined. *)
Definition int_add (a b : Z) : option Z :=
  if (INT_MIN <=? a + b) && (a + b <=? INT_MAX) then Some (a + b) else None.

(** [(int)max_duration + 1] *)
Definition target_duration (max_duration : Z) : option Z :=
  match int_of_double max_duration with
  | Some whole => int_add whole 1
  | None => None
  end.

(** The loop that finds the largest segment duration, started from 0. *)
Definition max_duration (segments : list timeline_segment_t) : Z :=
  List.fold_left
    (fun acc seg =>
       let duration := difftime (end_time seg) (start_time seg) in
       if acc <? duration then duration else acc)
    segments 0.

Inductive manifest_result :=
| manifest_error                        (* return -1 *)
| manifest_created (manifest_path : string) (lines : list string) (* return 0 *)
| manifest_undefined.   (* [(int)max_duration + 1] has no defined value *)

Section Manifest.

(** [MAX_PATH_LENGTH] (core/config.h) and [g_config.storage_path]. *)
Variable MAX_PATH_LENGTH : nat.
Variable storage_path : string.

(** [snprintf (buf, MAX_PATH_LENGTH, ...)] *)
Definition snprintf_path (s : string) : string := strncpy (MAX_PATH_LENGTH - 1) s.

Definition manifest_filename (now : Z) (first : timeline_segment_t)
    (start : Z) : string :=
  let temp_dir := snprintf_path (storage_path ++ "/timeline_manifests")%string in
  snprintf_path
    (temp_dir ++ "/manifest_" ++ string_of_Z now ++ "_" ++ stream_name first
       ++ "_" ++ string_of_Z start ++ ".m3u8")%string.

(** The lines written to the manifest file, one per [fprintf]. *)
Definition manifest_lines (target_duration max_duration : Z)
    (first : timeline_segment_t) (start : Z) : list string :=
  [ "#EXTM3U";
    "#EXT-X-VERSION:3";
    "#EXT-X-MEDIA-SEQUENCE:0";
    "#EXT-X-ALLOW-CACHE:YES";
    "#EXT-X-TARGETDURATION:" ++ string_of_Z target_duration;
    (* Create a single segment for the entire timeline *)
    "#EXTINF:" ++ string_of_double max_duration ++ ",";
    "/api/timeline/play?stream=" ++ stream_name first ++ "&start="
      ++ string_of_Z start;
    "#EXT-X-ENDLIST" ]%string.

(** [segments] holds the [segment_count] entries of the array, [None] for a
    null pointer; [manifest_path] says whether the caller's buffer is not
    null; [fopen_ok] whether the manifest file could be created; [now] is
    [time (NULL)]. *)
Definition create_timeline_manifest (now : Z) (fopen_ok : bool)
    (segments : option (list timeline_segment_t)) (start : Z)
    (manifest_path : bool) : manifest_result :=
  match segments with
  | Some ((first :: _) as all) =>
      if negb manifest_path then manifest_error
      else
        (* Limit the number of segments *)
        let segments := take MAX_MANIFEST_SEGMENTS all in
        if fopen_ok then
          let max_duration := max_duration segments in
          match target_duration max_duration with
          | Some target =>
              manifest_created (snprintf_path (manifest_filename now first start))
                (manifest_lines target max_duration first start)
          | None => manifest_undefined
          end
        else manifest_error
  | Some [] | None => manifest_error
  end.

End Manifest.

Fixpoint starts_with (p s : string) : bool :=
  match p, s with
  | EmptyString, _ => true
  | String a p', String b s' => Ascii.eqb a b && starts_with p' s'
  | String _ _, EmptyString => false
  end.

(** The media segments of a playlist: its [#EXTINF] entries. *)
Definition segment_descriptors (lines : list string) : list string :=
  List.filter (starts_with "#EXTINF:") lines.

(** The manifest in the specification's words: one segment descriptor for
    each listed segment, up to the manifest limit. *)
Definition one_descriptor_per_segment (segments : list timeline_segment_t)
    (lines : list string) : Prop :=
  length (segment_descriptors lines)
    = Nat.min (length segments) MAX_MANIFEST_SEGMENTS.

(** The time parameters in the specification's words: the wall-clock string
    is read as UTC, whatever the server's zone. *)
Definition read_as_utc (tz : timezone) (time_str : string) : Prop :=
  forall now t,
    strptime (String.list_ascii_of_string time_str) fmt_datetime tm_zero = Some t ->
    query_start_time tz now time_str = timegm t /\
    query_end_time tz now time_str = timegm t.

Definition segment (id : Z) (s e : Z) : timeline_segment_t :=
  {| seg_id := id; stream_name := "cam-front";
     file_path := "/var/lib/lightnvr/recordings/cam-front/seg.mp4";
     start_time := s; end_time := e; size_bytes := 1048576;
     has_detection := false |}.

End Timeline.

(** ** Recording playback (web/recordings_playback_task.c) *)

Module Playback.

(** *** The table of active requests *)

Record active_request := {
  req_id : Z;      (* uint64_t id *)
  active : bool
}.

Definition MAX_ACTIVE_REQUESTS : nat := 32.

(** [g_active_requests] after [init_active_requests]: all zero. *)
Definition init_active_requests : list active_request :=
  replicate MAX_ACTIVE_REQUESTS {| req_id := 0; active := false |}.

Definition matches (id : Z) (e : active_request) : bool :=
  (req_id e =? id) && active e.

Fixpoint is_request_active (t : list active_request) (id : Z) : bool :=
  match t with
  | e :: t' => if matches id e then true else is_request_active t' id
  | [] => false
  end.

(** The second loop of [mark_request_active]: index of the first slot that
    is not active. *)
Fixpoint find_free_slot (t : list active_request) (i : nat) : option nat :=
  match t with
  | e :: t' => if active e then find_free_slot t' (S i) else Some i
  | [] => None
  end.

Definition mark_request_active (t : list active_request) (id : Z)
    : bool * list active_request :=
  if is_request_active t id then (false, t)
  else
    match find_free_slot t 0 with
    | Some i => (true, <[ i := {| req_id := id; active := true |} ]> t)
    | None => (false, t)
    end.

Fixpoint mark_request_inactive (t : list active_request) (id : Z)
    : list active_request :=
  match t with
  | e :: t' =>
      if matches id e then {| req_id := req_id e; active := false |} :: t'
      else e :: mark_request_inactive t' id
  | [] => []
  end.

(** How many active entries carry [id]. *)
Definition active_entries (t : list active_request) (id : Z) : nat :=
  length (List.filter (matches id) t).

(** No id has two active entries: the invariant of the table. *)
Definition deduplicated (t : list active_request) : Prop :=
  forall id, (active_entries t id <= 1)%nat.

(** Tables the two mutators can produce from the initial one. *)
Inductive reachable : list active_request -> Prop :=
| reach_init : reachable init_active_requests
| reach_active t id : reachable t -> reachable (snd (mark_request_active t id))
| reach_inactive t id : reachable t -> reachable (mark_request_inactive t id).

(** *** [mg_handle_play_recording] *)

Record mg_connection := { is_closing : bool }.

Record playback_recording_task_t := {
  connection : option mg_connection;
  task_id : Z;
  range_header : option string
}.

(** Resources the handler needs after it has marked the request: the copy of
    the HTTP message, the thread pool, the task, the pool's queue. *)
Record resources := {
  hm_copy_ok : bool;
  pool_ok : bool;
  task_ok : bool;
  add_task_ok : bool
}.

Record handled := {
  error_status : option Z;      (* the status of [mg_send_json_error] *)
  table_after : list active_request;
  scheduled : option playback_recording_task_t
}.

Definition reject (status : Z) (t : list active_request) : handled :=
  {| error_status := Some status; table_after := t; scheduled := None |}.

(** [path_id]: the result of [strtoull] on the path parameter, [None] when
    [mg_extract_path_param] fails. *)
Definition mg_handle_play_recording (res : resources) (c : mg_connection)
    (range : option string) (t : list active_request) (path_id : option Z)
    : handled :=
  match path_id with
  | None => reject 400 t
  | Some id =>
      if id =? 0 then reject 400 t
      else if is_request_active t id then reject 429 t
      else
        let '(marked, t1) := mark_request_active t id in
        if negb marked then reject 503 t1
        else if negb (hm_copy_ok res) then reject 500 (mark_request_inactive t1 id)
        else if negb (pool_ok res) then reject 500 (mark_request_inactive t1 id)
        else if negb (task_ok res) then reject 500 (mark_request_inactive t1 id)
        else if negb (add_task_ok res) then reject 500 (mark_request_inactive t1 id)
        else
          {| error_status := None;
             table_after := t1;
             scheduled := Some {| connection := Some c; task_id := id;
                                  range_header := range |} |}
  end.

(** *** [playback_recording_task_function] *)

Record recording_metadata_t := {
  rec_id : Z;
  rec_stream_name : string;
  rec_file_path : string
}.

Definition to_lower (c : ascii) : ascii :=
  let n := nat_of_ascii c in
  if ((65 <=? n) && (n <=? 90))%nat then ascii_of_nat (n + 32) else c.

(** [strcasecmp (a, b) == 0] *)
Definition strcaseeq (a b : list ascii) : bool :=
  bool_decide (List.map to_lower a = List.map to_lower b).

(** [strrchr (path, '.')]: the suffix that starts at the last dot. *)
Fixpoint strrchr_dot (s : list ascii) : option (list ascii) :=
  match s with
  | c :: s' =>
      match strrchr_dot s' with
      | Some ext => Some ext
      | None => if Ascii.eqb c "."%char then Some s else None
      end
  | [] => None
  end.

Definition content_type (path : string) : string :=
  match strrchr_dot (String.list_ascii_of_string path) with
  | Some file_ext =>
      let has_ext ext := strcaseeq file_ext (String.list_ascii_of_string ext) in
      if has_ext ".mp4"%string then "video/mp4"
      else if has_ext ".webm"%string then "video/webm"
      else if has_ext ".mkv"%string then "video/x-matroska"
      else if has_ext ".avi"%string then "video/x-msvideo"
      else if has_ext ".mov"%string then "video/quicktime"
      else "video/mp4"
  | None => "video/mp4"
  end%string.

Record task_result := {
  reply_status : option Z;               (* [mg_http_reply (c, status, ...)] *)
  served_file : option (string * string); (* [mg_http_serve_file]: path, MIME type *)
  requests_after : list active_request
}.

Section Task.

(** The catalog lookup ([Some] when [get_recording_metadata_by_id] returns 0)
    and the file system ([true] when [stat] returns 0). *)
Variable get_recording_metadata_by_id : Z -> option recording_metadata_t.
Variable stat : string -> bool.

Definition playback_recording_task_function (t : list active_request)
    (task : option playback_recording_task_t) : task_result :=
  match task with
  | None => {| reply_status := None; served_file := None; requests_after := t |}
  | Some task =>
      let id := task_id task in
      let cleared := mark_request_inactive t id in
      match connection task with
      | None =>
          {| reply_status := None; served_file := None; requests_after := cleared |}
      | Some c =>
          if is_closing c then
            {| reply_status := None; served_file := None; requests_after := cleared |}
          else
            match get_recording_metadata_by_id id with
            | None =>
                {| reply_status := Some 404; served_file := None;
                   requests_after := cleared |}
            | Some recording =>
                if negb (stat (rec_file_path recording)) then
                  {| reply_status := Some 404; served_file := None;
                     requests_after := cleared |}
                else
                  {| reply_status := None;
                     served_file := Some (rec_file_path recording,
                                          content_type (rec_file_path recording));
                     requests_after := cleared |}
            end
      end
  end.

End Task.

(** A catalog with one recording, and a disk that holds its file. *)
Definition one_recording (id : Z) : option recording_metadata_t :=
  if id =? 7 then
    Some {| rec_id := 7; rec_stream_name := "cam-front";
            rec_file_path := "/var/lib/lightnvr/recordings/cam-front/7.mp4" |}
  else None.

Definition file_present (path : string) : bool :=
  String.eqb path "/var/lib/lightnvr/recordings/cam-front/7.mp4".

Definition live_task (id : Z) : playback_recording_task_t :=
  {| connection := Some {| is_closing := false |}; task_id := id;
     range_header := None |}.

End Playback.

(** ** Shutdown of the writer registry ([close_all_mp4_writers]) *)

Module Shutdown.

Import Registry.

(** [mp4_recording_ctx_t], the two fields the shutdown reads and writes:
    [config.name] and [mp4_writer]. *)
Record mp4_recording_ctx_t := {
  ctx_name : string;
  ctx_mp4_writer : option mp4_writer_t
}.

(** Calls made during shutdown, in order. *)
Inductive shutdown_call :=
| close_writer (w : mp4_writer_t)
| add_event_recording_stop (stream path : string).

(** One entry of [writers_to_close] / [stream_names_to_close] /
    [file_paths_to_close]. *)
Record to_close := {
  tc_writer : mp4_writer_t;
  tc_stream : string;
  tc_path : string
}.

Section CloseAll.

Variable MAX_PATH_LENGTH : nat.

(** [writer->output_path], null for [None]. *)
Variable output_path : mp4_writer_t -> option string.

Definition path_copy (w : mp4_writer_t) : string :=
  match output_path w with
  | Some path => if nonempty path then strncpy (MAX_PATH_LENGTH - 1) path else ""
  | None => ""
  end.

(** The first loop: what it copies aside ... *)
Fixpoint collect_writers (ws : list (option mp4_writer_t)) (ns : list string)
    : list to_close :=
  match ws, ns with
  | w :: ws', n :: ns' =>
      match w with
      | Some wr =>
          if nonempty n then
            {| tc_writer := wr; tc_stream := strncpy 63 n; tc_path := path_copy wr |}
              :: collect_writers ws' ns'
          else collect_writers ws' ns'
      | None => collect_writers ws' ns'
      end
  | _, _ => []
  end.

(** ... and the arrays it leaves: every slot with a writer and a name is
    cleared, the others are not touched. *)
Fixpoint cleared_writers (ws : list (option mp4_writer_t)) (ns : list string)
    : list (option mp4_writer_t) :=
  match ws, ns with
  | w :: ws', n :: ns' =>
      (if bool_decide (is_Some w) && nonempty n then None else w)
        :: cleared_writers ws' ns'
  | _, _ => ws
  end.

Fixpoint cleared_names (ws : list (option mp4_writer_t)) (ns : list string)
    : list string :=
  match ws, ns with
  | w :: ws', n :: ns' =>
      (if bool_decide (is_Some w) && nonempty n then ""%string else n)
        :: cleared_names ws' ns'
  | _, _ => ns
  end.

(** The inner loop over [recording_contexts]: a context of that stream that
    references the writer about to be closed loses the reference. *)
Definition clear_reference (e : to_close) (ctx : option mp4_recording_ctx_t)
    : option mp4_recording_ctx_t :=
  match ctx with
  | Some c =>
      if streq (ctx_name c) (tc_stream e)
         && bool_decide (ctx_mp4_writer c = Some (tc_writer e))
      then Some {| ctx_name := ctx_name c; ctx_mp4_writer := None |}
      else Some c
  | None => None
  end.

(** The second loop. *)
Fixpoint close_collected (todo : list to_close)
    (contexts : list (option mp4_recording_ctx_t))
    : list (option mp4_recording_ctx_t) * list shutdown_call :=
  match todo with
  | e :: todo' =>
      let contexts := clear_reference e <$> contexts in
      let '(contexts', calls') := close_collected todo' contexts in
      (contexts',
       close_writer (tc_writer e)
         :: (if nonempty (tc_path e)
             then [add_event_recording_stop (tc_stream e) (tc_path e)]
             else [])
         ++ calls')
  | [] => (contexts, [])
  end.

Definition close_all_mp4_writers (st : registry)
    (recording_contexts : list (option mp4_recording_ctx_t))
    : registry * list (option mp4_recording_ctx_t) * list shutdown_call :=
  let todo := collect_writers (mp4_writers st) (mp4_writer_stream_names st) in
  let st' :=
    {| mp4_writers := cleared_writers (mp4_writers st) (mp4_writer_stream_names st);
       mp4_writer_stream_names :=
         cleared_names (mp4_writers st) (mp4_writer_stream_names st);
       frame_buffers := frame_buffers st |} in
  let '(contexts, calls) := close_collected todo recording_contexts in
  (st', contexts, calls).

End CloseAll.

(** The writers a list of shutdown calls closes, in order. *)
Definition closed_writers (calls : list shutdown_call) : list mp4_writer_t :=
  omap (fun c => match c with close_writer w => Some w | _ => None end) calls.

(** No slot has a null writer under a name: what the registry functions
    keep between calls. *)
Definition null_slots_unnamed (st : registry) : Prop :=
  forall i, mp4_writers st !! i = Some None ->
            mp4_writer_stream_names st !! i = Some ""%string.

(** The shape of the registry: a null writer never sits under a name, and
    the two arrays have a common length [n]. *)
Definition well_formed (n : nat) (st : registry) : Prop :=
  null_slots_unnamed st /\
  length (mp4_writers st) = n /\ length (mp4_writer_stream_names st) = n.

End Shutdown.

(** ** Reading and updating the streams table (database/db_streams.c) *)

Module StreamsDbQueries.

Import StreamsDb.

(** The four answers of [cached_column_exists] the read paths ask for. *)
Record column_cache := {
  has_detection_columns : bool;
  has_protocol_column : bool;
  has_onvif_column : bool;
  has_record_audio_column : bool
}.

Definition all_columns : column_cache :=
  {| has_detection_columns := true; has_protocol_column := true;
     has_onvif_column := true; has_record_audio_column := true |}.

(** [sqlite3_column_count] of the [SELECT] the cache picks. *)
Definition column_count (cols : column_cache) : Z :=
  if has_detection_columns cols && has_protocol_column cols
     && has_onvif_column cols && has_record_audio_column cols then 20
  else if has_detection_columns cols && has_protocol_column cols then 18
  else if has_detection_columns cols then 17
  else 11.

(** The bit pattern of [0.5f], the default detection threshold. *)
Definition default_detection_threshold : Z := 1056964608.

(** A [float] given by its bit pattern is a NaN: exponent all ones, mantissa
    not zero. *)
Definition is_nan (bits : Z) : bool :=
  (Z.land bits 0x7F800000 =? 0x7F800000) && negb (Z.land bits 0x007FFFFF =? 0).

(** The bit pattern of [-0.0f]. *)
Definition negative_zero : Z := 0x80000000.

(** What [sqlite3_column_double] gives back, converted to [float], for the
    [float] that [sqlite3_bind_double] was given; [None] when
    [sqlite3_column_type] is [SQLITE_NULL]. SQLite stores a NaN as NULL, and
    in a column of REAL affinity a negative zero as zero; every other
    [float] survives the way to [double] and back. (The schema is not among
    the sources; the column is taken to be declared REAL.) *)
Definition column_float (bound : Z) : option Z :=
  if is_nan bound then None
  else if bound =? negative_zero then Some 0
  else Some bound.

(** The threshold [get_stream_config_by_name] ends with: the default is
    kept when the column is NULL. *)
Definition read_threshold (bound : Z) : Z :=
  match column_float bound with
  | Some threshold => threshold
  | None => default_detection_threshold
  end.

Section Sizes.

(** Sizes of the character arrays of [stream_config_t] (core/config.h). *)
Variable MAX_STREAM_NAME : nat.
Variable MAX_URL_LENGTH : nat.
Variable CODEC_SIZE : nat.
Variable MAX_PATH_LENGTH : nat.

(** One result row copied into a [stream_config_t]: [memset], the four
    defaults, then the columns the statement has. The columns hold what
    [add_stream_config] and [update_stream_config] bound: the texts and
    integers are never NULL, the threshold is NULL when a NaN was bound
    (see [column_float]). *)
Definition read_row (cols : column_cache) (r : stream_row) : stream_config_t :=
  let c := row_config r in
  let n := column_count cols in
  let detection := has_detection_columns cols && (11 <? n) in
  {| name := strncpy (MAX_STREAM_NAME - 1) (name c);
     url := strncpy (MAX_URL_LENGTH - 1) (url c);
     enabled := enabled c;
     streaming_enabled := streaming_enabled c;
     width := width c;
     height := height c;
     fps := fps c;
     codec := strncpy (CODEC_SIZE - 1) (codec c);
     priority := priority c;
     record := record c;
     segment_duration := segment_duration c;
     detection_based_recording :=
       if detection then detection_based_recording c else false;
     detection_model :=
       if detection then strncpy (MAX_PATH_LENGTH - 1) (detection_model c)
       else ""%string;
     detection_threshold :=
       if detection then read_threshold (detection_threshold c)
       else default_detection_threshold;
     detection_interval := if detection then detection_interval c else 10;
     pre_detection_buffer := if detection then pre_detection_buffer c else 0;
     post_detection_buffer := if detection then post_detection_buffer c else 3;
     protocol :=
       if detection && has_protocol_column cols && (17 <? n)
       then protocol c else 0;
     is_onvif :=
       if detection && has_onvif_column cols && (18 <? n)
       then is_onvif c else false;
     record_audio :=
       if detection && has_record_audio_column cols && (19 <? n)
       then record_audio c else false |}.

(** [stream] is the caller's buffer ([None] for a null pointer); the result
    is the return value and the buffer afterwards. *)
Definition get_stream_config_by_name (db : db_handle) (cols : column_cache)
    (nm : option string) (stream : option stream_config_t)
    : Z * option stream_config_t :=
  match db, nm, stream with
  | Some d, Some nm, Some _ =>
      if negb (schema_ok d) then (-1, stream)
      else
        match select_by_name nm (streams d) with
        | Some r => (0, Some (read_row cols r))
        | None => (-1, stream)
        end
  | _, _, _ => (-1, stream)
  end.

(** [ORDER BY name]: byte-wise comparison of the names. *)
Definition name_le (r1 r2 : stream_row) : Prop :=
  String.leb (name (row_config r1)) (name (row_config r2)) = true.

#[global] Instance name_le_dec r1 r2 : Decision (name_le r1 r2).
Proof. unfold name_le. apply _. Defined.

(** [streams_ok] says that the caller's array is not null. Returns the
    count (-1 on error) and the entries written. *)
Definition get_all_stream_configs (db : db_handle) (cols : column_cache)
    (streams_ok : bool) (max_count : Z) : Z * list stream_config_t :=
  match db with
  | Some d =>
      if negb streams_ok || (max_count <=? 0) then (-1, [])
      else if negb (schema_ok d) then (-1, [])
      else
        let found :=
          read_row cols <$>
            take (Z.to_nat max_count) (merge_sort name_le (streams d)) in
        (Z.of_nat (length found), found)
  | None => (-1, [])
  end.

End Sizes.

(** [SELECT COUNT( * ) FROM streams WHERE enabled = 1], read with
    [sqlite3_column_int]. *)
Definition get_enabled_stream_count (db : db_handle) : Z :=
  match db with
  | Some d =>
      if negb (schema_ok d) then -1
      else wrap_int (Z.of_nat (length
             (List.filter (fun r => enabled (row_config r)) (streams d))))
  | None => -1
  end.

(** [SELECT COUNT( * ) FROM streams] *)
Definition count_stream_configs (db : db_handle) : Z :=
  match db with
  | Some d =>
      if negb (schema_ok d) then -1
      else wrap_int (Z.of_nat (length (streams d)))
  | None => -1
  end.

(** [UPDATE streams SET name = ?, ... WHERE name = ?]. With the [UNIQUE]
    name of the schema (see [insert_stream]) the statement fails, and changes
    nothing, when it would give the new name to a second row: a row outside
    the [WHERE] already has it, or the [WHERE] selects several rows. A
    [WHERE] that selects no row is a successful statement. *)
Definition update_stream_config (db : db_handle) (nm : option string)
    (stream : option stream_config_t) : Z * db_handle :=
  match db, nm, stream with
  | Some d, Some nm, Some stream =>
      if negb (schema_ok d) then (-1, db)
      else
        let selected r := streq (name (row_config r)) nm in
        let taken r :=
          streq (name (row_config r)) (name stream) && negb (selected r) in
        let hits := length (List.filter selected (streams d)) in
        if ((0 <? hits)%nat && List.existsb taken (streams d))
           || (1 <? hits)%nat
        then (-1, db)
        else
          (0, Some (with_streams d
                 (List.map (fun r =>
                    if selected r
                    then {| row_id := row_id r; row_config := stream |}
                    else r) (streams d))))
  | _, _, _ => (-1, db)
  end.

(** A configuration as it comes back from the table: with the threshold
    that [read_threshold] gives. *)
Definition as_stored (c : stream_config_t) : stream_config_t :=
  {| name := name c; url := url c; enabled := enabled c;
     streaming_enabled := streaming_enabled c; width := width c;
     height := height c; fps := fps c; codec := codec c;
     priority := priority c; record := record c;
     segment_duration := segment_duration c;
     detection_based_recording := detection_based_recording c;
     detection_model := detection_model c;
     detection_threshold := read_threshold (detection_threshold c);
     detection_interval := detection_interval c;
     pre_detection_buffer := pre_detection_buffer c;
     post_detection_buffer := post_detection_buffer c;
     protocol := protocol c; is_onvif := is_onvif c;
     record_audio := record_audio c |}.

(** The strings of a configuration fit the arrays of [stream_config_t]. *)
Definition fits (MAX_STREAM_NAME MAX_URL_LENGTH CODEC_SIZE MAX_PATH_LENGTH : nat)
    (c : stream_config_t) : Prop :=
  (String.length (name c) < MAX_STREAM_NAME)%nat /\
  (String.length (url c) < MAX_URL_LENGTH)%nat /\
  (String.length (codec c) < CODEC_SIZE)%nat /\
  (String.length (detection_model c) < MAX_PATH_LENGTH)%nat.

End StreamsDbQueries.

(** ** A playback request from handler to task *)

Module PlaybackRequest.

Import Playback.

(** The slots of the table in use. *)
Definition active_slots (t : list active_request) : nat :=
  length (List.filter active t).

Section Request.

Variable get_recording_metadata_by_id : Z -> option recording_metadata_t.
Variable stat : string -> bool.

(** One request served to its end: [mg_handle_play_recording], then the
    thread pool runs [playback_recording_task_function] on the task the
    handler added, if it added one. *)
Definition serve_request (res : resources) (c : mg_connection)
    (range : option string) (t : list active_request) (path_id : option Z)
    : list active_request :=
  let h := mg_handle_play_recording res c range t path_id in
  requests_after
    (playback_recording_task_function get_recording_metadata_by_id stat
       (table_after h) (scheduled h)).

(** What the client of one request gets: the status of the handler's
    [mg_send_json_error] if it sent one, else the status of the task's
    [mg_http_reply], with the file the task serves. [c] is the connection
    as the task finds it. *)
Definition request_reply (res : resources) (c : mg_connection)
    (range : option string) (t : list active_request) (path_id : option Z)
    : option Z * option (string * string) :=
  let h := mg_handle_play_recording res c range t path_id in
  match error_status h with
  | Some status => (Some status, None)
  | None =>
      let r :=
        playback_recording_task_function get_recording_metadata_by_id stat
          (table_after h) (scheduled h) in
      (reply_status r, served_file r)
  end.

(** The addressed recording does not exist: no catalog row, or the row's
    file is not on disk. *)
Definition missing (id : Z) : Prop :=
  get_recording_metadata_by_id id = None \/
  exists recording,
    get_recording_metadata_by_id id = Some recording /\
    stat (rec_file_path recording) = false.

(** The error mapping in the specification's words: a request for [id] is
    answered 404 exactly when the recording does not exist. *)
Definition not_found_exactly_when_missing (res : resources) (c : mg_connection)
    (range : option string) (t : list active_request) (id : Z) : Prop :=
  (request_reply res c range t (Some id)).1 = Some 404 <-> missing id.

(** The request passes the gates of [mg_handle_play_recording]: a non-zero
    id that is not being processed, a free slot, and the four resources. *)
Definition accepted (res : resources) (t : list active_request) (id : Z) : Prop :=
  id <> 0 /\ is_request_active t id = false /\
  (exists e, e ∈ t /\ active e = false) /\
  hm_copy_ok res = true /\ pool_ok res = true /\
  task_ok res = true /\ add_task_ok res = true.

End Request.

(** All four resources at hand. *)
Definition resources_ok : resources :=
  {| hm_copy_ok := true; pool_ok := true; task_ok := true; add_task_ok := true |}.

(** The extensions [playback_recording_task_function] knows, with their
    MIME types. *)
Definition known_extensions : list (string * string) :=
  [ (".mp4", "video/mp4"); (".webm", "video/webm");
    (".mkv", "video/x-matroska"); (".avi", "video/x-msvideo");
    (".mov", "video/quicktime") ]%string.

End PlaybackRequest.

(** ** The timeline playback handler ([mg_handle_timeline_playback]) *)

Module TimelinePlayback.

Import Timeline.

(** *** [strtol (s, &endptr, 10)] *)

(** The digit loop: value so far and the text left at [endptr]. *)
Fixpoint digits (acc : Z) (rp : list ascii) : Z * list ascii :=
  match rp with
  | c :: rp' =>
      if is_digit c then digits (acc * 10 + digit_val c) rp' else (acc, rp)
  | [] => (acc, [])
  end.

Definition sign_and_rest (rp : list ascii) : bool * list ascii :=
  match rp with
  | c :: rp' =>
      if Ascii.eqb c "-"%char then (true, rp')
      else if Ascii.eqb c "+"%char then (false, rp')
      else (false, rp)
  | [] => (false, [])
  end.

Section Strtol.

(** [LONG_MAX] of the platform; [LONG_MIN] is [- LONG_MAX - 1]. *)
Variable LONG_MAX : Z.

(** White space, an optional sign, digits; the value is clamped to the
    range of [long]. Without a digit the value is 0 and [endptr] is the
    start of the string. *)
Definition strtol (nptr : list ascii) : Z * list ascii :=
  let '(negative, rp) := sign_and_rest (skip_spaces nptr) in
  match rp with
  | c :: _ =>
      if is_digit c then
        let '(v, rest) := digits 0 rp in
        (if negative then Z.max (- v) (- LONG_MAX - 1) else Z.min v LONG_MAX,
         rest)
      else (0, nptr)
  | [] => (0, nptr)
  end.

(** [a + b] in [time_t], a [long]. C leaves signed overflow undefined; the
    sum is reduced to the range of [long], which is what the two's
    complement addition of the compiled code gives. *)
Definition time_add (a b : Z) : Z :=
  (a + b + (LONG_MAX + 1)) mod (2 * (LONG_MAX + 1)) - (LONG_MAX + 1).

End Strtol.

(** *** The segment the playback starts with *)

Fixpoint first_index {A : Type} (p : A -> bool) (l : list A) (i : nat)
    : option nat :=
  match l with
  | x :: l' => if p x then Some i else first_index p l' (S i)
  | [] => None
  end.

Definition contains (start : Z) (seg : timeline_segment_t) : bool :=
  (start_time seg <=? start) && (start <=? end_time seg).

Definition starts_after (start : Z) (seg : timeline_segment_t) : bool :=
  start <? start_time seg.

(** The three steps that compute [start_segment_index]; [None] is -1. *)
Definition start_segment_index (segments : list timeline_segment_t)
    (start : Z) : option nat :=
  match first_index (contains start) segments 0 with
  | Some i => Some i
  | None =>
      match first_index (starts_after start) segments 0 with
      | Some i => Some i
      | None => if (0 <? length segments)%nat then Some 0%nat else None
      end
  end.

(** *** The handler *)

Inductive http_response :=
| json_error (status : Z)
| redirect (location : string)
| invalid_read.   (* [segments[i]] read outside the array *)

(** The value of [start_time], or [None] when the handler answers 400
    "Invalid start time format". *)
Definition playback_start_time (LONG_MAX : Z) (tz : timezone) (now : Z)
    (start_time_str : string) : option Z :=
  if nonempty start_time_str then
    let '(v, endptr) := strtol LONG_MAX (String.list_ascii_of_string start_time_str) in
    match endptr with
    | [] => Some v
    | _ :: _ =>
        let decoded :=
          decode_colons (String.list_ascii_of_string (strncpy 63 start_time_str)) in
        match first_match decoded datetime_formats with
        | Some t => Some (mktime tz (with_isdst (-1) t))
        | None =>
            match strptime decoded fmt_date tm_zero with
            | Some t =>
                Some (mktime tz (with_isdst (-1) (with_time_of_day 0 0 0 t)))
            | None => None
            end
        end
    end
  else Some (now - 24 * 60 * 60).

Section Handler.

Variable MAX_STREAM_NAME : nat.
Variable LONG_MAX : Z.

(** [get_timeline_segments (stream, start, end, segments, 1000)]: the
    segments written, [None] for a negative count. *)
Variable get_timeline_segments : string -> Z -> Z -> option (list timeline_segment_t).

(** [stream_param] and [start_time_str] are what [mg_http_get_var] left in
    the two buffers; [malloc_ok] says whether the segment array could be
    allocated. *)
Definition mg_handle_timeline_playback (tz : timezone) (now : Z)
    (malloc_ok : bool) (stream_param start_time_str : string) : http_response :=
  let stream_name :=
    if nonempty stream_param then strncpy (MAX_STREAM_NAME - 1) stream_param
    else ""%string in
  if negb (nonempty stream_name) then json_error 400
  else
    match playback_start_time LONG_MAX tz now start_time_str with
    | None => json_error 400
    | Some start =>
        if negb malloc_ok then json_error 500
        else
          let end_time := time_add LONG_MAX start (24 * 60 * 60) in
          match get_timeline_segments stream_name start end_time with
          | None | Some [] => json_error 404
          | Some segments =>
              match start_segment_index segments start with
              | Some i =>
                  match segments !! i with
                  | Some seg =>
                      redirect
                        (strncpy 255
                           ("/api/recordings/play/"
                            ++ string_of_Z (StreamsDb.to_uint64 (seg_id seg))))
                  | None => invalid_read
                  end
              | None => invalid_read
              end
          end
    end.

End Handler.

(** The string [strstr] looks for in [decode_colons]. *)
Definition encoded_colon : list ascii := ["%"; "3"; "A"]%char.

(** [needle] occurs in [s]. *)
Fixpoint occurs (needle s : list ascii) : bool :=
  match s with
  | c :: s' =>
      bool_decide (take (length needle) s = needle) || occurs needle s'
  | [] => bool_decide (needle = [])
  end.

End TimelinePlayback.

(** * Properties *)

Lemma wrap_int_small z : in_int_range z -> wrap_int z = z.
Proof.
  unfold in_int_range, INT_MIN, INT_MAX, wrap_int.
  change (2 ^ 31) with 2147483648. change (2 ^ 32) with 4294967296.
  intros H. rewrite Z.mod_small; lia.
Qed.

Lemma streq_true a b : streq a b = true <-> a = b.
Proof. apply String.eqb_eq. Qed.

Lemma streq_refl a : streq a a = true.
Proof. apply String.eqb_refl. Qed.

Lemma nonempty_false_empty : nonempty "" = false.
Proof. reflexivity. Qed.

Module RegistryFacts.

Import Registry.

(** What [find_slot] reports for an existing entry: its writer sits in that
    slot under the stream's name, and it heads the writers referenced for
    the stream; overwriting the slot swaps exactly that head. *)
Lemma find_slot_existing local w2 ws ns k i w1 :
  find_slot local ws ns k = existing_entry i w1 ->
  exists j rest,
    i = (k + j)%nat /\
    ws !! j = Some (Some w1) /\
    writers_for local ws ns = w1 :: rest /\
    writers_for local (<[ j := Some w2 ]> ws) ns = w2 :: rest /\
    find_writer local (<[ j := Some w2 ]> ws) ns k = Some (i, w2).
Proof.
  revert ns k. induction ws as [|w ws IH]; intros [|n ns] k H; simpl in H;
    try discriminate.
  destruct w as [old|]; [|discriminate].
  destruct (nonempty n && streq n local) eqn:E.
  - injection H as <- <-. exists 0%nat, (writers_for local ws ns).
    simpl. rewrite E. repeat split; try done; try lia.
  - destruct (IH _ _ H) as (j & rest & -> & Hj & Hw & Hw' & Hf).
    exists (S j), rest. simpl. rewrite E.
    repeat split; try done; try lia.
Qed.

(** What [find_slot] reports for an empty slot: the writer there is null. *)
Lemma find_slot_empty local ws ns k i :
  find_slot local ws ns k = empty_slot i ->
  exists j, i = (k + j)%nat /\ ws !! j = Some None /\ (j < length ns)%nat.
Proof.
  revert ns k. induction ws as [|w ws IH]; intros [|n ns] k H; simpl in H;
    try discriminate.
  destruct w as [old|].
  - destruct (nonempty n && streq n local); [discriminate|].
    destruct (IH _ _ H) as (j & -> & Hj & Hlen). exists (S j).
    repeat split; try done; simpl; lia.
  - injection H as <-. exists 0%nat. repeat split; try done; simpl; lia.
Qed.

(** Storing a writer under the stream's name in a slot whose writer was null
    adds that writer to those referenced for the stream and drops none. *)
Lemma writers_for_fill_null local w ws ns j x :
  ws !! j = Some None -> (j < length ns)%nat -> nonempty local = true ->
  x ∈ writers_for local (<[ j := Some w ]> ws) (<[ j := local ]> ns) <->
  x = w \/ x ∈ writers_for local ws ns.
Proof.
  intros Hj Hlen Hne. revert ns j Hj Hlen.
  induction ws as [|y ws IH]; intros [|n ns] j Hj Hlen; simpl in *;
    try done; try lia.
  destruct j as [|j]; simpl in *.
  - injection Hj as ->. rewrite Hne, streq_refl. simpl. apply elem_of_cons.
  - specialize (IH ns j Hj ltac:(lia)).
    destruct y as [wr|]; [|exact IH].
    destruct (nonempty n && streq n local); [|exact IH].
    rewrite !elem_of_cons, IH. tauto.
Qed.

(** The buffer lookup finds nothing when no slot carries the name. *)
Lemma find_buffer_none local fbs ns k :
  Forall (fun n => nonempty n && streq n local = false) ns ->
  find_buffer local fbs ns k = None.
Proof.
  intros H. revert fbs k. induction H as [|n ns Hn _ IH]; intros [|fb fbs] k;
    try reflexivity.
  simpl. rewrite <- andb_assoc, Hn, andb_false_r. apply IH.
Qed.

(** Once the name of slot [i] is cleared, the buffer lookup finds nothing
    unless some other slot carries the stream's name. *)
Lemma find_buffer_after_clear local fbs ns i k :
  (forall j n, ns !! j = Some n -> n = local -> j = i) ->
  find_buffer local fbs (<[ i := ""%string ]> ns) k = None.
Proof.
  intros Honly. apply find_buffer_none, Forall_lookup.
  intros j n Hj. apply list_lookup_insert_Some in Hj.
  destruct Hj as [(_ & <- & _) | (Hne & Hj)]; [reflexivity|].
  destruct (streq n local) eqn:E; [|apply andb_false_r].
  apply streq_true in E. specialize (Honly _ _ Hj E). congruence.
Qed.

Section WithEnvironment.

Variable MAX_STREAM_NAME : nat.
Variable MAX_PREBUFFER_FRAMES : Z.
Variable stream_handle_t : Type.
Variable get_stream_by_name : string -> option stream_handle_t.
Variable get_stream_config : stream_handle_t -> option stream_config_t.
Variable init_frame_buffer :
  string -> Z -> list frame_buffer_t -> Z * list frame_buffer_t.
Variable flush_frame_buffer :
  nat -> mp4_writer_t -> list frame_buffer_t -> list frame_buffer_t.
Variable free_frame_buffer : nat -> list frame_buffer_t -> list frame_buffer_t.

Local Abbreviation register :=
  (register_mp4_writer_for_stream MAX_STREAM_NAME MAX_PREBUFFER_FRAMES
     stream_handle_t get_stream_by_name get_stream_config
     init_frame_buffer flush_frame_buffer).
Local Abbreviation unregister :=
  (unregister_mp4_writer_for_stream MAX_STREAM_NAME free_frame_buffer).
Local Abbreviation local_name := (local_copy MAX_STREAM_NAME).

(** With a single slot under the stream's name, unregistering clears that
    slot and never reaches [free_frame_buffer]: the name it searches the
    buffers by has just been erased. *)
Lemma unregister_single_entry_never_frees st s :
  (forall i j n m,
      mp4_writer_stream_names st !! i = Some n -> n = local_name s ->
      mp4_writer_stream_names st !! j = Some m -> m = local_name s -> i = j) ->
  calls (unregister st (Some s)) = [] /\
  frame_buffers (after (unregister st (Some s))) = frame_buffers st.
Proof.
  intros Honly. unfold unregister_mp4_writer_for_stream.
  destruct (nonempty s); [|done].
  destruct (find_writer _ _ _ _) as [[writer_idx w]|] eqn:Hf; [|done].
  rewrite find_buffer_after_clear; [done|].
  intros j n Hj Hn.
  assert (Hidx : exists m, mp4_writer_stream_names st !! writer_idx = Some m
                           /\ m = local_name s).
  { clear Honly Hj. revert Hf. generalize (mp4_writer_stream_names st) as ns.
    generalize (mp4_writers st) as ws.
    assert (G : forall ws ns k, find_writer (local_name s) ws ns k = Some (writer_idx, w) ->
              exists m, ns !! (writer_idx - k)%nat = Some m /\ m = local_name s
                        /\ (k <= writer_idx)%nat).
    { induction ws as [|x ws IH]; intros [|m ns] k H; simpl in H; try discriminate.
      destruct x as [wr|].
      - destruct (nonempty m && streq m (local_name s)) eqn:E.
        + injection H as <- <-. rewrite Nat.sub_diag. exists m.
          apply andb_true_iff in E as [_ E]. apply streq_true in E. auto.
        + destruct (IH _ _ H) as (m' & Hm' & ? & ?). exists m'.
          replace (writer_idx - k)%nat with (S (writer_idx - S k)) by lia.
          repeat split; try done. lia.
      - destruct (IH _ _ H) as (m' & Hm' & ? & ?). exists m'.
        replace (writer_idx - k)%nat with (S (writer_idx - S k)) by lia.
        repeat split; try done. lia. }
    intros ws ns H. destruct (G _ _ _ H) as (m & Hm & ? & _).
    rewrite Nat.sub_0_r in Hm. eauto. }
  destruct Hidx as (m & Hm & Hml). eapply Honly; eauto.
Qed.

(** The duplicate entry in general: when the slot loop stops at an empty
    slot, every writer the registry already references for the stream stays
    referenced and open, and the new writer is referenced beside it. *)
Lemma arm_into_empty_slot_keeps_existing_writers st s w slot old :
  find_slot (local_name s) (mp4_writers st) (mp4_writer_stream_names st) 0
    = empty_slot slot ->
  nonempty (local_name s) = true ->
  strncpy 63 (local_name s) = local_name s ->
  old ∈ registered_writers st (local_name s) ->
  let o := register st (Some s) (Some w) in
  ret o = 0 /\
  w ∈ registered_writers (after o) (local_name s) /\
  old ∈ registered_writers (after o) (local_name s) /\
  mp4_writer_close old ∉ calls o.
Proof.
  intros Hslot Hne Hshort Hold. unfold register_mp4_writer_for_stream.
  rewrite Hslot, Hshort.
  destruct (find_slot_empty _ _ _ _ _ Hslot) as (j & -> & Hj & Hlen).
  match goal with
  | |- context [let '(_, _) := ?x in _] =>
      assert (Hcalls : forall c, c ∈ snd x -> exists nm cap, c = init_frame_buffer_call nm cap);
      [|destruct x as [fbs inits]]
  end.
  { intros c. destruct (prebuffer_config _ _ _ _) as [config|]; simpl;
      [|by intros H%elem_of_nil].
    destruct (0 <? _); simpl; [|by intros H%elem_of_nil].
    intros H%list_elem_of_singleton. eauto. }
  simpl in *. unfold registered_writers in *. simpl.
  repeat split.
  - apply writers_for_fill_null; auto.
  - apply writers_for_fill_null; auto.
  - intros Hin. destruct (Hcalls _ Hin) as (nm & cap & Heq). discriminate.
Qed.

(** C3 (as amended). When the slot loop reaches the stream's entry (slot [i],
    holding [w1]) before any empty slot, arming [w2] returns 0, overwrites
    slot [i] with [w2] and leaves the names alone; the last thing the call
    does is close [w1] itself. [w2] takes the place of [w1] among the
    writers referenced for the stream, and is what a lookup now finds. *)
Theorem rearm_replaces_and_closes_old_writer st s w1 w2 i :
  find_slot (local_name s) (mp4_writers st) (mp4_writer_stream_names st) 0
    = existing_entry i w1 ->
  let o := register st (Some s) (Some w2) in
  ret o = 0 /\
  mp4_writers (after o) = <[ i := Some w2 ]> (mp4_writers st) /\
  mp4_writer_stream_names (after o) = mp4_writer_stream_names st /\
  last (calls o) = Some (mp4_writer_close w1) /\
  (exists rest,
      registered_writers st (local_name s) = w1 :: rest /\
      registered_writers (after o) (local_name s) = w2 :: rest) /\
  find_writer (local_name s) (mp4_writers (after o))
    (mp4_writer_stream_names (after o)) 0 = Some (i, w2).
Proof.
  intros Hslot. unfold register_mp4_writer_for_stream. rewrite Hslot.
  destruct (find_slot_existing _ w2 _ _ _ _ _ Hslot)
    as (j & rest & -> & _ & Hw & Hw' & Hf).
  match goal with
  | |- context [let '(_, _) := ?x in _] => destruct x as [fbs flushed]
  end.
  simpl. rewrite last_snoc. unfold registered_writers. simpl.
  repeat split; try done. exists rest. by split.
Qed.

(** C5. For a stream whose configuration is found, with a pre-detection
    buffer of [p > 0] seconds and a frame rate [f] whose product fits an
    [int]: every buffer that arming creates has capacity
    [min (p * f) MAX_PREBUFFER_FRAMES], and arming into a free slot with
    [f > 0] creates exactly one such buffer for the stream. *)
Theorem prebuffer_capacity_is_clamped_product st s w h config :
  get_stream_by_name (local_name s) = Some h ->
  get_stream_config h = Some config ->
  0 < pre_detection_buffer config ->
  in_int_range (pre_detection_buffer config * fps config) ->
  let o := register st (Some s) (Some w) in
  let product := pre_detection_buffer config * fps config in
  (forall nm cap,
      init_frame_buffer_call nm cap ∈ calls o ->
      cap = Z.min product MAX_PREBUFFER_FRAMES) /\
  (forall slot,
      find_slot (local_name s) (mp4_writers st) (mp4_writer_stream_names st) 0
        = empty_slot slot ->
      0 < fps config ->
      calls o = [init_frame_buffer_call (local_name s)
                   (Z.min product MAX_PREBUFFER_FRAMES)]).
Proof.
  intros Hh Hc Hp Hrange. unfold register_mp4_writer_for_stream, prebuffer_config.
  rewrite Hh, Hc. replace (0 <? pre_detection_buffer config) with true
    by (symmetry; apply Z.ltb_lt; exact Hp).
  unfold int_mul. rewrite (wrap_int_small _ Hrange).
  set (product := pre_detection_buffer config * fps config).
  assert (Hmin : (if product <? MAX_PREBUFFER_FRAMES then product
                  else MAX_PREBUFFER_FRAMES) = Z.min product MAX_PREBUFFER_FRAMES).
  { destruct (Z.ltb_spec product MAX_PREBUFFER_FRAMES); lia. }
  destruct (find_slot _ _ _ _) as [slot|i old|] eqn:Hslot; simpl.
  - destruct (Z.ltb_spec 0 product) as [Hpos|Hneg]; simpl; rewrite ?Hmin.
    + split.
      * intros nm cap Hin. apply list_elem_of_singleton in Hin. congruence.
      * intros slot' _ _. reflexivity.
    + split.
      * intros nm cap Hin. by apply elem_of_nil in Hin.
      * intros slot' _ Hf. subst product. nia.
  - split; [|intros slot' Hs; discriminate].
    intros nm cap Hin.
    destruct (if 0 <? product then _ else _) as [buffer_idx|]; simpl in Hin.
    + apply elem_of_cons in Hin as [Hin|Hin]; [discriminate|].
      apply list_elem_of_singleton in Hin. discriminate.
    + apply list_elem_of_singleton in Hin. discriminate.
  - split; [|intros slot' Hs; discriminate].
    intros nm cap Hin. by apply elem_of_nil in Hin.
Qed.

End WithEnvironment.

(** C1. Two streams are armed, the first is disarmed, and the second is armed
    again: the slot loop stops at the freed slot 0 before it reaches the
    stream's own entry in slot 1, so the new writer is stored beside the old
    one. The registry then holds two writers for the one stream, and the old
    one is neither replaced nor closed. *)
Theorem second_arm_after_disarm_duplicates_stream :
  let st1 := after (arm (empty_registry 16) "cam-gate" 1%positive) in
  let st2 := after (arm st1 "cam-yard" 2%positive) in
  let st3 := after (disarm st2 "cam-gate") in
  let o := arm st3 "cam-yard" 3%positive in
  registered_writers st3 "cam-yard" = [2%positive] /\
  ret o = 0 /\
  registered_writers (after o) "cam-yard" = [3%positive; 2%positive] /\
  mp4_writer_close 2%positive ∉ calls o.
Proof.
  vm_compute. repeat split; try reflexivity.
  intros H. apply list_elem_of_singleton in H. discriminate.
Qed.

(** C3 (as stated) fails: with [cam-yard] armed with writer 1, arming writer 2
    succeeds, but the call closes writer 1 itself instead of leaving it to
    the caller. *)
Lemma rearm_does_not_hand_back_old_writer :
  let st := after (arm (empty_registry 16) "cam-yard" 1%positive) in
  get_mp4_writer_for_stream 64 st (Some "cam-yard"%string) = Some 1%positive /\
  ret (arm st "cam-yard" 2%positive) = 0 /\
  ~ detached_and_returned 64 600 string Some (sample_config 5 10)
      sample_init_frame_buffer sample_flush_frame_buffer
      st "cam-yard" 1%positive 2%positive.
Proof.
  repeat split; try reflexivity.
  intros [Hclosed _]. apply Hclosed. vm_compute.
  apply elem_of_cons. right. apply list_elem_of_singleton. reflexivity.
Qed.

(** The amended C3 at work: [cam-yard] is re-armed in its own slot 0. *)
Lemma rearm_replaces_and_closes_old_writer_witness :
  let st := after (arm (empty_registry 16) "cam-yard" 1%positive) in
  last (calls (arm st "cam-yard" 2%positive)) = Some (mp4_writer_close 1%positive) /\
  registered_writers (after (arm st "cam-yard" 2%positive)) "cam-yard"
    = [2%positive].
Proof.
  pose proof (rearm_replaces_and_closes_old_writer 64 600 string Some
                (sample_config 5 10) sample_init_frame_buffer
                sample_flush_frame_buffer
                (after (arm (empty_registry 16) "cam-yard" 1%positive))
                "cam-yard" 1%positive 2%positive 0%nat eq_refl)
    as (_ & _ & _ & Hlast & _ & _).
  split; [exact Hlast | reflexivity].
Defined.

(** C5 at work: 5 seconds at 10 frames per second give a 50 frame buffer. *)
Lemma prebuffer_capacity_is_clamped_product_witness :
  calls (arm (empty_registry 16) "cam-door" 1%positive)
    = [init_frame_buffer_call "cam-door" (Z.min (5 * 10) 600)].
Proof.
  refine (proj2 (prebuffer_capacity_is_clamped_product 64 600 string Some
                   (sample_config 5 10) sample_init_frame_buffer
                   sample_flush_frame_buffer (empty_registry 16) "cam-door"
                   1%positive "cam-door"%string (camera "cam-door" true true 5 10)
                   eq_refl eq_refl _ _) 0%nat eq_refl _).
  - reflexivity.
  - unfold in_int_range, INT_MIN, INT_MAX. simpl. lia.
  - reflexivity.
Defined.

(** C4. [cam-door] is armed (slot 0) and has its pre-roll buffer (entry 0 of
    [frame_buffers], 50 frames). Disarming it empties the registry slot
    without closing the writer, but [free_frame_buffer] is never called and
    the buffer stays allocated. *)
Theorem disarm_leaves_frame_buffer_allocated :
  let st := after (arm (empty_registry 16) "cam-door" 1%positive) in
  let o := disarm st "cam-door" in
  mp4_writers st !! 0%nat = Some (Some 1%positive) /\
  frame_buffers st !! 0%nat = Some (Some 50) /\
  get_mp4_writer_for_stream 64 (after o) (Some "cam-door"%string) = None /\
  calls o = [] /\
  frame_buffers (after o) !! 0%nat = Some (Some 50).
Proof. vm_compute. repeat split; reflexivity. Qed.

End RegistryFacts.

Module StreamsDbFacts.

Import StreamsDb.

Local Abbreviation row_name := (fun r : stream_row => name (row_config r)).

Lemma key_determines_row {A B : Type} (f : A -> B) (l : list A) (x y : A) :
  NoDup (f <$> l) -> x ∈ l -> y ∈ l -> f x = f y -> x = y.
Proof.
  induction l as [|a l IH]; simpl.
  - intros _ Hx. by apply elem_of_nil in Hx.
  - intros Hnd Hx Hy Hf. apply NoDup_cons in Hnd as [Hna Hnd].
    apply elem_of_cons in Hx as [->|Hx]; apply elem_of_cons in Hy as [->|Hy];
      auto.
    + exfalso. apply Hna. rewrite Hf. by apply list_elem_of_fmap_2.
    + exfalso. apply Hna. rewrite <- Hf. by apply list_elem_of_fmap_2.
Qed.

Lemma select_by_name_elem nm rows r :
  select_by_name nm rows = Some r -> r ∈ rows /\ row_name r = nm.
Proof.
  intros H. apply List.find_some in H as [Hin Heq].
  split; [by apply list_elem_of_In | by apply streq_true in Heq].
Qed.

(** With unique names, a lookup whose condition implies the name finds the
    one row of that name as soon as the row meets the condition. *)
Lemma find_named_unique (Q : stream_row -> bool) nm rows r :
  (forall x, Q x = true -> row_name x = nm) ->
  NoDup (row_name <$> rows) ->
  r ∈ rows -> row_name r = nm -> Q r = true ->
  List.find Q rows = Some r.
Proof.
  intros HQ Hnd Hin Hnm Hr.
  destruct (List.find Q rows) as [x|] eqn:E.
  - apply List.find_some in E as [Hx Hqx]. apply list_elem_of_In in Hx.
    f_equal. apply (key_determines_row row_name rows); try done.
    rewrite (HQ _ Hqx). congruence.
  - apply List.find_none with (x := r) in E; [|by apply list_elem_of_In].
    congruence.
Qed.

Lemma select_by_name_unique nm rows r :
  NoDup (row_name <$> rows) ->
  r ∈ rows -> row_name r = nm -> select_by_name nm rows = Some r.
Proof.
  intros Hnd Hin Hnm. apply find_named_unique with (nm := nm); try done.
  - intros x. apply streq_true.
  - by apply streq_true.
Qed.

Lemma select_by_name_absent nm rows :
  (forall r, r ∈ rows -> row_name r <> nm) -> select_by_name nm rows = None.
Proof.
  intros H. destruct (select_by_name nm rows) as [r|] eqn:E; [|done].
  apply select_by_name_elem in E as [Hin Hnm]. by destruct (H r Hin).
Qed.

(** A map over the rows that keeps their names commutes with the lookup. *)
Lemma select_by_name_map (f : stream_row -> stream_row) nm rows :
  (forall r, row_name (f r) = row_name r) ->
  select_by_name nm (List.map f rows) = f <$> select_by_name nm rows.
Proof.
  intros Hf. unfold select_by_name.
  induction rows as [|x rows IH]; simpl; [done|].
  rewrite Hf. destruct (streq _ nm); [done|apply IH].
Qed.

Lemma set_all_but_name_same old new :
  name old = name new -> set_all_but_name old new = new.
Proof.
  intros H. destruct new. unfold set_all_but_name. simpl in *. by rewrite H.
Qed.

Lemma rowid_bound rows :
  Forall (fun r => 0 < row_id r < 2 ^ 63 - 1) rows ->
  0 < next_rowid rows < 2 ^ 63 /\
  forall r, r ∈ rows -> row_id r < next_rowid rows.
Proof.
  unfold next_rowid. induction 1 as [|x rows Hx _ IH]; simpl.
  - split; [lia|]. intros r Hr. by apply elem_of_nil in Hr.
  - destruct IH as [IH1 IH2]. split; [lia|].
    intros r Hr. apply elem_of_cons in Hr as [->|Hr]; [lia|].
    specialize (IH2 r Hr). lia.
Qed.

Lemma uint64_of_rowid z : 0 < z < 2 ^ 63 -> to_uint64 z = z /\ to_int64 z = z.
Proof.
  unfold to_uint64, to_int64.
  change (2 ^ 63) with 9223372036854775808.
  change (2 ^ 64) with 18446744073709551616.
  intros H. rewrite !Z.mod_small; lia.
Qed.

(** C2 (as amended). On an initialised database with the expected schema and
    a well-formed [streams] table, [add_stream_config] does one of three
    things, by the row that carries the new configuration's name:
    - a disabled row: its columns (all but the name, which is equal) take the
      new configuration's values, [enabled] included, every other row is
      untouched, and the row's id is returned;
    - no row: a row with a fresh id is appended and that id is returned;
    - an enabled row: the insert violates the uniqueness of names, 0 is
      returned and the table is unchanged. *)
Theorem add_stream_config_updates_disabled_or_inserts d c :
  schema_ok d = true ->
  table_ok (streams d) ->
  match select_by_name (name c) (streams d) with
  | Some r =>
      if enabled (row_config r) then
        add_stream_config (Some d) (Some c) = (0, Some d)
      else
        let rows := update_by_id (row_id r) c (streams d) in
        add_stream_config (Some d) (Some c)
          = (row_id r, Some (with_streams d rows)) /\
        select_by_name (name c) rows
          = Some {| row_id := row_id r; row_config := c |} /\
        (forall nm, nm <> name c ->
           select_by_name nm rows = select_by_name nm (streams d))
  | None =>
      let id := next_rowid (streams d) in
      add_stream_config (Some d) (Some c)
        = (id, Some (with_streams d
                       (streams d ++ [{| row_id := id; row_config := c |}]))) /\
      (forall r, r ∈ streams d -> row_id r <> id)
  end.
Proof.
  intros Hs (Hnames & Hids & Hrange). unfold add_stream_config. rewrite Hs. simpl.
  destruct (select_by_name (name c) (streams d)) as [r|] eqn:Hsel.
  - destruct (select_by_name_elem _ _ _ Hsel) as [Hin Hnm].
    destruct (enabled (row_config r)) eqn:Hen.
    + assert (Hnone : select_disabled_id (name c) (streams d) = None).
      { unfold select_disabled_id.
        destruct (List.find _ (streams d)) as [x|] eqn:E; [|done].
        apply List.find_some in E as [Hx Hpx]. apply list_elem_of_In in Hx.
        apply andb_true_iff in Hpx as [Hxn Hxe]. apply streq_true in Hxn.
        assert (x = r) as -> by
          (apply (key_determines_row row_name (streams d)); congruence).
        by rewrite Hen in Hxe. }
      rewrite Hnone. unfold insert_stream. by rewrite Hsel.
    + assert (Hsome : select_disabled_id (name c) (streams d) = Some (row_id r)).
      { unfold select_disabled_id.
        rewrite (find_named_unique _ (name c) (streams d) r); try done.
        - intros x Hx. apply andb_true_iff in Hx as [Hx _]. by apply streq_true.
        - apply andb_true_iff. split; [by apply streq_true|by rewrite Hen]. }
      rewrite Hsome.
      assert (Hr : 0 < row_id r < 2 ^ 63).
      { rewrite Forall_forall in Hrange. specialize (Hrange r Hin). simpl in Hrange. lia. }
      destruct (uint64_of_rowid _ Hr) as [Hu Hi]. rewrite Hu, Hi.
      assert (Hkeep : forall x : stream_row,
                 row_name (if row_id x =? row_id r
                           then {| row_id := row_id x;
                                   row_config := set_all_but_name (row_config x) c |}
                           else x) = row_name x).
      { intros x. by destruct (row_id x =? row_id r). }
      split; [done|]. split.
      * unfold update_by_id. rewrite select_by_name_map by exact Hkeep.
        rewrite Hsel. simpl. rewrite Z.eqb_refl.
        by rewrite set_all_but_name_same.
      * intros nm Hne. unfold update_by_id.
        rewrite select_by_name_map by exact Hkeep.
        destruct (select_by_name nm (streams d)) as [x|] eqn:E; [|done].
        simpl. f_equal. destruct (select_by_name_elem _ _ _ E) as [Hx Hxn].
        destruct (Z.eqb_spec (row_id x) (row_id r)) as [Heq|]; [|done].
        assert (x = r) as -> by
          (apply (key_determines_row row_id (streams d)); done).
        congruence.
  - assert (Hnone : select_disabled_id (name c) (streams d) = None).
    { unfold select_disabled_id.
      destruct (List.find _ (streams d)) as [x|] eqn:E; [|done].
      apply List.find_some in E as [Hx Hpx].
      apply andb_true_iff in Hpx as [Hxn _].
      apply List.find_none with (x := x) in Hsel; [|done]. congruence. }
    rewrite Hnone. unfold insert_stream. rewrite Hsel.
    destruct (rowid_bound _ Hrange) as [Hb Hlt].
    destruct (uint64_of_rowid _ Hb) as [Hu _]. rewrite Hu.
    split; [done|]. intros r Hr. specialize (Hlt r Hr). lia.
Qed.

(** C10. For a database whose stream names are unique: the answer is 1
    exactly when the statement can be prepared and a row of that name exists
    with [enabled] and [streaming_enabled] both set; it is 0 when no row has
    that name; and it is -1 exactly when there is no database handle or the
    statement cannot be prepared. *)
Theorem eligible_iff_enabled_and_streaming db nm :
  (forall d, db = Some d -> NoDup (row_name <$> streams d)) ->
  let result := is_stream_eligible_for_live_streaming db (Some nm) in
  (result = 1 <->
   exists d r,
     db = Some d /\ schema_ok d = true /\ r ∈ streams d /\
     name (row_config r) = nm /\
     enabled (row_config r) = true /\
     streaming_enabled (row_config r) = true) /\
  (forall d,
     db = Some d -> schema_ok d = true ->
     (forall r, r ∈ streams d -> name (row_config r) <> nm) ->
     result = 0) /\
  (result = -1 <-> db = None \/ exists d, db = Some d /\ schema_ok d = false).
Proof.
  intros Hnd. destruct db as [d|]; simpl.
  2: { split; [|split].
       - split; [discriminate|]. by intros (d & r & Hd & _).
       - by intros d Hd.
       - split; auto. }
  specialize (Hnd d eq_refl).
  destruct (schema_ok d) eqn:Hs; simpl.
  2: { split; [|split].
       - split; [discriminate|]. intros (d' & r & Hd & Hs' & _).
         injection Hd as <-. congruence.
       - intros d' Hd Hs'. injection Hd as <-. congruence.
       - split; [|done]. intros _. right. by exists d. }
  destruct (select_by_name nm (streams d)) as [r|] eqn:Hsel.
  - destruct (select_by_name_elem _ _ _ Hsel) as [Hin Hnm].
    split; [|split].
    + split.
      * intros H. exists d, r.
        destruct (enabled (row_config r)), (streaming_enabled (row_config r));
          simpl in H; try discriminate. done.
      * intros (d' & x & Hd & _ & Hx & Hxn & He & Hse). injection Hd as <-.
        assert (x = r) as -> by
          (apply (key_determines_row row_name (streams d)); congruence).
        by rewrite He, Hse.
    + intros d' Hd _ Habs. injection Hd as <-. by destruct (Habs r Hin).
    + split.
      * by destruct (enabled (row_config r) && streaming_enabled (row_config r)).
      * intros [Hd|(d' & Hd & Hs')]; [discriminate|].
        injection Hd as <-. congruence.
  - split; [|split].
    + split; [discriminate|].
      intros (d' & x & Hd & _ & Hx & Hxn & _). injection Hd as <-.
      rewrite (select_by_name_unique nm (streams d) x) in Hsel; done.
    + done.
    + split; [discriminate|].
      intros [Hd|(d' & Hd & Hs')]; [discriminate|].
      injection Hd as <-. congruence.
Qed.

Lemma one_camera_table_ok on live : table_ok (streams (one_camera on live)).
Proof.
  repeat split; try apply NoDup_singleton.
  apply Forall_singleton. simpl. change (2 ^ 63) with 9223372036854775808. lia.
Qed.

(** C2 (as stated) fails: [cam-front] is in the table and enabled; adding a
    configuration of that name returns 0 and changes nothing, where the
    claim has the row replaced and its id returned. *)
Lemma upsert_fails_on_enabled_row :
  add_stream_config (one_camera_db true true)
      (Some (camera "cam-front" true false 0 25))
    = (0, one_camera_db true true) /\
  ~ upsert_replaces_existing (one_camera_db true true)
      (camera "cam-front" true false 0 25).
Proof.
  split; [reflexivity|].
  intros H. destruct (H _ _ eq_refl eq_refl) as (d' & Hadd & _).
  discriminate Hadd.
Qed.

(** The amended C2 at work: the disabled [cam-front] is updated in place and
    comes back enabled under its old id 1. *)
Lemma add_stream_config_updates_disabled_or_inserts_witness :
  add_stream_config (one_camera_db false true)
      (Some (camera "cam-front" true false 0 25))
    = (1, Some {| streams := [{| row_id := 1;
                                 row_config := camera "cam-front" true false 0 25 |}];
                  schema_ok := true |}).
Proof.
  exact (proj1 (add_stream_config_updates_disabled_or_inserts
                  (one_camera false true) (camera "cam-front" true false 0 25)
                  eq_refl (one_camera_table_ok false true))).
Defined.

(** C10 at work: [cam-front], enabled with streaming enabled, is eligible. *)
Lemma eligible_iff_enabled_and_streaming_witness :
  is_stream_eligible_for_live_streaming (one_camera_db true true)
    (Some "cam-front"%string) = 1.
Proof.
  refine (proj2 (proj1 (eligible_iff_enabled_and_streaming
                          (one_camera_db true true) "cam-front" _)) _).
  - intros d Hd. injection Hd as <-. apply NoDup_singleton.
  - exists (one_camera true true),
      {| row_id := 1; row_config := camera "cam-front" true true 5 10 |}.
    repeat split. apply list_elem_of_singleton. reflexivity.
Defined.

End StreamsDbFacts.

Module TimelineFacts.

Import Timeline.

(** A [double] keeps an integer of fewer than 54 bits as it is. *)
Lemma round_double_exact z : Z.abs z < 2 ^ 53 -> round_double z = z.
Proof.
  intros H. unfold round_double, DBL_MANT_DIG.
  destruct (Z.leb_spec (Z.log2 (Z.abs z) + 1 - 53) 0) as [_|Hdrop]; [done|].
  exfalso. destruct (Z.eq_dec (Z.abs z) 0) as [E|N].
  - rewrite E in Hdrop. simpl in Hdrop. lia.
  - assert (Hlt : Z.log2 (Z.abs z) < 53) by (apply Z.log2_lt_pow2; lia). lia.
Qed.

(** An integer of 54 bits or more stays one when it is rounded. *)
Lemma round_double_large z : 2 ^ 53 <= Z.abs z -> 2 ^ 53 <= Z.abs (round_double z).
Proof.
  intros H. unfold round_double, DBL_MANT_DIG.
  assert (Hlog : 53 <= Z.log2 (Z.abs z)) by (apply Z.log2_le_pow2; lia).
  destruct (Z.leb_spec (Z.log2 (Z.abs z) + 1 - 53) 0) as [Hdrop|Hdrop]; [lia|].
  set (m := Z.abs z) in *. set (drop := Z.log2 m + 1 - 53) in *.
  set (q := Z.shiftr m drop).
  assert (Hq : 2 ^ 52 <= q).
  { unfold q. rewrite Z.shiftr_div_pow2 by lia.
    destruct (Z.log2_spec m ltac:(lia)) as [Hlow _].
    replace (Z.log2 m) with (52 + drop) in Hlow by (unfold drop; lia).
    rewrite Z.pow_add_r in Hlow by lia.
    apply Z.div_le_lower_bound; [apply Z.pow_pos_nonneg; lia|lia]. }
  set (q' := if _ || _ then q + 1 else q).
  assert (Hq' : 2 ^ 52 <= q') by (unfold q'; destruct (_ || _); lia).
  clearbody q'.
  rewrite Z.shiftl_mul_pow2 by lia.
  assert (Hpow : 2 <= 2 ^ drop).
  { change 2 with (2 ^ 1) at 1. apply Z.pow_le_mono_r; lia. }
  assert (Hz : Z.abs (Z.sgn z) = 1) by (subst m; lia).
  rewrite Z.abs_mul, Hz. rewrite Z.abs_eq by nia.
  change (2 ^ 53) with (2 ^ 52 * 2). nia.
Qed.

(** Rounding keeps the sign. *)
Lemma round_double_nonpos z : z <= 0 -> round_double z <= 0.
Proof.
  intros H. unfold round_double.
  destruct (Z.log2 (Z.abs z) + 1 - DBL_MANT_DIG <=? 0); [done|].
  set (drop := Z.log2 (Z.abs z) + 1 - DBL_MANT_DIG).
  set (q := Z.shiftr (Z.abs z) drop).
  assert (Hq : 0 <= q) by (apply Z.shiftr_nonneg; lia).
  match goal with
  | |- Z.sgn z * Z.shiftl ?q' drop <= 0 =>
      assert (Hq' : 0 <= Z.shiftl q' drop)
        by (apply Z.shiftl_nonneg; destruct (_ || _); lia)
  end.
  nia.
Qed.

(** The duration of a segment shorter than [INT_MAX] seconds, as a
    [double]: the exact difference, or for a segment that ends more than
    2^53 seconds before it starts some value that is not positive. *)
Lemma difftime_small e s :
  e - s < INT_MAX ->
  difftime e s = e - s \/ (e - s < 0 /\ difftime e s <= 0).
Proof.
  intros H. unfold difftime, INT_MAX in *.
  destruct (Z.lt_ge_cases (- 2 ^ 53) (e - s)) as [Hlo|Hlo].
  - left. apply round_double_exact. lia.
  - right. split; [lia|]. apply round_double_nonpos. lia.
Qed.

(** [max_duration] is never negative and bounds every listed duration. *)
Lemma max_duration_bounds segments :
  0 <= max_duration segments /\
  forall seg, seg ∈ segments ->
    difftime (end_time seg) (start_time seg) <= max_duration segments.
Proof.
  unfold max_duration.
  assert (G : forall acc,
             acc <= List.fold_left
                      (fun acc seg =>
                         let duration := difftime (end_time seg) (start_time seg) in
                         if acc <? duration then duration else acc) segments acc /\
             forall seg, seg ∈ segments ->
               difftime (end_time seg) (start_time seg)
               <= List.fold_left
                    (fun acc seg =>
                       let duration := difftime (end_time seg) (start_time seg) in
                       if acc <? duration then duration else acc) segments acc).
  { induction segments as [|s segments IH]; intros acc; cbv zeta in *; simpl.
    - split; [lia|]. intros seg H. by apply elem_of_nil in H.
    - set (d := difftime (end_time s) (start_time s)).
      destruct (Z.ltb_spec acc d) as [Hlt|Hge].
      + destruct (IH d) as [IH1 IH2].
        split; [lia|]. intros seg H.
        apply elem_of_cons in H as [->|H]; auto.
      + destruct (IH acc) as [IH1 IH2].
        split; [lia|]. intros seg H.
        apply elem_of_cons in H as [->|H]; auto. fold d. lia. }
  apply G.
Qed.

Lemma longest_from_attained segments acc :
  let step := fun (acc : Z) (seg : timeline_segment_t) =>
                let duration := difftime (end_time seg) (start_time seg) in
                if acc <? duration then duration else acc in
  List.fold_left step segments acc = acc \/
  exists seg, seg ∈ segments /\
              List.fold_left step segments acc
              = difftime (end_time seg) (start_time seg).
Proof.
  intros step. revert acc.
  induction segments as [|s segments IH]; intros acc; simpl; [by left|].
  unfold step at 2 4. cbv zeta.
  destruct (acc <? difftime (end_time s) (start_time s)).
  - destruct (IH (difftime (end_time s) (start_time s))) as [E|(x & Hx & E)].
    + right. exists s. split; [by left|exact E].
    + right. exists x. split; [by right|exact E].
  - destruct (IH acc) as [E|(x & Hx & E)]; [by left|].
    right. exists x. split; [by right|exact E].
Qed.

(** [max_duration] is 0 or the duration of one of the segments. *)
Lemma max_duration_attained segments :
  max_duration segments = 0 \/
  exists seg, seg ∈ segments /\
              max_duration segments = difftime (end_time seg) (start_time seg).
Proof. apply longest_from_attained. Qed.

(** Below [INT_MAX] the cast and the addition are defined. *)
Lemma target_duration_defined d :
  0 <= d < INT_MAX -> target_duration d = Some (d + 1).
Proof.
  intros H. unfold target_duration, int_of_double, int_add, INT_MAX, INT_MIN in *.
  rewrite !(proj2 (Z.leb_le _ _)) by lia. simpl.
  by rewrite !(proj2 (Z.leb_le _ _)) by lia.
Qed.

Lemma target_duration_undefined d :
  INT_MAX <= d -> target_duration d = None.
Proof.
  intros H. unfold target_duration, int_of_double, int_add, INT_MAX, INT_MIN in *.
  destruct (Z.leb_spec d 2147483647) as [Hle|Hgt].
  - assert (d = 2147483647) as -> by lia. reflexivity.
  - by rewrite andb_false_r.
Qed.

(** The longest of the listed durations, with exact differences, when each
    is below [INT_MAX]. *)
Lemma max_duration_exact segments :
  Forall (fun seg => end_time seg - start_time seg < INT_MAX) segments ->
  0 <= max_duration segments < INT_MAX /\
  Forall (fun seg => end_time seg - start_time seg <= max_duration segments)
    segments /\
  (max_duration segments = 0 \/
   exists seg, seg ∈ segments /\
               max_duration segments = end_time seg - start_time seg).
Proof.
  intros Hshort. rewrite Forall_forall in Hshort.
  destruct (max_duration_bounds segments) as [Hnonneg Hbound].
  assert (Hattained :
    max_duration segments = 0 \/
    exists seg, seg ∈ segments /\
                max_duration segments = end_time seg - start_time seg).
  { destruct (max_duration_attained segments) as [E|(seg & Hin & E)]; [by left|].
    destruct (difftime_small _ _ (Hshort seg Hin)) as [Hex|[_ Hneg]].
    - right. exists seg. split; [done|]. by rewrite E.
    - left. lia. }
  split; [|split; [|exact Hattained]].
  - split; [done|]. destruct Hattained as [->|(seg & Hin & ->)]; [done|].
    by apply Hshort.
  - apply Forall_forall. intros seg Hin. specialize (Hbound seg Hin).
    destruct (difftime_small _ _ (Hshort seg Hin)) as [Hex|[Hneg _]]; lia.
Qed.

(** The call with a segment array, a buffer and a manifest file at hand,
    and a longest duration below [INT_MAX]. *)
Lemma create_timeline_manifest_created
    MAX_PATH_LENGTH storage_path now first rest start :
  let listed := take MAX_MANIFEST_SEGMENTS (first :: rest) in
  0 <= max_duration listed < INT_MAX ->
  create_timeline_manifest MAX_PATH_LENGTH storage_path now true
    (Some (first :: rest)) start true
  = manifest_created
      (snprintf_path MAX_PATH_LENGTH
         (manifest_filename MAX_PATH_LENGTH storage_path now first start))
      (manifest_lines (max_duration listed + 1) (max_duration listed) first start).
Proof.
  intros listed H. unfold create_timeline_manifest.
  cbv beta iota zeta delta [negb]. fold listed.
  by rewrite (target_duration_defined _ H).
Qed.

(** C6 (as amended). For a non-empty segment list, a manifest buffer and a
    manifest file that can be created, when every segment among the first
    [MAX_MANIFEST_SEGMENTS] is shorter than [INT_MAX] seconds: the playlist
    is the HLS header, a target duration of [longest + 1], and a single
    entry for the whole timeline, one [#EXTINF] of [longest] and one URI
    that names the stream of the first segment and the requested start
    time. [longest] is the greatest [end_time - start_time] among those
    segments, or 0 when none of them is positive. *)
Theorem manifest_is_single_entry_playlist
    MAX_PATH_LENGTH storage_path now first rest start :
  let segments := first :: rest in
  let listed := take MAX_MANIFEST_SEGMENTS segments in
  Forall (fun seg => end_time seg - start_time seg < INT_MAX) listed ->
  exists path lines longest,
    create_timeline_manifest MAX_PATH_LENGTH storage_path now true
      (Some segments) start true = manifest_created path lines /\
    0 <= longest /\
    Forall (fun seg => end_time seg - start_time seg <= longest) listed /\
    (longest = 0 \/
     exists seg, seg ∈ listed /\ longest = end_time seg - start_time seg) /\
    lines = [ "#EXTM3U";
              "#EXT-X-VERSION:3";
              "#EXT-X-MEDIA-SEQUENCE:0";
              "#EXT-X-ALLOW-CACHE:YES";
              "#EXT-X-TARGETDURATION:" ++ string_of_Z (longest + 1);
              "#EXTINF:" ++ string_of_double longest ++ ",";
              "/api/timeline/play?stream=" ++ stream_name first ++ "&start="
                ++ string_of_Z start;
              "#EXT-X-ENDLIST" ]%string /\
    segment_descriptors lines
      = [ ("#EXTINF:" ++ string_of_double longest ++ ",")%string ].
Proof.
  intros segments listed Hshort.
  destruct (max_duration_exact listed Hshort) as (Hrange & Hbound & Hattained).
  eexists _, _, (max_duration listed).
  split; [by apply create_timeline_manifest_created|].
  split; [lia|]. split; [exact Hbound|]. split; [exact Hattained|].
  split; [reflexivity|].
  unfold manifest_lines. fold segments. fold listed.
  generalize (string_of_Z (max_duration listed + 1)) as target.
  generalize (string_of_double (max_duration listed)) as extinf.
  generalize (string_of_Z start) as from. generalize (stream_name first) as nm.
  reflexivity.
Qed.

(** C6 (as stated) fails: two segments in the range yield a playlist with one
    segment descriptor, not two. *)
Lemma two_segments_one_descriptor :
  exists path lines,
    create_timeline_manifest 4096 "/var/lib/lightnvr" 1700000000 true
      (Some [segment 1 100 160; segment 2 160 230]) 100 true
      = manifest_created path lines /\
    ~ one_descriptor_per_segment [segment 1 100 160; segment 2 160 230] lines.
Proof.
  eexists _, _. split; [reflexivity|].
  unfold one_descriptor_per_segment. vm_compute. discriminate.
Qed.

(** The amended C6 at work: a finished segment and one in progress (end
    time 0) give a playlist with one entry. *)
Lemma manifest_is_single_entry_playlist_witness :
  exists path lines,
    create_timeline_manifest 4096 "/var/lib/lightnvr" 1700000000 true
      (Some [segment 1 100 160; segment 2 160 0]) 100 true
      = manifest_created path lines /\
    length (segment_descriptors lines) = 1%nat.
Proof.
  assert (Hshort :
    Forall (fun seg => end_time seg - start_time seg < INT_MAX)
      (take MAX_MANIFEST_SEGMENTS [segment 1 100 160; segment 2 160 0])).
  { repeat (constructor; [reflexivity|]). constructor. }
  destruct (manifest_is_single_entry_playlist 4096 "/var/lib/lightnvr"
              1700000000 (segment 1 100 160) [segment 2 160 0] 100 Hshort)
    as (path & lines & longest & Hcreated & _ & _ & _ & _ & Hone).
  exists path, lines. split; [exact Hcreated|]. by rewrite Hone.
Defined.

(** C7 (as amended). A non-empty time parameter that the handler's first
    format [%Y-%m-%dT%H:%M:%S] accepts as the broken-down time [t] becomes
    [mktime] of [t]: the epoch second at which the server's local wall clock
    shows [t], that is the UTC reading of [t] minus the zone's offset. It is
    the UTC reading when that offset is zero. *)
Theorem time_parameter_is_server_local_time tz now time_str t :
  nonempty time_str = true ->
  strptime (decode_colons (String.list_ascii_of_string (strncpy 63 time_str)))
    fmt_datetime tm_zero = Some t ->
  query_start_time tz now time_str = timegm t - gmtoff tz (timegm t) /\
  query_end_time tz now time_str = timegm t - gmtoff tz (timegm t) /\
  (gmtoff tz (timegm t) = 0 -> query_start_time tz now time_str = timegm t).
Proof.
  intros Hne Hparse.
  assert (H : forall h m s,
             parse_time_string tz h m s time_str = timegm t - gmtoff tz (timegm t)).
  { intros h m s. unfold parse_time_string, datetime_formats, first_match.
    rewrite Hparse. reflexivity. }
  unfold query_start_time, query_end_time. rewrite Hne, !H.
  repeat split. intros Hutc. lia.
Qed.

(** C7 (as stated) fails: on a server one hour east of UTC, noon of
    2024-03-01 is converted to 11:00 UTC. *)
Lemma time_parameter_depends_on_zone :
  query_start_time (fixed_zone 3600) 0 "2024-03-01T12:00:00" = 1709290800 /\
  query_start_time utc 0 "2024-03-01T12:00:00" = 1709294400 /\
  ~ read_as_utc (fixed_zone 3600) "2024-03-01T12:00:00".
Proof.
  repeat split; try reflexivity.
  intros H. destruct (H 0 _ eq_refl) as [Hstart _]. vm_compute in Hstart.
  discriminate Hstart.
Qed.

(** The amended C7 at work, with the colons still URL-encoded. *)
Lemma time_parameter_is_server_local_time_witness :
  query_start_time (fixed_zone 3600) 0 "2024-03-01T12%3A00%3A00"
    = 1709294400 - 3600.
Proof.
  exact (proj1 (time_parameter_is_server_local_time (fixed_zone 3600) 0
                  "2024-03-01T12%3A00%3A00"
                  {| tm_year := 124; tm_mon := 2; tm_mday := 1; tm_hour := 12;
                     tm_min := 0; tm_sec := 0; tm_isdst := 0 |}
                  eq_refl eq_refl)).
Defined.

End TimelineFacts.

Module PlaybackFacts.

Import Playback.
Import PlaybackRequest.

Create HintDb requests.

(** Case analysis on which of the handler's resources are available. *)
Ltac resource_cases res :=
  destruct (hm_copy_ok res), (pool_ok res), (task_ok res), (add_task_ok res).

Lemma is_request_active_entries t id :
  is_request_active t id = negb (active_entries t id =? 0)%nat.
Proof.
  unfold active_entries. induction t as [|e t IH]; simpl; [done|].
  destruct (matches id e); simpl; [done|exact IH].
Qed.

Lemma not_active_no_entries t id :
  is_request_active t id = false <-> active_entries t id = 0%nat.
Proof.
  rewrite is_request_active_entries, negb_false_iff. apply Nat.eqb_eq.
Qed.

Lemma inactive_table_no_entries t id :
  Forall (fun e => active e = false) t -> active_entries t id = 0%nat.
Proof.
  unfold active_entries, matches. induction 1 as [|e t He _ IH]; simpl; [done|].
  by rewrite He, andb_false_r.
Qed.

Lemma find_free_slot_lookup t k i :
  find_free_slot t k = Some i ->
  exists j e, i = (k + j)%nat /\ t !! j = Some e /\ active e = false.
Proof.
  revert k. induction t as [|e t IH]; intros k H; simpl in H; [done|].
  destruct (active e) eqn:E.
  - destruct (IH _ H) as (j & e' & -> & Hj & He'). exists (S j), e'.
    repeat split; try done; lia.
  - injection H as <-. exists 0%nat, e. repeat split; try done; lia.
Qed.

(** No slot is free exactly when every entry is active. *)
Lemma find_free_slot_none t k :
  find_free_slot t k = None <-> Forall (fun e => active e = true) t.
Proof.
  revert k. induction t as [|e t IH]; intros k; simpl.
  - split; [constructor|done].
  - destruct (active e) eqn:E.
    + rewrite IH. split; [by constructor|by intros [_ ?]%Forall_cons].
    + split; [done|]. intros [? _]%Forall_cons. congruence.
Qed.

(** Writing an active entry for [id] over an inactive slot adds one entry
    for [id] and none for any other id. *)
Lemma active_entries_insert t j e id id' :
  t !! j = Some e -> active e = false ->
  active_entries (<[ j := {| req_id := id; active := true |} ]> t) id'
    = (active_entries t id' + if (id =? id')%Z then 1 else 0)%nat.
Proof.
  unfold active_entries. revert j. induction t as [|x t IH]; intros j Hj He; [done|].
  destruct j as [|j]; simpl in *.
  - injection Hj as ->.
    assert (matches id' e = false) as -> by
      (unfold matches; by rewrite He, andb_false_r).
    assert (matches id' {| req_id := id; active := true |} = (id =? id')) as ->
      by (unfold matches; simpl; apply andb_true_r).
    destruct (id =? id'); simpl; lia.
  - specialize (IH j Hj He). destruct (matches id' x); simpl; lia.
Qed.

Lemma active_entries_inactive_same t id :
  active_entries (mark_request_inactive t id) id = pred (active_entries t id).
Proof.
  unfold active_entries. induction t as [|e t IH]; simpl; [done|].
  destruct (matches id e) eqn:E; simpl.
  - unfold matches at 1. simpl. by rewrite andb_false_r.
  - by rewrite E.
Qed.

Lemma active_entries_inactive_other t id id' :
  id' <> id ->
  active_entries (mark_request_inactive t id) id' = active_entries t id'.
Proof.
  intros Hne. unfold active_entries. induction t as [|e t IH]; simpl; [done|].
  destruct (matches id e) eqn:E; simpl.
  - unfold matches in *. simpl. rewrite andb_false_r.
    apply andb_true_iff in E as [E _]. apply Z.eqb_eq in E.
    destruct (Z.eqb_spec (req_id e) id'); [congruence|done].
  - destruct (matches id' e); simpl; by rewrite IH.
Qed.

Lemma init_deduplicated : deduplicated init_active_requests.
Proof.
  intros id. rewrite inactive_table_no_entries; [lia|].
  by apply Forall_replicate.
Qed.

Lemma mark_request_active_deduplicated t id :
  deduplicated t -> deduplicated (snd (mark_request_active t id)).
Proof.
  intros Hd. unfold mark_request_active.
  destruct (is_request_active t id) eqn:Ha; [exact Hd|].
  destruct (find_free_slot t 0) as [i|] eqn:Hf; [|exact Hd].
  destruct (find_free_slot_lookup _ _ _ Hf) as (j & e & -> & Hj & He).
  intros id'. simpl. rewrite (active_entries_insert _ _ _ _ _ Hj He).
  destruct (Z.eqb_spec id id') as [<-|Hne].
  - apply not_active_no_entries in Ha. lia.
  - specialize (Hd id'). lia.
Qed.

Lemma mark_request_inactive_deduplicated t id :
  deduplicated t -> deduplicated (mark_request_inactive t id).
Proof.
  intros Hd id'. destruct (Z.eq_dec id' id) as [->|Hne].
  - rewrite active_entries_inactive_same. specialize (Hd id). lia.
  - rewrite active_entries_inactive_other by done. apply Hd.
Qed.

#[local] Hint Resolve init_deduplicated mark_request_active_deduplicated
  mark_request_inactive_deduplicated : requests.

Lemma reachable_deduplicated t : reachable t -> deduplicated t.
Proof. induction 1; auto with requests. Qed.

(** In a deduplicated table, marking an id inactive leaves it inactive. *)
Lemma inactive_after_mark t id :
  deduplicated t -> is_request_active (mark_request_inactive t id) id = false.
Proof.
  intros Hd. apply not_active_no_entries.
  rewrite active_entries_inactive_same. specialize (Hd id). lia.
Qed.

(** A successful [mark_request_active] leaves the id active. *)
Lemma active_after_mark t id t' :
  mark_request_active t id = (true, t') -> is_request_active t' id = true.
Proof.
  unfold mark_request_active. destruct (is_request_active t id) eqn:Ha; [done|].
  destruct (find_free_slot t 0) as [i|] eqn:Hf; [|done].
  intros H. injection H as <-.
  destruct (find_free_slot_lookup _ _ _ Hf) as (j & e & -> & Hj & He).
  rewrite is_request_active_entries. simpl.
  rewrite (active_entries_insert _ _ _ _ _ Hj He), Z.eqb_refl.
  apply negb_true_iff, Nat.eqb_neq. lia.
Qed.

Lemma failed_mark_keeps_table t id t' :
  mark_request_active t id = (false, t') -> t' = t.
Proof.
  unfold mark_request_active. destruct (is_request_active t id); [congruence|].
  destruct (find_free_slot t 0); [discriminate|congruence].
Qed.

(** The tables the handler and the task leave behind are reachable. *)
Lemma handler_reachable res c range t path_id :
  reachable t ->
  reachable (table_after (mg_handle_play_recording res c range t path_id)).
Proof.
  intros Hr. unfold mg_handle_play_recording.
  destruct path_id as [id|]; [|done].
  destruct (id =? 0); [done|]. destruct (is_request_active t id); [done|].
  pose proof (reach_active t id Hr) as Hr1.
  destruct (mark_request_active t id) as [marked t1]. simpl in Hr1.
  pose proof (reach_inactive t1 id Hr1).
  destruct marked; resource_cases res; done.
Qed.

Lemma task_reachable get stat t task :
  reachable t ->
  reachable (requests_after (playback_recording_task_function get stat t task)).
Proof.
  intros Hr. unfold playback_recording_task_function.
  destruct task as [task|]; [|done].
  pose proof (reach_inactive t (task_id task) Hr).
  destruct (connection task) as [c|]; [|done].
  destruct (is_closing c); [done|].
  destruct (get (task_id task)) as [recording|]; [|done].
  by destruct (stat (rec_file_path recording)).
Qed.

(** C8. In every table the mutators can produce, no id has two active
    entries. While [id] is active, [mark_request_active] returns false and
    changes nothing, and the handler answers 429 with no task scheduled.
    Whatever the serving task does (closing connection, missing row, missing
    file, file served), [id] is inactive when it ends. The handler itself,
    entered with [id] inactive, either schedules the task with [id] marked
    active, or schedules nothing and leaves [id] inactive. *)
Theorem playback_requests_deduplicated t id :
  reachable t ->
  deduplicated t /\
  (is_request_active t id = true ->
   mark_request_active t id = (false, t) /\
   (id <> 0 ->
    forall res c range,
      mg_handle_play_recording res c range t (Some id) = reject 429 t)) /\
  (forall get stat task,
     task_id task = id ->
     is_request_active
       (requests_after (playback_recording_task_function get stat t (Some task)))
       id = false) /\
  (forall res c range,
     is_request_active t id = false ->
     let h := mg_handle_play_recording res c range t (Some id) in
     match scheduled h with
     | Some task =>
         task_id task = id /\ is_request_active (table_after h) id = true
     | None => is_request_active (table_after h) id = false
     end).
Proof.
  intros Hr. pose proof (reachable_deduplicated t Hr) as Hd.
  split; [exact Hd|]. split; [|split].
  - intros Ha. split.
    + unfold mark_request_active. by rewrite Ha.
    + intros Hid res c range. unfold mg_handle_play_recording.
      destruct (Z.eqb_spec id 0); [done|]. by rewrite Ha.
  - intros get stat task <-. unfold playback_recording_task_function.
    pose proof (inactive_after_mark t (task_id task) Hd).
    destruct (connection task) as [c|]; [|done].
    destruct (is_closing c); [done|].
    destruct (get (task_id task)) as [recording|]; [|done].
    by destruct (stat (rec_file_path recording)).
  - intros res c range Ha. unfold mg_handle_play_recording.
    destruct (id =? 0); [done|]. rewrite Ha.
    pose proof (mark_request_active_deduplicated t id Hd) as Hd1.
    destruct (mark_request_active t id) as [marked t1] eqn:Hm. simpl in Hd1.
    pose proof (inactive_after_mark t1 id Hd1).
    destruct marked; simpl.
    + pose proof (active_after_mark _ _ _ Hm).
      resource_cases res; done.
    + by rewrite (failed_mark_keeps_table _ _ _ Hm).
Qed.

(** C8 at work: with recording 7 active, a second mark is refused. *)
Lemma playback_requests_deduplicated_witness :
  let t := snd (mark_request_active init_active_requests 7) in
  is_request_active t 7 = true /\ mark_request_active t 7 = (false, t).
Proof.
  split; [reflexivity|].
  refine (proj1 (proj1 (proj2 (playback_requests_deduplicated
                                 (snd (mark_request_active init_active_requests 7))
                                 7 _)) eq_refl)).
  apply reach_active, reach_init.
Defined.

(** For a task whose connection is live, the reply is 404 exactly when
    the catalog lookup finds no row for the id or the row's file is not on
    disk; then no file is served. In the other case the row's file is
    served. *)
Lemma task_not_found_iff_missing get stat t task c :
  connection task = Some c ->
  is_closing c = false ->
  let r := playback_recording_task_function get stat t (Some task) in
  (reply_status r = Some 404 <-> missing get stat (task_id task)) /\
  (missing get stat (task_id task) -> served_file r = None) /\
  (~ missing get stat (task_id task) ->
   exists recording,
     get (task_id task) = Some recording /\
     reply_status r = None /\
     served_file r = Some (rec_file_path recording,
                           content_type (rec_file_path recording))).
Proof.
  intros Hc Hopen. unfold playback_recording_task_function, missing.
  rewrite Hc, Hopen.
  destruct (get (task_id task)) as [recording|] eqn:Hg.
  - destruct (stat (rec_file_path recording)) eqn:Hs; simpl.
    + assert (Hthere : ~ (Some recording = None \/
                          exists x, Some recording = Some x /\
                                    stat (rec_file_path x) = false)).
      { intros [H|(x & [= <-] & Hsx)]; congruence. }
      split; [|split].
      * split; [done|]. intros H. by destruct Hthere.
      * intros H. by destruct Hthere.
      * intros _. by exists recording.
    + assert (Hgone : Some recording = None \/
                      exists x, Some recording = Some x /\
                                stat (rec_file_path x) = false).
      { right. by exists recording. }
      split; [|split]; [done|done|]. intros H. by destruct H.
  - simpl. split; [|split].
    + split; auto.
    + done.
    + intros H. destruct H. by left.
Qed.

(** The two outcomes of [mg_handle_play_recording]: an accepted request
    gets a task for its id and no error; any other gets one of the four
    error statuses and no task. *)
Lemma handler_outcome res c range t path_id :
  let h := mg_handle_play_recording res c range t path_id in
  (exists id,
     path_id = Some id /\ accepted res t id /\ error_status h = None /\
     scheduled h = Some {| connection := Some c; task_id := id;
                           range_header := range |}) \/
  ((forall id, path_id = Some id -> ~ accepted res t id) /\
   scheduled h = None /\
   exists status,
     error_status h = Some status /\
     (status = 400 \/ status = 429 \/ status = 503 \/ status = 500)).
Proof.
  unfold mg_handle_play_recording, accepted.
  destruct path_id as [id|]; [|right; split; [done|]; split; [done|]; eauto].
  destruct (Z.eqb_spec id 0) as [->|Hid].
  { right. split; [by intros ? [= <-] [? _]|]. split; [done|]. eauto. }
  destruct (is_request_active t id) eqn:Ha.
  { right. split; [intros ? [= <-] (_ & ? & _); congruence|]. split; [done|].
    exists 429. auto. }
  unfold mark_request_active. rewrite Ha.
  destruct (find_free_slot t 0) as [i|] eqn:Hf; simpl.
  - destruct (find_free_slot_lookup _ _ _ Hf) as (j & e & _ & Hj & He).
    assert (Hfree : exists e, e ∈ t /\ active e = false).
    { exists e. split; [by eapply list_elem_of_lookup_2|done]. }
    resource_cases res; simpl;
      first [ left; exists id; by repeat split
            | right; split;
              [intros ? [= <-] (_ & _ & _ & ? & ? & ? & ?); congruence|];
              split; [done|]; exists 500; auto ].
  - apply find_free_slot_none in Hf. right. split.
    + intros ? [= <-] (_ & _ & (e & He & Hfree) & _).
      rewrite Forall_forall in Hf. specialize (Hf e He). congruence.
    + split; [done|]. exists 503. auto.
Qed.

(** C9 (as amended). A playback request is answered 404 exactly when it
    passes the gates of the handler (a non-zero id that is not being
    processed, a free slot in the table, the task can be created and
    queued), the connection is not closing when the task runs, and the
    catalog has no row for the id or the row's file is not on disk. No file
    is served for a recording that does not exist, whatever the answer; an
    accepted request for a recording that exists is served the file, with
    no error reply. *)
Theorem not_found_iff_accepted_and_missing get stat res c range t path_id :
  let reply := request_reply get stat res c range t path_id in
  (reply.1 = Some 404 <->
   exists id,
     path_id = Some id /\ accepted res t id /\ is_closing c = false /\
     missing get stat id) /\
  (forall id, path_id = Some id -> missing get stat id -> reply.2 = None) /\
  (reply.1 = Some 404 -> reply.2 = None) /\
  (forall id,
     path_id = Some id -> accepted res t id -> is_closing c = false ->
     ~ missing get stat id ->
     exists recording,
       get id = Some recording /\
       reply = (None, Some (rec_file_path recording,
                            content_type (rec_file_path recording)))).
Proof.
  unfold request_reply. cbv zeta.
  destruct (handler_outcome res c range t path_id)
    as [(id & -> & Hacc & Herr & Hsched)
       |(Hrefused & Hsched & status & Herr & Hstatus)];
    rewrite Herr.
  - rewrite Hsched.
    set (task := {| connection := Some c; task_id := id; range_header := range |}).
    destruct (is_closing c) eqn:Hclosing.
    + unfold playback_recording_task_function. simpl. rewrite Hclosing. simpl.
      split; [|split; [|split]]; try done.
      split; [done|]. by intros (? & _ & _ & ? & _).
    + destruct (task_not_found_iff_missing get stat
                  (table_after (mg_handle_play_recording res c range t (Some id)))
                  task c eq_refl Hclosing) as (Hiff & Hnone & Hserved).
      simpl in Hiff, Hnone, Hserved. simpl.
      split; [|split; [|split]].
      * rewrite Hiff. split.
        -- intros Hmissing. by exists id.
        -- by intros (? & [= <-] & _ & _ & ?).
      * intros ? [= <-]. exact Hnone.
      * intros H. apply Hnone. by apply Hiff.
      * intros ? [= <-] _ _ Hthere.
        destruct (Hserved Hthere) as (recording & Hg & Hr & Hs).
        exists recording. split; [done|]. by rewrite Hr, Hs.
  - simpl. split; [|split; [|split]]; try done.
    + split.
      * intros [= ->]. destruct Hstatus as [?|[?|[?|?]]]; done.
      * intros (id & Hid & Hacc & _). by destruct (Hrefused id Hid).
    + intros id Hid Hacc. by destruct (Hrefused id Hid).
Qed.

(** C9 (as stated) fails: recording 9 does not exist, and a request for it
    while another request for 9 is being processed is answered 429, not
    404. *)
Lemma missing_recording_answered_429 :
  let busy := (mark_request_active init_active_requests 9).2 in
  missing one_recording file_present 9 /\
  (request_reply one_recording file_present resources_ok
     {| is_closing := false |} None busy (Some 9)).1 = Some 429 /\
  ~ not_found_exactly_when_missing one_recording file_present resources_ok
      {| is_closing := false |} None busy 9.
Proof.
  split; [by left|]. split; [reflexivity|].
  intros [_ H]. specialize (H (or_introl eq_refl)).
  vm_compute in H. discriminate H.
Qed.

End PlaybackFacts.

(** * Further properties of the writer registry *)

Module RegistryLaws.

Import Registry.
Import Shutdown.
Import RegistryFacts.

Lemma nonempty_strncpy n s : nonempty (strncpy n s) = true -> nonempty s = true.
Proof. destruct s; [by destruct n|done]. Qed.

(** What the slot loop's answer says about the arrays. *)
Lemma find_slot_cases local ws ns k :
  length ws = length ns ->
  match find_slot local ws ns k with
  | no_slot => (None ∉ ws) /\ writers_for local ws ns = []
  | empty_slot _ => None ∈ ws
  | existing_entry _ w => exists rest, writers_for local ws ns = w :: rest
  end.
Proof.
  revert ns k. induction ws as [|w ws IH]; intros [|n ns] k Hlen; simpl in *;
    try done.
  - split; [|done]. by intros H%elem_of_nil.
  - destruct w as [old|]; [|by apply elem_of_cons; left].
    destruct (nonempty n && streq n local); [by eexists|].
    specialize (IH ns (S k) ltac:(lia)).
    destruct (find_slot local ws ns (S k)).
    + by apply elem_of_cons; right.
    + exact IH.
    + destruct IH as [IH1 IH2]. split; [|done].
      by intros [?|?]%elem_of_cons.
Qed.

(** Filling the slot the loop chose makes the new writer the first one a
    lookup of the stream meets. *)
Lemma find_writer_after_fill local w ws ns k i :
  find_slot local ws ns k = empty_slot i ->
  nonempty local = true ->
  find_writer local (<[ (i - k)%nat := Some w ]> ws)
    (<[ (i - k)%nat := local ]> ns) k = Some (i, w).
Proof.
  intros H Hne. revert ns k H. induction ws as [|x ws IH]; intros [|n ns] k H;
    simpl in H; try done.
  destruct x as [old|].
  - destruct (nonempty n && streq n local) eqn:E; [done|].
    pose proof (find_slot_empty _ _ _ _ _ H) as (j & -> & _ & _).
    specialize (IH _ _ H).
    replace (S k + j - k)%nat with (S (S k + j - S k)) by lia.
    simpl. by rewrite E.
  - injection H as <-. rewrite Nat.sub_diag. simpl.
    by rewrite Hne, streq_refl.
Qed.

(** What the lookup loop's answer says about the arrays, and what clearing
    the slot it found does to the writers referenced for any stream. *)
Lemma find_writer_cases local ws ns k :
  match find_writer local ws ns k with
  | Some (i, w) =>
      exists rest,
        (k <= i)%nat /\
        writers_for local ws ns = w :: rest /\
        writers_for local (<[ (i - k)%nat := None ]> ws)
          (<[ (i - k)%nat := ""%string ]> ns) = rest /\
        forall other, other <> local ->
          writers_for other (<[ (i - k)%nat := None ]> ws)
            (<[ (i - k)%nat := ""%string ]> ns) = writers_for other ws ns
  | None => writers_for local ws ns = []
  end.
Proof.
  revert ns k. induction ws as [|x ws IH]; intros [|n ns] k; simpl; try done.
  - specialize (IH ns (S k)).
    assert (Hstep : forall i, (S k <= i)%nat -> (i - k)%nat = S (i - S k))
      by (intros; lia).
    destruct x as [wr|].
    + destruct (nonempty n && streq n local) eqn:E.
      * exists (writers_for local ws ns). rewrite Nat.sub_diag. simpl.
        repeat split; try done.
        intros other Hne. apply andb_true_iff in E as [_ E%streq_true].
        subst n. destruct (streq local other) eqn:E'.
        -- apply streq_true in E'. congruence.
        -- by rewrite andb_false_r.
      * destruct (find_writer local ws ns (S k)) as [[i w]|]; [|done].
        destruct IH as (rest & Hle & Hw & Hrest & Hother).
        exists rest. rewrite (Hstep i Hle). simpl. rewrite E.
        repeat split; try done; try lia.
        intros other Hne. by rewrite (Hother other Hne).
    + destruct (find_writer local ws ns (S k)) as [[i w]|]; [|done].
      destruct IH as (rest & Hle & Hw & Hrest & Hother).
      exists rest. rewrite (Hstep i Hle). simpl.
      repeat split; try done; lia.
Qed.

Section WithEnvironment.

Variable MAX_STREAM_NAME : nat.
Variable MAX_PREBUFFER_FRAMES : Z.
Variable stream_handle_t : Type.
Variable get_stream_by_name : string -> option stream_handle_t.
Variable get_stream_config : stream_handle_t -> option stream_config_t.
Variable init_frame_buffer :
  string -> Z -> list frame_buffer_t -> Z * list frame_buffer_t.
Variable flush_frame_buffer :
  nat -> mp4_writer_t -> list frame_buffer_t -> list frame_buffer_t.
Variable free_frame_buffer : nat -> list frame_buffer_t -> list frame_buffer_t.

Local Abbreviation register :=
  (register_mp4_writer_for_stream MAX_STREAM_NAME MAX_PREBUFFER_FRAMES
     stream_handle_t get_stream_by_name get_stream_config
     init_frame_buffer flush_frame_buffer).
Local Abbreviation unregister :=
  (unregister_mp4_writer_for_stream MAX_STREAM_NAME free_frame_buffer).
Local Abbreviation lookup := (get_mp4_writer_for_stream MAX_STREAM_NAME).
Local Abbreviation local_name := (local_copy MAX_STREAM_NAME).

(** X1. A successful registration is seen by the lookup: for a non-empty
    name that fits the 63 bytes of a registry slot, whenever
    [register_mp4_writer_for_stream] returns 0,
    [get_mp4_writer_for_stream] then returns the writer just registered. *)
Theorem lookup_finds_registered_writer st s w :
  nonempty (local_name s) = true ->
  strncpy 63 (local_name s) = local_name s ->
  ret (register st (Some s) (Some w)) = 0 ->
  lookup (after (register st (Some s) (Some w))) (Some s) = Some w.
Proof.
  intros Hne Hfit. unfold get_mp4_writer_for_stream.
  rewrite (nonempty_strncpy _ _ Hne).
  unfold register_mp4_writer_for_stream.
  destruct (find_slot _ _ _ _) as [slot|i old|] eqn:Hslot.
  - intros _. rewrite Hfit.
    pose proof (find_writer_after_fill _ w _ _ _ _ Hslot Hne) as Hf.
    rewrite Nat.sub_0_r in Hf.
    match goal with
    | |- context [let '(_, _) := ?x in _] => destruct x as [fbs inits]
    end.
    simpl. by rewrite Hf.
  - intros _.
    destruct (find_slot_existing _ w _ _ _ _ _ Hslot)
      as (j & rest & -> & _ & _ & _ & Hf).
    match goal with
    | |- context [let '(_, _) := ?x in _] => destruct x as [fbs flushed]
    end.
    simpl. by rewrite Hf.
  - simpl. lia.
Qed.

(** X2. Registration fails only when the registry is full: with both arrays
    of the same length, the result is -1 exactly when no slot has a null
    writer and none carries the stream's name; then the registry is left
    unchanged and nothing is called. Otherwise the result is 0. *)
Theorem register_fails_only_when_full st s w :
  length (mp4_writers st) = length (mp4_writer_stream_names st) ->
  let o := register st (Some s) (Some w) in
  (ret o = -1 <->
   (None ∉ mp4_writers st) /\ registered_writers st (local_name s) = []) /\
  (ret o = -1 -> after o = st /\ calls o = []) /\
  (ret o = 0 \/ ret o = -1).
Proof.
  intros Hlen. unfold register_mp4_writer_for_stream, registered_writers.
  pose proof (find_slot_cases (local_name s) _ _ 0%nat Hlen) as Hcases.
  destruct (find_slot _ _ _ _) as [slot|i old|].
  - match goal with
    | |- context [let '(_, _) := ?x in _] => destruct x as [fbs inits]
    end.
    simpl. repeat split; try lia; auto. by intros [Hfull _].
  - match goal with
    | |- context [let '(_, _) := ?x in _] => destruct x as [fbs flushed]
    end.
    destruct Hcases as [rest Hrest].
    simpl. repeat split; try lia; auto. intros [_ Hnone]. congruence.
  - simpl. repeat split; auto; apply Hcases.
Qed.

(** X3. Unregistering removes the first entry of the stream and nothing
    else: the writers referenced for the stream lose their head, those of
    every other stream are the same, no writer is closed, and a stream
    without an entry leaves the registry as it was. *)
Theorem unregister_removes_first_entry st s :
  nonempty s = true ->
  let o := unregister st (Some s) in
  registered_writers (after o) (local_name s)
    = tail (registered_writers st (local_name s)) /\
  (forall other, other <> local_name s ->
     registered_writers (after o) other = registered_writers st other) /\
  (forall w, mp4_writer_close w ∉ calls o) /\
  (registered_writers st (local_name s) = [] -> after o = st /\ calls o = []).
Proof.
  intros Hne. unfold unregister_mp4_writer_for_stream, registered_writers.
  rewrite Hne.
  pose proof (find_writer_cases (local_name s) (mp4_writers st)
                (mp4_writer_stream_names st) 0%nat) as Hcases.
  destruct (find_writer _ _ _ _) as [[writer_idx w]|].
  - destruct Hcases as (rest & _ & Hw & Hrest & Hother).
    rewrite Nat.sub_0_r in Hrest, Hother.
    destruct (find_buffer _ _ _ _) as [buffer_idx|]; simpl; rewrite Hw;
      repeat split; try done.
    + intros x [H|H%elem_of_nil]%elem_of_cons; done.
    + intros x H%elem_of_nil. done.
  - simpl. rewrite Hcases. repeat split; try done.
    intros x H%elem_of_nil. done.
Qed.

(** X4. Arming and then disarming gives the two arrays back: in a registry
    whose null slots carry no name and which has no entry for the stream, a
    successful [register_mp4_writer_for_stream] followed by
    [unregister_mp4_writer_for_stream] leaves [mp4_writers] and
    [mp4_writer_stream_names] exactly as they were, and the writer is not
    closed on the way. *)
Theorem register_then_unregister_restores_arrays st s w :
  null_slots_unnamed st ->
  nonempty (local_name s) = true ->
  strncpy 63 (local_name s) = local_name s ->
  registered_writers st (local_name s) = [] ->
  let o1 := register st (Some s) (Some w) in
  let o2 := unregister (after o1) (Some s) in
  ret o1 = 0 ->
  mp4_writers (after o2) = mp4_writers st /\
  mp4_writer_stream_names (after o2) = mp4_writer_stream_names st /\
  mp4_writer_close w ∉ calls o1 ++ calls o2.
Proof.
  intros Hinv Hne Hfit Hnone.
  unfold register_mp4_writer_for_stream.
  destruct (find_slot _ _ _ _) as [slot|i old|] eqn:Hslot.
  - destruct (find_slot_empty _ _ _ _ _ Hslot) as (j & -> & Hj & Hlen).
    pose proof (find_writer_after_fill _ w _ _ _ _ Hslot Hne) as Hf.
    rewrite Nat.sub_0_r in Hf. simpl in Hf. rewrite Hfit.
    match goal with
    | |- context [let '(_, _) := ?x in _] =>
        assert (Hcalls : forall c, c ∈ snd x ->
                  exists nm cap, c = init_frame_buffer_call nm cap);
        [|destruct x as [fbs inits]]
    end.
    { intros c. destruct (prebuffer_config _ _ _ _) as [config|]; simpl;
        [|by intros H%elem_of_nil].
      destruct (0 <? _); simpl; [|by intros H%elem_of_nil].
      intros H%list_elem_of_singleton. eauto. }
    simpl in *. intros _. unfold unregister_mp4_writer_for_stream.
    rewrite (nonempty_strncpy _ _ Hne). simpl. rewrite Hf.
    assert (Hws : <[j:=None]> (<[j:=Some w]> (mp4_writers st)) = mp4_writers st).
    { rewrite list_insert_insert_eq. by apply list_insert_id. }
    assert (Hns : <[j:=""%string]> (<[j:=local_name s]> (mp4_writer_stream_names st))
                  = mp4_writer_stream_names st).
    { rewrite list_insert_insert_eq. apply list_insert_id. by apply Hinv. }
    destruct (find_buffer _ _ _ _) as [buffer_idx|]; simpl; rewrite Hws, Hns;
      repeat split; try done.
    + intros [H|H]%elem_of_app.
      * destruct (Hcalls _ H) as (? & ? & ?). done.
      * apply list_elem_of_singleton in H. done.
    + rewrite app_nil_r. intros H.
      destruct (Hcalls _ H) as (? & ? & ?). done.
  - destruct (find_slot_existing _ w _ _ _ _ _ Hslot)
      as (j & rest & _ & _ & Hw & _).
    unfold registered_writers in Hnone. congruence.
  - simpl. lia.
Qed.

End WithEnvironment.

(** Witnesses of X1 to X4 in the sample installation. *)
Lemma lookup_finds_registered_writer_witness :
  get_mp4_writer_for_stream 64
    (after (arm (empty_registry 16) "cam-door" 1%positive))
    (Some "cam-door"%string) = Some 1%positive.
Proof.
  exact (lookup_finds_registered_writer 64 600 string Some (sample_config 5 10)
           sample_init_frame_buffer sample_flush_frame_buffer
           (empty_registry 16) "cam-door" 1%positive eq_refl eq_refl eq_refl).
Defined.

Lemma register_fails_only_when_full_witness :
  let full := after (arm (empty_registry 1) "cam-door" 1%positive) in
  let o := arm full "cam-yard" 2%positive in
  ret o = -1 /\ after o = full /\ calls o = [].
Proof.
  intros full o.
  destruct (register_fails_only_when_full 64 600 string Some
              (sample_config 5 10) sample_init_frame_buffer
              sample_flush_frame_buffer full "cam-yard" 2%positive eq_refl)
    as (Hfull & Hkept & _).
  assert (Hret : ret o = -1).
  { apply Hfull. split; [|reflexivity].
    vm_compute. intros H. apply elem_of_cons in H as [H|H]; [discriminate|].
    by apply elem_of_nil in H. }
  split; [exact Hret|]. exact (Hkept Hret).
Defined.

Lemma unregister_removes_first_entry_witness :
  registered_writers
    (after (disarm (after (arm (empty_registry 16) "cam-door" 1%positive))
              "cam-door")) "cam-door" = [].
Proof.
  exact (proj1 (unregister_removes_first_entry 64 sample_free_frame_buffer
                  (after (arm (empty_registry 16) "cam-door" 1%positive))
                  "cam-door" eq_refl)).
Defined.

Lemma empty_registry_unnamed n : null_slots_unnamed (empty_registry n).
Proof.
  intros i. simpl. intros H%lookup_replicate_1.
  apply lookup_replicate_2. apply H.
Qed.

Lemma register_then_unregister_restores_arrays_witness :
  mp4_writers
    (after (disarm (after (arm (empty_registry 16) "cam-door" 1%positive))
              "cam-door")) = mp4_writers (empty_registry 16).
Proof.
  exact (proj1 (register_then_unregister_restores_arrays 64 600 string Some
                  (sample_config 5 10) sample_init_frame_buffer
                  sample_flush_frame_buffer sample_free_frame_buffer
                  (empty_registry 16) "cam-door" 1%positive
                  (empty_registry_unnamed 16) eq_refl eq_refl eq_refl eq_refl)).
Defined.

Section CloseAll.

Variable MAX_PATH_LENGTH : nat.
Variable output_path : mp4_writer_t -> option string.

Local Abbreviation close_all := (close_all_mp4_writers MAX_PATH_LENGTH output_path).

Lemma cleared_arrays_reference_nothing s ws ns :
  writers_for s (cleared_writers ws ns) (cleared_names ws ns) = [].
Proof.
  revert ns. induction ws as [|w ws IH]; intros [|n ns]; simpl; try done.
  destruct w as [wr|]; simpl; [|apply IH].
  destruct (nonempty n) eqn:E; simpl; [apply IH|]. rewrite E. apply IH.
Qed.

Lemma closed_writers_of_collected todo contexts :
  closed_writers (close_collected todo contexts).2
    = tc_writer <$> todo.
Proof.
  revert contexts. induction todo as [|e todo IH]; intros contexts; [done|].
  simpl. specialize (IH (clear_reference e <$> contexts)).
  destruct (close_collected todo _) as [contexts' calls']. simpl in *.
  unfold closed_writers in *. simpl. f_equal.
  destruct (nonempty (tc_path e)); simpl; exact IH.
Qed.

(** X5. After [close_all_mp4_writers] the registry references no writer
    for any stream and the frame buffers are as before. The writers closed
    are, in slot order and once per slot, exactly the writers of the slots
    with a non-empty name: a writer stored under the empty name is not
    closed. *)
Theorem close_all_clears_and_closes_named_slots st contexts :
  let '(st', _, calls) := close_all st contexts in
  (forall s, registered_writers st' s = []) /\
  frame_buffers st' = frame_buffers st /\
  closed_writers calls
    = omap (fun p : option mp4_writer_t * string =>
              if nonempty p.2 then p.1 else None)
        (zip (mp4_writers st) (mp4_writer_stream_names st)).
Proof.
  unfold close_all_mp4_writers.
  pose proof (closed_writers_of_collected
                (collect_writers MAX_PATH_LENGTH output_path
                   (mp4_writers st) (mp4_writer_stream_names st)) contexts) as Hc.
  destruct (close_collected _ _) as [contexts' calls]. simpl in Hc.
  split; [|split; [done|]].
  - intros s. apply cleared_arrays_reference_nothing.
  - rewrite Hc. generalize (mp4_writers st) (mp4_writer_stream_names st).
    induction l as [|w ws IH]; intros [|n ns]; simpl; try done.
    destruct w as [wr|]; simpl.
    + destruct (nonempty n); simpl; [f_equal|]; apply IH.
    + destruct (nonempty n); simpl; apply IH.
Qed.

(** A context that does not reference [e]'s writer under [e]'s stream
    stays so when any entry is processed. *)
Lemma clear_reference_keeps_cleared e e' ctx c :
  clear_reference e' ctx = Some c ->
  (forall c0, ctx = Some c0 ->
     ~ (ctx_name c0 = tc_stream e /\ ctx_mp4_writer c0 = Some (tc_writer e))) ->
  ~ (ctx_name c = tc_stream e /\ ctx_mp4_writer c = Some (tc_writer e)).
Proof.
  destruct ctx as [c0|]; simpl; [|done]. intros H Hc0.
  specialize (Hc0 c0 eq_refl).
  destruct (streq _ _ && bool_decide _); injection H as <-; simpl; [|done].
  by intros [_ ?].
Qed.

Lemma clear_reference_clears e ctx c :
  clear_reference e ctx = Some c ->
  ~ (ctx_name c = tc_stream e /\ ctx_mp4_writer c = Some (tc_writer e)).
Proof.
  destruct ctx as [c0|]; simpl; [|done].
  destruct (streq _ _ && bool_decide _) eqn:E; intros H; injection H as <-.
  - by intros [_ ?].
  - intros [Hn Hw]. apply andb_false_iff in E as [E|E].
    + rewrite Hn, streq_refl in E. done.
    + by rewrite bool_decide_eq_false in E.
Qed.

Lemma close_collected_contexts todo contexts e :
  (e ∈ todo \/
   Forall (fun ctx => forall c0, ctx = Some c0 ->
             ~ (ctx_name c0 = tc_stream e /\
                ctx_mp4_writer c0 = Some (tc_writer e))) contexts) ->
  Forall (fun ctx => forall c, ctx = Some c ->
            ~ (ctx_name c = tc_stream e /\ ctx_mp4_writer c = Some (tc_writer e)))
    (close_collected todo contexts).1.
Proof.
  revert contexts. induction todo as [|e' todo IH]; intros contexts H; simpl.
  - destruct H as [H%elem_of_nil|H]; done.
  - specialize (IH (clear_reference e' <$> contexts)).
    destruct (close_collected todo _) as [contexts' calls']. simpl in *.
    apply IH. destruct H as [[->|H]%elem_of_cons|H].
    + right. apply Forall_fmap, Forall_forall. intros ctx _ c Hc.
      by eapply clear_reference_clears.
    + by left.
    + right. apply Forall_fmap. eapply Forall_impl; [exact H|].
      intros ctx Hctx c Hc. by eapply clear_reference_keeps_cleared.
Qed.

Lemma collect_writers_elem ws ns i w n :
  ws !! i = Some (Some w) -> ns !! i = Some n -> nonempty n = true ->
  {| tc_writer := w; tc_stream := strncpy 63 n;
     tc_path := path_copy MAX_PATH_LENGTH output_path w |}
    ∈ collect_writers MAX_PATH_LENGTH output_path ws ns.
Proof.
  revert ns i. induction ws as [|x ws IH]; intros [|m ns] i Hw Hn Hne;
    try done.
  destruct i as [|i]; simpl in *.
  - injection Hw as ->. injection Hn as ->. rewrite Hne. by left.
  - specialize (IH ns i Hw Hn Hne).
    destruct x as [wr|]; [|done]. destruct (nonempty m); [by right|done].
Qed.

(** X6. After [close_all_mp4_writers] no recording context still references
    a writer that was closed under the context's stream name: for every slot
    with writer [w] and non-empty name [n], no remaining context named [n]
    (as kept in 63 bytes) has [w] as its writer. *)
Theorem close_all_detaches_recording_contexts st contexts i w n j c :
  mp4_writers st !! i = Some (Some w) ->
  mp4_writer_stream_names st !! i = Some n ->
  nonempty n = true ->
  (close_all st contexts).1.2 !! j = Some (Some c) ->
  ctx_name c = strncpy 63 n ->
  ctx_mp4_writer c <> Some w.
Proof.
  intros Hw Hn Hne. unfold close_all_mp4_writers.
  pose proof (close_collected_contexts
                (collect_writers MAX_PATH_LENGTH output_path
                   (mp4_writers st) (mp4_writer_stream_names st)) contexts _
                (or_introl (collect_writers_elem _ _ _ _ _ Hw Hn Hne))) as H.
  destruct (close_collected _ _) as [contexts' calls]. simpl in *.
  intros Hj Hname Hwriter. rewrite Forall_lookup in H.
  apply (H j _ Hj c eq_refl). by split.
Qed.

End CloseAll.

(** X6 at work: the context of [cam-door] is detached from writer 1. *)
Lemma close_all_detaches_recording_contexts_witness :
  let st := after (arm (empty_registry 16) "cam-door" 1%positive) in
  let contexts :=
    [Some {| ctx_name := "cam-door"; ctx_mp4_writer := Some 1%positive |}] in
  (close_all_mp4_writers 4096 (fun _ => Some "/rec/cam-door.mp4"%string)
     st contexts).1.2
    = [Some {| ctx_name := "cam-door"; ctx_mp4_writer := None |}] /\
  ctx_mp4_writer {| ctx_name := "cam-door"; ctx_mp4_writer := None |}
    <> Some 1%positive.
Proof.
  split; [reflexivity|].
  exact (close_all_detaches_recording_contexts 4096
           (fun _ => Some "/rec/cam-door.mp4"%string)
           (after (arm (empty_registry 16) "cam-door" 1%positive))
           [Some {| ctx_name := "cam-door"; ctx_mp4_writer := Some 1%positive |}]
           0%nat 1%positive "cam-door" 0%nat
           {| ctx_name := "cam-door"; ctx_mp4_writer := None |}
           eq_refl eq_refl eq_refl eq_refl eq_refl).
Defined.

Lemma find_writer_in_range local ws ns k i w :
  find_writer local ws ns k = Some (i, w) ->
  (k <= i)%nat /\ (i - k < length ws)%nat /\ (i - k < length ns)%nat.
Proof.
  revert ns k. induction ws as [|x ws IH]; intros [|n ns] k H; simpl in H;
    try done.
  assert (Hrec : find_writer local ws ns (S k) = Some (i, w) ->
                 (k <= i)%nat /\ (i - k < length (x :: ws))%nat
                 /\ (i - k < length (n :: ns))%nat).
  { intros H'. destruct (IH _ _ H') as (? & ? & ?). simpl. lia. }
  destruct x as [wr|]; [|auto].
  destruct (nonempty n && streq n local); [|auto].
  injection H as <- <-. simpl. lia.
Qed.

Lemma cleared_arrays_unnamed ws ns i :
  (forall j, ws !! j = Some None -> ns !! j = Some ""%string) ->
  cleared_writers ws ns !! i = Some None ->
  cleared_names ws ns !! i = Some ""%string.
Proof.
  revert ns i. induction ws as [|w ws IH]; intros [|n ns] i Hinv; simpl;
    try done.
  - intros H. by specialize (Hinv i H).
  - destruct i as [|i]; simpl.
    + destruct (bool_decide (is_Some w) && nonempty n) eqn:E; [done|].
      intros [= ->]. exact (Hinv 0%nat eq_refl).
    + apply IH. intros j. exact (Hinv (S j)).
Qed.

Lemma cleared_arrays_length ws ns :
  length (cleared_writers ws ns) = length ws /\
  length (cleared_names ws ns) = length ns.
Proof.
  revert ns. induction ws as [|w ws IH]; intros [|n ns]; simpl; try done.
  destruct (IH ns). auto.
Qed.

Section Invariant.

Variable MAX_STREAM_NAME : nat.
Variable MAX_PREBUFFER_FRAMES : Z.
Variable stream_handle_t : Type.
Variable get_stream_by_name : string -> option stream_handle_t.
Variable get_stream_config : stream_handle_t -> option stream_config_t.
Variable init_frame_buffer :
  string -> Z -> list frame_buffer_t -> Z * list frame_buffer_t.
Variable flush_frame_buffer :
  nat -> mp4_writer_t -> list frame_buffer_t -> list frame_buffer_t.
Variable free_frame_buffer : nat -> list frame_buffer_t -> list frame_buffer_t.
Variable MAX_PATH_LENGTH : nat.
Variable output_path : mp4_writer_t -> option string.

(** X7. The registry keeps its shape: registering, unregistering and the
    shutdown each leave the two arrays at their length (no write goes out of
    bounds) and never leave a name on a slot whose writer is null. The
    arrays of program start have that shape. *)
Theorem registry_shape_is_kept n st :
  well_formed n st ->
  well_formed n (empty_registry n) /\
  (forall s w,
     well_formed n
       (after (register_mp4_writer_for_stream MAX_STREAM_NAME
                 MAX_PREBUFFER_FRAMES stream_handle_t get_stream_by_name
                 get_stream_config init_frame_buffer flush_frame_buffer
                 st s w))) /\
  (forall s,
     well_formed n
       (after (unregister_mp4_writer_for_stream MAX_STREAM_NAME
                 free_frame_buffer st s))) /\
  (forall contexts,
     well_formed n
       (close_all_mp4_writers MAX_PATH_LENGTH output_path st contexts).1.1).
Proof.
  intros (Hinv & Hlw & Hln). split; [|split; [|split]].
  - split; [apply empty_registry_unnamed|]. simpl.
    by rewrite !length_replicate.
  - intros [s|] [w|]; try done.
    unfold register_mp4_writer_for_stream.
    destruct (find_slot _ _ _ _) as [slot|i old|] eqn:Hslot; [| |done].
    + match goal with
      | |- context [let '(_, _) := ?x in _] => destruct x as [fbs inits]
      end.
      destruct (find_slot_empty _ _ _ _ _ Hslot) as (j & -> & Hj & _).
      split; simpl; [|by rewrite !length_insert].
      intros k Hk. simpl in *.
      apply list_lookup_insert_Some in Hk as [(_ & ? & _)|(Hne & Hk)]; [done|].
      rewrite list_lookup_insert_ne by done. by apply Hinv.
    + match goal with
      | |- context [let '(_, _) := ?x in _] => destruct x as [fbs flushed]
      end.
      split; simpl; [|by rewrite !length_insert].
      intros k Hk. simpl in *.
      apply list_lookup_insert_Some in Hk as [(_ & ? & _)|(Hne & Hk)]; [done|].
      by apply Hinv.
  - intros [s|]; [|done]. unfold unregister_mp4_writer_for_stream.
    destruct (nonempty s); [|done].
    destruct (find_writer _ _ _ _) as [[writer_idx w]|] eqn:Hf; [|done].
    destruct (find_writer_in_range _ _ _ _ _ _ Hf) as (_ & _ & Hlt).
    rewrite Nat.sub_0_r in Hlt.
    assert (Hshape : forall fbs,
              well_formed n
                {| mp4_writers := <[writer_idx:=None]> (mp4_writers st);
                   mp4_writer_stream_names :=
                     <[writer_idx:=""%string]> (mp4_writer_stream_names st);
                   frame_buffers := fbs |}).
    { intros fbs. split; simpl; [|by rewrite !length_insert].
      intros k Hk. simpl in *.
      destruct (decide (writer_idx = k)) as [<-|Hne].
      - by apply list_lookup_insert_eq.
      - rewrite list_lookup_insert_ne in Hk by done.
        rewrite list_lookup_insert_ne by done. by apply Hinv. }
    destruct (find_buffer _ _ _ _); apply Hshape.
  - intros contexts. unfold close_all_mp4_writers.
    destruct (close_collected _ _) as [contexts' calls]. simpl.
    destruct (cleared_arrays_length (mp4_writers st) (mp4_writer_stream_names st)).
    split; simpl; [|lia].
    intros k. simpl. by apply cleared_arrays_unnamed.
Qed.

End Invariant.

(** X7 at work on the arrays of program start. *)
Lemma registry_shape_is_kept_witness :
  well_formed 16 (after (arm (empty_registry 16) "cam-door" 1%positive)).
Proof.
  refine (proj1 (proj2 (registry_shape_is_kept 64 600 string Some
                          (sample_config 5 10) sample_init_frame_buffer
                          sample_flush_frame_buffer sample_free_frame_buffer
                          4096 (fun _ => None) 16 (empty_registry 16) _))
            (Some "cam-door"%string) (Some 1%positive)).
  split; [apply empty_registry_unnamed|]. split; reflexivity.
Defined.

End RegistryLaws.

(** * Further properties of the streams table *)

Module StreamsDbLaws.

Import StreamsDb.
Import StreamsDbQueries.
Import StreamsDbFacts.

Local Abbreviation row_name := (fun r : stream_row => name (row_config r)).

Lemma strncpy_fits n s : (String.length s <= n)%nat -> strncpy n s = s.
Proof.
  unfold strncpy. revert n. induction s as [|a s IH]; intros [|n] H; simpl in *;
    try done; try lia.
  f_equal. apply IH. lia.
Qed.

Lemma find_app_new {A} (f : A -> bool) l x :
  List.find f l = None -> List.find f (l ++ [x]) = if f x then Some x else None.
Proof.
  induction l as [|y l IH]; simpl; [done|].
  destruct (f y); [done|exact IH].
Qed.

Lemma table_ok_row_range rows r :
  table_ok rows -> r ∈ rows -> 0 < row_id r < 2 ^ 63.
Proof.
  intros (_ & _ & Hrange) Hin. rewrite Forall_forall in Hrange.
  specialize (Hrange r Hin). simpl in Hrange. lia.
Qed.

(** What [add_stream_config] does with a disabled row of that name. *)
Lemma add_on_disabled_row d c r :
  schema_ok d = true ->
  table_ok (streams d) ->
  select_by_name (name c) (streams d) = Some r ->
  enabled (row_config r) = false ->
  add_stream_config (Some d) (Some c)
    = (row_id r, Some (with_streams d (update_by_id (row_id r) c (streams d)))) /\
  select_by_name (name c) (update_by_id (row_id r) c (streams d))
    = Some {| row_id := row_id r; row_config := c |}.
Proof.
  intros Hs Hok Hsel Hen. destruct (select_by_name_elem _ _ _ Hsel) as [Hin Hnm].
  pose proof (table_ok_row_range _ _ Hok Hin) as Hr.
  destruct Hok as (Hnames & Hids & Hrange).
  unfold add_stream_config. rewrite Hs. simpl.
  assert (Hsome : select_disabled_id (name c) (streams d) = Some (row_id r)).
  { unfold select_disabled_id.
    rewrite (find_named_unique _ (name c) (streams d) r); try done.
    - intros x Hx. apply andb_true_iff in Hx as [Hx _]. by apply streq_true.
    - apply andb_true_iff. split; [by apply streq_true|by rewrite Hen]. }
  rewrite Hsome. destruct (uint64_of_rowid _ Hr) as [Hu Hi]. rewrite Hu, Hi.
  split; [done|]. unfold update_by_id.
  rewrite select_by_name_map by (intros x; by destruct (row_id x =? row_id r)).
  rewrite Hsel. simpl. rewrite Z.eqb_refl. by rewrite set_all_but_name_same.
Qed.

(** The two outcomes of [add_stream_config] on a healthy database: failure
    on an enabled row of that name, or a row of that name holding exactly
    the new configuration under the returned id. *)
Lemma add_stream_config_outcome d c :
  schema_ok d = true ->
  table_ok (streams d) ->
  (add_stream_config (Some d) (Some c) = (0, Some d) /\
   exists r, select_by_name (name c) (streams d) = Some r /\
             enabled (row_config r) = true) \/
  (exists id d',
     add_stream_config (Some d) (Some c) = (id, Some d') /\
     0 < id /\ schema_ok d' = true /\
     select_by_name (name c) (streams d')
       = Some {| row_id := id; row_config := c |}).
Proof.
  intros Hs Hok.
  destruct (select_by_name (name c) (streams d)) as [r|] eqn:Hsel.
  - destruct (select_by_name_elem _ _ _ Hsel) as [Hin Hnm].
    destruct (enabled (row_config r)) eqn:Hen.
    + left. split; [|by exists r].
      destruct Hok as (Hnames & _). unfold add_stream_config. rewrite Hs. simpl.
      assert (Hnone : select_disabled_id (name c) (streams d) = None).
      { unfold select_disabled_id.
        destruct (List.find _ (streams d)) as [x|] eqn:E; [|done].
        apply List.find_some in E as [Hx Hpx]. apply list_elem_of_In in Hx.
        apply andb_true_iff in Hpx as [Hxn Hxe]. apply streq_true in Hxn.
        assert (x = r) as -> by
          (apply (key_determines_row row_name (streams d)); congruence).
        by rewrite Hen in Hxe. }
      rewrite Hnone. unfold insert_stream. by rewrite Hsel.
    + right. destruct (add_on_disabled_row d c r Hs Hok Hsel Hen) as [Hadd Hfound].
      eexists _, _. split; [exact Hadd|].
      pose proof (table_ok_row_range _ _ Hok Hin). repeat split; try done. lia.
  - right. destruct Hok as (Hnames & Hids & Hrange).
    unfold add_stream_config. rewrite Hs. simpl.
    assert (Hnone : select_disabled_id (name c) (streams d) = None).
    { unfold select_disabled_id.
      destruct (List.find _ (streams d)) as [x|] eqn:E; [|done].
      apply List.find_some in E as [Hx Hpx].
      apply andb_true_iff in Hpx as [Hxn _].
      apply List.find_none with (x := x) in Hsel; [|done]. congruence. }
    rewrite Hnone. unfold insert_stream. rewrite Hsel.
    destruct (rowid_bound _ Hrange) as [Hb Hlt].
    destruct (uint64_of_rowid _ Hb) as [Hu _]. rewrite Hu.
    eexists _, _. split; [reflexivity|]. repeat split; try done; try lia.
    simpl. unfold select_by_name in *. rewrite find_app_new by done.
    simpl. by rewrite streq_refl.
Qed.

Section Sizes.

Variable MAX_STREAM_NAME : nat.
Variable MAX_URL_LENGTH : nat.
Variable CODEC_SIZE : nat.
Variable MAX_PATH_LENGTH : nat.

Local Abbreviation get_by_name :=
  (get_stream_config_by_name MAX_STREAM_NAME MAX_URL_LENGTH CODEC_SIZE
     MAX_PATH_LENGTH).
Local Abbreviation read :=
  (read_row MAX_STREAM_NAME MAX_URL_LENGTH CODEC_SIZE MAX_PATH_LENGTH).
Local Abbreviation fitting :=
  (fits MAX_STREAM_NAME MAX_URL_LENGTH CODEC_SIZE MAX_PATH_LENGTH).

(** With every column in the schema, a row whose strings fit the arrays is
    read back as the configuration it holds, the threshold as SQLite keeps
    it. *)
Lemma read_row_all_columns id c :
  fitting c -> read all_columns {| row_id := id; row_config := c |} = as_stored c.
Proof.
  intros (Hn & Hu & Hc & Hm). unfold read_row, as_stored. simpl.
  by rewrite !strncpy_fits by lia.
Qed.

(** X8. What is added can be read back: on a healthy database with every
    column in the schema, if [add_stream_config] returns a non-zero id for a
    configuration whose strings fit the arrays of [stream_config_t], then
    [get_stream_config_by_name] on the resulting database returns 0 and
    fills the buffer with that configuration as the table keeps it. That is
    exactly the configuration when its detection threshold is neither a NaN
    nor a negative zero; a NaN threshold is stored as NULL and comes back
    as the default 0.5, a negative zero comes back as zero. *)
Theorem add_then_get_round_trip d c id db' buffer :
  schema_ok d = true ->
  table_ok (streams d) ->
  fitting c ->
  add_stream_config (Some d) (Some c) = (id, db') ->
  id <> 0 ->
  get_by_name db' all_columns (Some (name c)) (Some buffer)
    = (0, Some (as_stored c)) /\
  (is_nan (detection_threshold c) = false ->
   detection_threshold c <> negative_zero ->
   as_stored c = c) /\
  (is_nan (detection_threshold c) = true ->
   detection_threshold (as_stored c) = default_detection_threshold) /\
  (detection_threshold c = negative_zero ->
   detection_threshold (as_stored c) = 0).
Proof.
  intros Hs Hok Hfit Hadd Hid. split; [|split; [|split]].
  - destruct (add_stream_config_outcome d c Hs Hok)
      as [[Hfail _]|(id' & d' & Hadd' & _ & Hs' & Hfound)].
    + rewrite Hfail in Hadd. congruence.
    + rewrite Hadd' in Hadd. injection Hadd as <- <-.
      unfold get_stream_config_by_name. rewrite Hs', Hfound. simpl.
      by rewrite read_row_all_columns.
  - intros Hnan Hzero. unfold as_stored, read_threshold, column_float.
    rewrite Hnan. apply Z.eqb_neq in Hzero. rewrite Hzero. by destruct c.
  - intros Hnan. unfold as_stored, read_threshold, column_float. simpl.
    by rewrite Hnan.
  - intros Hzero. unfold as_stored, read_threshold, column_float. simpl.
    by rewrite Hzero.
Qed.

End Sizes.

(** X8 at work: a new camera is added to an empty table and read back. *)
Lemma add_then_get_round_trip_witness :
  get_stream_config_by_name 64 512 16 4096
    (add_stream_config (Some {| streams := []; schema_ok := true |})
       (Some (camera "cam-front" true true 5 10))).2
    all_columns (Some "cam-front"%string) (Some (camera "" false false 0 0))
  = (0, Some (camera "cam-front" true true 5 10)).
Proof.
  refine (proj1 (add_then_get_round_trip 64 512 16 4096
                   {| streams := []; schema_ok := true |}
                   (camera "cam-front" true true 5 10) 1 _
                   (camera "" false false 0 0)
                   eq_refl _ _ eq_refl _)).
  - repeat split; try apply NoDup_nil_2. apply Forall_nil_2.
  - repeat split; simpl; lia.
  - lia.
Defined.

(** A map over the rows that keeps names and ids keeps the table
    well-formed. *)
Lemma table_ok_map (f : stream_row -> stream_row) rows :
  (forall r, row_name (f r) = row_name r) ->
  (forall r, row_id (f r) = row_id r) ->
  table_ok rows -> table_ok (List.map f rows).
Proof.
  intros Hn Hi (Hnames & Hids & Hrange).
  assert (Hnm : row_name <$> List.map f rows = row_name <$> rows).
  { clear -Hn. induction rows as [|x rows IH]; simpl; [done|].
    f_equal; [apply Hn|exact IH]. }
  assert (Hid : row_id <$> List.map f rows = row_id <$> rows).
  { clear -Hi. induction rows as [|x rows IH]; simpl; [done|].
    f_equal; [apply Hi|exact IH]. }
  repeat split.
  - by rewrite Hnm.
  - by rewrite Hid.
  - clear -Hi Hrange. induction Hrange as [|x rows Hx _ IH]; simpl;
      constructor; [by rewrite Hi|done].
Qed.

Lemma select_by_name_none_filter nm rows :
  select_by_name nm rows = None ->
  List.filter (fun r => streq (row_name r) nm) rows = [].
Proof.
  unfold select_by_name. induction rows as [|x rows IH]; simpl; [done|].
  destruct (streq (row_name x) nm); [done|exact IH].
Qed.

Lemma select_by_name_unique_filter nm rows r :
  NoDup (row_name <$> rows) ->
  select_by_name nm rows = Some r ->
  List.filter (fun x => streq (row_name x) nm) rows = [r].
Proof.
  unfold select_by_name. induction rows as [|x rows IH]; simpl; [done|].
  intros [Hx Hnd]%NoDup_cons Hsel.
  destruct (streq (row_name x) nm) eqn:E.
  - injection Hsel as ->. f_equal. apply streq_true in E.
    apply select_by_name_none_filter, select_by_name_absent.
    intros y Hy Hyn. apply Hx. rewrite E, <- Hyn.
    by apply (list_elem_of_fmap_2 row_name).
  - by apply IH.
Qed.

(** X9. [delete_stream_config] is a soft delete: for a stream in the table
    it returns 0, the row stays (the number of rows is the same) but is no
    longer eligible for live streaming, and adding a configuration of that
    name again updates the row in place and returns the stream's old id. *)
Theorem soft_deleted_stream_keeps_its_id d c r :
  schema_ok d = true ->
  table_ok (streams d) ->
  select_by_name (name c) (streams d) = Some r ->
  let deleted := delete_stream_config (Some d) (Some (name c)) in
  deleted.1 = 0 /\
  is_stream_eligible_for_live_streaming deleted.2 (Some (name c)) = 0 /\
  count_stream_configs deleted.2 = count_stream_configs (Some d) /\
  exists d',
    add_stream_config deleted.2 (Some c) = (row_id r, Some d') /\
    select_by_name (name c) (streams d')
      = Some {| row_id := row_id r; row_config := c |}.
Proof.
  intros Hs Hok Hsel. unfold delete_stream_config, delete_stream_config_internal.
  rewrite Hs. simpl.
  set (f := fun r0 : stream_row =>
              if streq (name (row_config r0)) (name c) then disable_row r0 else r0).
  assert (Hn : forall x, row_name (f x) = row_name x)
    by (intros x; unfold f; by destruct (streq _ _)).
  assert (Hi : forall x, row_id (f x) = row_id x)
    by (intros x; unfold f; by destruct (streq _ _)).
  pose proof (table_ok_map f _ Hn Hi Hok) as Hok'.
  assert (Hsel' : select_by_name (name c) (List.map f (streams d))
                  = Some (disable_row r)).
  { rewrite select_by_name_map, Hsel by done. simpl. unfold f.
    destruct (select_by_name_elem _ _ _ Hsel) as [_ ->]. by rewrite streq_refl. }
  split; [done|]. split; [|split].
  - unfold is_stream_eligible_for_live_streaming. simpl. rewrite Hs. simpl.
    by rewrite Hsel'.
  - unfold count_stream_configs. simpl. rewrite Hs. simpl.
    by rewrite List.length_map.
  - destruct (add_on_disabled_row (with_streams d (List.map f (streams d))) c
                (disable_row r) Hs Hok' Hsel' eq_refl) as [Hadd Hfound].
    eexists. split; [exact Hadd|exact Hfound].
Qed.

(** X10. The permanent delete removes the row: for a stream in a table with
    unique names it returns 0, afterwards [get_stream_config_by_name] fails
    with -1 and leaves the caller's buffer alone, the stream is not eligible
    for live streaming, and the table has one row less. Deleting (either
    way) a name that is not in the table also returns 0 and changes
    nothing. *)
Theorem permanent_delete_removes_row d nm cols
    MAX_STREAM_NAME MAX_URL_LENGTH CODEC_SIZE MAX_PATH_LENGTH buffer :
  schema_ok d = true ->
  NoDup (row_name <$> streams d) ->
  let deleted := delete_stream_config_internal (Some d) (Some nm) true in
  deleted.1 = 0 /\
  get_stream_config_by_name MAX_STREAM_NAME MAX_URL_LENGTH CODEC_SIZE
    MAX_PATH_LENGTH deleted.2 cols (Some nm) (Some buffer) = (-1, Some buffer) /\
  is_stream_eligible_for_live_streaming deleted.2 (Some nm) = 0 /\
  (forall r, select_by_name nm (streams d) = Some r ->
     exists d', deleted.2 = Some d' /\
                S (length (streams d')) = length (streams d)) /\
  (select_by_name nm (streams d) = None ->
   forall permanent,
     delete_stream_config_internal (Some d) (Some nm) permanent = (0, Some d)).
Proof.
  intros Hs Hnd. unfold delete_stream_config_internal. rewrite Hs. simpl.
  set (keep := fun r : stream_row => negb (streq (name (row_config r)) nm)).
  assert (Hgone : select_by_name nm (List.filter keep (streams d)) = None).
  { apply select_by_name_absent. intros r Hr%list_elem_of_In Hrn.
    apply List.filter_In in Hr as [_ Hr]. unfold keep in Hr.
    rewrite <- Hrn, streq_refl in Hr. done. }
  split; [done|]. split; [|split; [|split]].
  - unfold get_stream_config_by_name. simpl. rewrite Hs. simpl. by rewrite Hgone.
  - unfold is_stream_eligible_for_live_streaming. simpl. rewrite Hs. simpl.
    by rewrite Hgone.
  - intros r Hsel. eexists. split; [reflexivity|]. simpl.
    pose proof (List.filter_length (fun x => streq (row_name x) nm) (streams d))
      as Hlen.
    cbv beta in Hlen.
    rewrite (select_by_name_unique_filter _ _ _ Hnd Hsel) in Hlen.
    simpl in Hlen. unfold keep. lia.
  - intros Hnone permanent.
    assert (Hall : forall r, In r (streams d) -> streq (row_name r) nm = false).
    { intros r Hr. by apply (List.find_none _ _ Hnone). }
    destruct d as [rows ok]. simpl in *. unfold with_streams. simpl.
    destruct permanent; do 3 f_equal.
    + clear -Hall. induction rows as [|x rows IH]; simpl; [done|].
      unfold keep at 1. rewrite (Hall x) by (by left). simpl.
      f_equal. apply IH. intros r Hr. apply Hall. by right.
    + clear -Hall. induction rows as [|x rows IH]; simpl; [done|].
      rewrite (Hall x) by (by left).
      f_equal. apply IH. intros r Hr. apply Hall. by right.
Qed.

(** X9 and X10 at work on the table that holds [cam-front]. *)
Lemma soft_deleted_stream_keeps_its_id_witness :
  (add_stream_config
     (delete_stream_config (one_camera_db true true) (Some "cam-front"%string)).2
     (Some (camera "cam-front" true false 0 25))).1 = 1.
Proof.
  destruct (soft_deleted_stream_keeps_its_id (one_camera true true)
              (camera "cam-front" true false 0 25)
              {| row_id := 1; row_config := camera "cam-front" true true 5 10 |}
              eq_refl (one_camera_table_ok true true) eq_refl)
    as (_ & _ & _ & d' & Hadd & _).
  exact (f_equal fst Hadd).
Defined.

Lemma permanent_delete_removes_row_witness :
  is_stream_eligible_for_live_streaming
    (delete_stream_config_internal (one_camera_db true true)
       (Some "cam-front"%string) true).2 (Some "cam-front"%string) = 0.
Proof.
  refine (proj1 (proj2 (proj2 (permanent_delete_removes_row
                                 (one_camera true true) "cam-front" all_columns
                                 64 512 16 4096 (camera "" false false 0 0)
                                 eq_refl _)))).
  apply NoDup_singleton.
Defined.

Lemma update_selected_lookup nm c rows r :
  select_by_name nm rows = Some r ->
  List.existsb (fun x => streq (row_name x) (name c) && negb (streq (row_name x) nm))
    rows = false ->
  select_by_name (name c)
    (List.map (fun x => if streq (row_name x) nm
                        then {| row_id := row_id x; row_config := c |} else x) rows)
  = Some {| row_id := row_id r; row_config := c |}.
Proof.
  unfold select_by_name. induction rows as [|x rows IH]; simpl; [done|].
  intros Hsel [Hx Hrest]%orb_false_iff.
  destruct (streq (row_name x) nm) eqn:E; simpl.
  - injection Hsel as ->. by rewrite streq_refl.
  - rewrite andb_true_r in Hx. rewrite Hx. by apply IH.
Qed.

Lemma update_selected_old_name nm c rows :
  name c <> nm ->
  select_by_name nm
    (List.map (fun x => if streq (row_name x) nm
                        then {| row_id := row_id x; row_config := c |} else x) rows)
  = None.
Proof.
  intros Hne. apply select_by_name_absent. intros r Hr%list_elem_of_In Hrn.
  apply List.in_map_iff in Hr as (x & <- & _).
  destruct (streq (row_name x) nm) eqn:E; simpl in Hrn; [done|].
  rewrite Hrn, streq_refl in E. done.
Qed.

(** X11. [update_stream_config] on a table with unique names:
    - a name that is not in the table: the call returns 0 (success) and
      changes nothing;
    - a rename to a name another row already has: -1, nothing changes;
    - otherwise the row keeps its id and holds exactly the new
      configuration, under the new name; after a rename the old name is no
      longer found; the number of rows stays the same. *)
Theorem update_stream_config_cases d nm c :
  schema_ok d = true ->
  NoDup (row_name <$> streams d) ->
  let result := update_stream_config (Some d) (Some nm) (Some c) in
  match select_by_name nm (streams d) with
  | None => result = (0, Some d)
  | Some r =>
      if negb (streq (name c) nm)
         && bool_decide (is_Some (select_by_name (name c) (streams d)))
      then result = (-1, Some d)
      else
        exists d',
          result = (0, Some d') /\
          select_by_name (name c) (streams d')
            = Some {| row_id := row_id r; row_config := c |} /\
          (name c <> nm -> select_by_name nm (streams d') = None) /\
          length (streams d') = length (streams d)
  end.
Proof.
  intros Hs Hnd. unfold update_stream_config. rewrite Hs. simpl.
  set (taken := fun r : stream_row =>
                  streq (name (row_config r)) (name c)
                  && negb (streq (name (row_config r)) nm)).
  destruct (select_by_name nm (streams d)) as [r|] eqn:Hsel.
  - rewrite (select_by_name_unique_filter _ _ _ Hnd Hsel). simpl.
    assert (Htaken : List.existsb taken (streams d)
                     = negb (streq (name c) nm)
                       && bool_decide (is_Some (select_by_name (name c) (streams d)))).
    { destruct (List.existsb taken (streams d)) eqn:E.
      - apply List.existsb_exists in E as (x & Hx & Htx). unfold taken in Htx.
        apply andb_true_iff in Htx as [Hxc Hxn]. apply streq_true in Hxc.
        symmetry. apply andb_true_iff. split.
        + rewrite <- Hxc. rewrite negb_true_iff in *.
          destruct (streq (row_name x) nm) eqn:E'; done.
        + apply bool_decide_eq_true.
          rewrite (select_by_name_unique (name c) (streams d) x); try done.
          by apply list_elem_of_In.
      - symmetry. apply andb_false_iff.
        destruct (streq (name c) nm) eqn:Hcn; [by left|right].
        apply bool_decide_eq_false. intros [x Hx].
        destruct (select_by_name_elem _ _ _ Hx) as [Hin Hxn].
        assert (taken x = true) as Htx.
        { unfold taken. rewrite Hxn, streq_refl. simpl. by rewrite Hcn. }
        assert (List.existsb taken (streams d) = true) as Hex.
        { apply List.existsb_exists. exists x. split; [|done].
          by apply list_elem_of_In. }
        congruence. }
    rewrite Htaken, orb_false_r.
    destruct (negb (streq (name c) nm) && _) eqn:Hconflict; [done|].
    eexists. split; [reflexivity|]. simpl. rewrite <- Htaken in Hconflict.
    split; [|split].
    + by apply update_selected_lookup.
    + apply update_selected_old_name.
    + apply List.length_map.
  - rewrite (select_by_name_none_filter _ _ Hsel). simpl.
    assert (Hall : forall r, In r (streams d) -> streq (row_name r) nm = false).
    { intros r Hr. by apply (List.find_none _ _ Hsel). }
    destruct d as [rows ok]. simpl in *. unfold with_streams. simpl.
    do 3 f_equal. clear -Hall. induction rows as [|x rows IH]; simpl; [done|].
    rewrite (Hall x) by (by left).
    f_equal. apply IH. intros r Hr. apply Hall. by right.
Qed.

(** X11 at work: [cam-front] is renamed to [cam-lobby] and keeps id 1. *)
Lemma update_stream_config_cases_witness :
  exists d',
    update_stream_config (one_camera_db true true) (Some "cam-front"%string)
      (Some (camera "cam-lobby" true true 5 10)) = (0, Some d') /\
    select_by_name "cam-lobby" (streams d')
      = Some {| row_id := 1; row_config := camera "cam-lobby" true true 5 10 |}.
Proof.
  destruct (update_stream_config_cases (one_camera true true) "cam-front"
              (camera "cam-lobby" true true 5 10) eq_refl
              (NoDup_singleton "cam-front"%string))
    as (d' & Hupd & Hfound & _).
  exists d'. by split.
Defined.

#[local] Instance name_le_total : Total name_le.
Proof. intros r1 r2. apply String.leb_total. Qed.

(** X12. [get_all_stream_configs] with a buffer for [max_count > 0] entries
    on a healthy database returns [min (rows, max_count)] and writes that
    many entries: the rows of the table ordered by name, cut after
    [max_count], each read as [get_stream_config_by_name] reads it. When the
    buffer is large enough every stream is listed exactly once. With no
    buffer or [max_count <= 0] it returns -1 and writes nothing. *)
Theorem get_all_stream_configs_sorted_prefix
    MAX_STREAM_NAME MAX_URL_LENGTH CODEC_SIZE MAX_PATH_LENGTH
    d cols streams_ok max_count :
  schema_ok d = true ->
  let result :=
    get_all_stream_configs MAX_STREAM_NAME MAX_URL_LENGTH CODEC_SIZE
      MAX_PATH_LENGTH (Some d) cols streams_ok max_count in
  let read := read_row MAX_STREAM_NAME MAX_URL_LENGTH CODEC_SIZE MAX_PATH_LENGTH in
  (streams_ok = false \/ max_count <= 0 -> result = (-1, [])) /\
  (streams_ok = true -> 0 < max_count ->
   result.1 = Z.min (Z.of_nat (length (streams d))) max_count /\
   Z.of_nat (length result.2) = result.1 /\
   (exists sorted,
      sorted ≡ₚ streams d /\ Sorted name_le sorted /\
      result.2 = read cols <$> take (Z.to_nat max_count) sorted) /\
   (Z.of_nat (length (streams d)) <= max_count ->
    result.2 ≡ₚ read cols <$> streams d)).
Proof.
  intros Hs. unfold get_all_stream_configs. rewrite Hs. simpl. split.
  - intros [->|Hle]; [done|].
    destruct streams_ok; simpl; [|done].
    by destruct (Z.leb_spec max_count 0); [|lia].
  - intros -> Hpos. simpl. destruct (Z.leb_spec max_count 0); [lia|].
    pose proof (merge_sort_Permutation name_le (streams d)) as Hperm.
    pose proof (Permutation_length Hperm) as Hlen.
    simpl. rewrite length_fmap, length_take, Hlen.
    split; [lia|]. split; [done|]. split.
    + exists (merge_sort name_le (streams d)).
      split; [done|]. split; [apply Sorted_merge_sort, _|done].
    + intros Hall. rewrite take_ge by lia. by rewrite Hperm.
Qed.

Lemma get_all_stream_configs_sorted_prefix_witness :
  (get_all_stream_configs 64 512 16 4096 (one_camera_db true true)
     all_columns true 16).1 = Z.min 1 16.
Proof.
  exact (proj1 (proj2 (get_all_stream_configs_sorted_prefix 64 512 16 4096
                         (one_camera true true) all_columns true 16 eq_refl)
                  eq_refl eq_refl)).
Defined.

Lemma select_disabled_is_named nm rows id :
  select_disabled_id nm rows = Some id -> is_Some (select_by_name nm rows).
Proof.
  unfold select_disabled_id, select_by_name.
  induction rows as [|x rows IH]; simpl; [done|].
  destruct (streq (row_name x) nm); simpl; [by eexists|exact IH].
Qed.

(** X13. Counting after an add: on a healthy database of fewer than 2^31 - 1
    rows, [count_stream_configs] after [add_stream_config] is one more than
    before when the name was new and the same otherwise (a disabled row
    updated in place, or the add refused); [get_enabled_stream_count] is
    never negative and never exceeds it. *)
Theorem count_after_add d c :
  schema_ok d = true ->
  Z.of_nat (length (streams d)) < INT_MAX ->
  let db' := (add_stream_config (Some d) (Some c)).2 in
  count_stream_configs db'
    = count_stream_configs (Some d)
      + match select_by_name (name c) (streams d) with
        | Some _ => 0
        | None => 1
        end /\
  0 <= get_enabled_stream_count db' <= count_stream_configs db'.
Proof.
  intros Hs Hlen.
  assert (Hcount : forall rows,
            Z.of_nat (length rows) <= INT_MAX ->
            wrap_int (Z.of_nat (length rows)) = Z.of_nat (length rows) /\
            0 <= wrap_int (Z.of_nat (length
                   (List.filter (fun r => enabled (row_config r)) rows)))
              <= Z.of_nat (length rows)).
  { intros rows Hrows.
    pose proof (List.filter_length_le (fun r => enabled (row_config r)) rows).
    rewrite !wrap_int_small; unfold in_int_range, INT_MIN, INT_MAX in *; lia. }
  unfold add_stream_config. rewrite Hs. simpl.
  destruct (select_disabled_id (name c) (streams d)) as [id|] eqn:Hdis.
  - destruct (select_disabled_is_named _ _ _ Hdis) as [r Hr]. rewrite Hr.
    unfold count_stream_configs, get_enabled_stream_count. simpl. rewrite Hs.
    simpl. unfold update_by_id.
    destruct (Hcount (List.map (fun r0 : stream_row =>
                if row_id r0 =? to_int64 (to_uint64 id)
                then {| row_id := row_id r0;
                        row_config := set_all_but_name (row_config r0) c |}
                else r0) (streams d))) as [H1 H2];
      [rewrite List.length_map; lia|].
    rewrite H1. rewrite List.length_map in *.
    destruct (Hcount (streams d)) as [H3 _]; [lia|]. rewrite H3. lia.
  - unfold insert_stream.
    destruct (select_by_name (name c) (streams d)) as [r|]; simpl;
      unfold count_stream_configs, get_enabled_stream_count; simpl; rewrite Hs;
      simpl.
    + destruct (Hcount (streams d)) as [H1 H2]; [lia|]. rewrite H1. lia.
    + destruct (Hcount (streams d ++
                  [{| row_id := next_rowid (streams d); row_config := c |}]))
        as [H1 H2]; [rewrite List.length_app; simpl; lia|].
      rewrite H1. destruct (Hcount (streams d)) as [H3 _]; [lia|]. rewrite H3.
      rewrite List.length_app in *. simpl in *. lia.
Qed.

Lemma count_after_add_witness :
  count_stream_configs
    (add_stream_config (one_camera_db true true)
       (Some (camera "cam-lobby" true true 5 10))).2 = 1 + 1.
Proof.
  exact (proj1 (count_after_add (one_camera true true)
                  (camera "cam-lobby" true true 5 10) eq_refl eq_refl)).
Defined.

End StreamsDbLaws.

(** * Further properties of the playback requests *)

Module PlaybackLaws.

Import Playback.
Import PlaybackRequest.
Import PlaybackFacts.

Lemma active_slots_insert t j e id :
  t !! j = Some e -> active e = false ->
  active_slots (<[ j := {| req_id := id; active := true |} ]> t)
    = S (active_slots t).
Proof.
  unfold active_slots. revert j. induction t as [|x t IH]; intros j Hj He; [done|].
  destruct j as [|j]; simpl in *.
  - injection Hj as ->. by rewrite He.
  - specialize (IH j Hj He). destruct (active x); simpl; lia.
Qed.

Lemma active_slots_inactive t id :
  (active_slots (mark_request_inactive t id)
   + if is_request_active t id then 1 else 0)%nat = active_slots t.
Proof.
  unfold active_slots. induction t as [|e t IH]; simpl; [done|].
  unfold matches. destruct (req_id e =? id), (active e) eqn:E; simpl;
    rewrite ?E; simpl; lia.
Qed.

(** X14. [mark_request_active] succeeds exactly when the id is not active
    and some slot is free; it then uses one more slot and the id is active.
    When it fails the table is unchanged. Either way the table keeps its
    length and the state of every other id. *)
Theorem mark_request_active_succeeds_iff_free_slot t id :
  let '(marked, t') := mark_request_active t id in
  (marked = true <->
   is_request_active t id = false /\ exists e, e ∈ t /\ active e = false) /\
  (marked = true ->
   is_request_active t' id = true /\ active_slots t' = S (active_slots t)) /\
  (marked = false -> t' = t) /\
  length t' = length t /\
  (forall other, other <> id ->
     is_request_active t' other = is_request_active t other).
Proof.
  unfold mark_request_active.
  destruct (is_request_active t id) eqn:Ha.
  { repeat split; try done. by intros [? _]. }
  destruct (find_free_slot t 0) as [i|] eqn:Hf.
  - destruct (find_free_slot_lookup _ _ _ Hf) as (j & e & -> & Hj & He).
    simpl. repeat split; try done.
    + exists e. split; [by eapply list_elem_of_lookup_2|done].
    + rewrite is_request_active_entries.
      rewrite (active_entries_insert _ _ _ _ _ Hj He), Z.eqb_refl.
      apply negb_true_iff, Nat.eqb_neq. lia.
    + by apply (active_slots_insert _ _ e).
    + by rewrite length_insert.
    + intros other Hne. rewrite !is_request_active_entries.
      rewrite (active_entries_insert _ _ _ _ _ Hj He).
      destruct (Z.eqb_spec id other); [congruence|]. by rewrite Nat.add_0_r.
  - apply find_free_slot_none in Hf.
    repeat split; try done.
    intros (_ & e & He & Hfree). rewrite Forall_forall in Hf.
    specialize (Hf e He). congruence.
Qed.

Section Request.

Variable get_recording_metadata_by_id : Z -> option recording_metadata_t.
Variable stat : string -> bool.

Local Abbreviation serve := (serve_request get_recording_metadata_by_id stat).

(** X15. A request never leaks a slot. Starting from a table the mutators
    can produce, after the handler and the task it may have scheduled have
    run, every id is active exactly if it was before and as many slots are
    in use as before, whatever the outcome (rejected, failed, not found,
    served). *)
Theorem request_releases_its_slot res c range t path_id :
  reachable t ->
  let t' := serve res c range t path_id in
  (forall id, is_request_active t' id = is_request_active t id) /\
  active_slots t' = active_slots t /\
  length t' = length t.
Proof.
  intros Hr. pose proof (reachable_deduplicated t Hr) as Hd.
  unfold serve_request, mg_handle_play_recording.
  destruct path_id as [id|]; [|done].
  destruct (id =? 0); [done|].
  destruct (is_request_active t id) eqn:Ha; [done|].
  pose proof (mark_request_active_succeeds_iff_free_slot t id) as Hmark.
  pose proof (mark_request_active_deduplicated t id Hd) as Hd1.
  destruct (mark_request_active t id) as [marked t1]. simpl in Hd1.
  destruct Hmark as (_ & Hok & Hfail & Hlen & Hother).
  destruct marked; simpl; [|by rewrite (Hfail eq_refl)].
  destruct (Hok eq_refl) as [Ha1 Hslots].
  assert (Hback :
    (forall id', is_request_active (mark_request_inactive t1 id) id'
                 = is_request_active t id') /\
    active_slots (mark_request_inactive t1 id) = active_slots t /\
    length (mark_request_inactive t1 id) = length t).
  { split; [|split].
    - intros id'. destruct (Z.eq_dec id' id) as [->|Hne].
      + by rewrite (inactive_after_mark t1 id Hd1).
      + rewrite <- (Hother id' Hne). rewrite !is_request_active_entries.
        by rewrite active_entries_inactive_other.
    - pose proof (active_slots_inactive t1 id) as H. rewrite Ha1 in H. lia.
    - rewrite <- Hlen. clear. induction t1 as [|e t1 IH]; simpl; [done|].
      destruct (matches id e); simpl; by rewrite ?IH. }
  unfold playback_recording_task_function.
  resource_cases res; simpl; try exact Hback.
  destruct (is_closing c); [exact Hback|].
  destruct (get_recording_metadata_by_id id) as [recording|]; [|exact Hback].
  by destruct (stat (rec_file_path recording)).
Qed.

(** X16. The handler answers 503 exactly when the request could be marked
    but the table is full: the id is not 0, it is not active, and every
    slot is active. It hands a task to the thread pool exactly when the id
    is not 0 and not active, a slot is free, and the four resources are
    there; the task then carries that id. *)
Theorem handler_gates res c range t id :
  let h := mg_handle_play_recording res c range t (Some id) in
  (error_status h = Some 503 <->
   id <> 0 /\ is_request_active t id = false /\
   Forall (fun e => active e = true) t) /\
  (is_Some (scheduled h) <->
   id <> 0 /\ is_request_active t id = false /\
   (exists e, e ∈ t /\ active e = false) /\
   hm_copy_ok res = true /\ pool_ok res = true /\
   task_ok res = true /\ add_task_ok res = true) /\
  (forall task, scheduled h = Some task ->
     task_id task = id /\ error_status h = None).
Proof.
  unfold mg_handle_play_recording.
  destruct (Z.eqb_spec id 0) as [->|Hid].
  { simpl. split; [|split]; [| |done].
    - split; [done|]. by intros [? _].
    - split; [by intros [? ?]|]. by intros [? _]. }
  destruct (is_request_active t id) eqn:Ha.
  { simpl. split; [|split]; [| |done].
    - split; [done|]. by intros (_ & ? & _).
    - split; [by intros [? ?]|]. by intros (_ & ? & _). }
  pose proof (mark_request_active_succeeds_iff_free_slot t id) as Hmark.
  unfold mark_request_active in *. rewrite Ha in *.
  destruct (find_free_slot t 0) as [i|] eqn:Hf; simpl.
  - destruct Hmark as ([Hfree _] & _). destruct (Hfree eq_refl) as [_ Hex].
    assert (Hnotfull : ~ Forall (fun e => active e = true) t).
    { intros Hfull. apply find_free_slot_none with (k := 0%nat) in Hfull.
      congruence. }
    resource_cases res; simpl; (split; [|split]);
      try (split; [done|by intros (_ & _ & ?)]);
      try (split; [by intros [? ?]|by intros (_ & _ & _ & ? & ? & ? & ?)]);
      try done;
      try (split; [intros _; by repeat split|by eexists]);
      try (by intros task [= <-]).
  - apply find_free_slot_none in Hf. split; [|split]; [| |done].
    + split; [|done]. intros _. by repeat split.
    + split; [by intros [? ?]|].
      intros (_ & _ & (e & He & Hfree) & _). rewrite Forall_forall in Hf.
      specialize (Hf e He). congruence.
Qed.

End Request.

(** X15 at work: a request for recording 7 is served and the table is as
    free as before. *)
Lemma request_releases_its_slot_witness :
  active_slots
    (serve_request one_recording file_present
       {| hm_copy_ok := true; pool_ok := true; task_ok := true;
          add_task_ok := true |}
       {| is_closing := false |} None init_active_requests (Some 7))
  = active_slots init_active_requests.
Proof.
  exact (proj1 (proj2 (request_releases_its_slot one_recording file_present
                         {| hm_copy_ok := true; pool_ok := true;
                            task_ok := true; add_task_ok := true |}
                         {| is_closing := false |} None init_active_requests
                         (Some 7) reach_init))).
Defined.

Lemma chars_app a b :
  String.list_ascii_of_string (a ++ b)
    = String.list_ascii_of_string a ++ String.list_ascii_of_string b.
Proof. induction a as [|c a IH]; simpl; [done|by rewrite IH]. Qed.

Lemma to_lower_dot c : to_lower c = "."%char -> c = "."%char.
Proof. destruct c as [[] [] [] [] [] [] [] []]; vm_compute; congruence. Qed.

Lemma to_lower_letter c x :
  to_lower c = x -> x <> "."%char -> Ascii.eqb c "."%char = false.
Proof. intros <- Hx. apply Ascii.eqb_neq. intros ->. by apply Hx. Qed.

Lemma strrchr_dot_app base ext found :
  strrchr_dot ext = Some found -> strrchr_dot (base ++ ext) = Some found.
Proof.
  intros H. induction base as [|c base IH]; simpl; [done|]. by rewrite IH.
Qed.

(** X17. The MIME type follows the extension, whatever its case and
    whatever precedes it: a path that ends in one of the five known
    extensions, in any mix of upper and lower case, gets that extension's
    type. Every path gets one of the five types. *)
Theorem content_type_follows_extension base ext e mime :
  (e, mime) ∈ known_extensions ->
  List.map to_lower (String.list_ascii_of_string ext)
    = String.list_ascii_of_string e ->
  content_type (base ++ ext) = mime /\
  forall path, content_type path ∈ known_extensions.*2.
Proof.
  intros Hin Hmap. split.
  - unfold content_type. rewrite chars_app.
    unfold known_extensions in Hin.
    repeat (apply elem_of_cons in Hin as [Hin|Hin]);
      try (by apply elem_of_nil in Hin);
      injection Hin as -> ->; simpl in Hmap;
      (destruct (String.list_ascii_of_string ext)
         as [|c0 [|c1 [|c2 [|c3 [|c4 [|c5 l]]]]]]; try discriminate);
      simplify_eq/=;
      match goal with
      | H : to_lower c0 = _ |- _ => apply to_lower_dot in H; subst c0
      end;
      repeat match goal with
        | H : to_lower ?c = ?x |- _ =>
            let E := fresh "E" in
            pose proof (to_lower_letter c x H ltac:(discriminate)) as E;
            revert H
        end;
      intros;
      (erewrite strrchr_dot_app; [|simpl; by repeat match goal with
                                    | E : Ascii.eqb _ _ = false |- _ =>
                                        rewrite E; clear E
                                    end]);
      unfold strcaseeq; simpl;
      repeat match goal with
        | H : to_lower _ = _ |- _ => rewrite H; clear H
        end;
      reflexivity.
  - intros path. unfold content_type, known_extensions.
    simpl. repeat case_match;
      repeat first [apply list_elem_of_here | apply list_elem_of_further].
Qed.

(** X17 at work: an upper-case Matroska file. *)
Lemma content_type_follows_extension_witness :
  content_type ("/var/lib/lightnvr/recordings/cam-front/7" ++ ".MKV")
    = "video/x-matroska"%string.
Proof.
  exact (proj1 (content_type_follows_extension
                  "/var/lib/lightnvr/recordings/cam-front/7" ".MKV"
                  ".mkv" "video/x-matroska"
                  ltac:(do 2 apply list_elem_of_further; apply list_elem_of_here)
                  eq_refl)).
Defined.

End PlaybackLaws.

(** * Further properties of the timeline handlers *)

Module TimelineLaws.

Import Timeline.
Import TimelinePlayback.
Import TimelineFacts.

Lemma first_index_some {A} (p : A -> bool) l k i :
  first_index p l k = Some i ->
  exists j x,
    i = (k + j)%nat /\ l !! j = Some x /\ p x = true /\
    forall j' y, (j' < j)%nat -> l !! j' = Some y -> p y = false.
Proof.
  revert k. induction l as [|a l IH]; intros k H; simpl in H; [done|].
  destruct (p a) eqn:E.
  - injection H as <-. exists 0%nat, a. repeat split; try done; lia.
  - destruct (IH _ H) as (j & x & -> & Hj & Hx & Hbefore).
    exists (S j), x. repeat split; try done; try lia.
    intros [|j'] y Hlt Hy; simpl in Hy; [congruence|].
    apply (Hbefore j'); [lia|done].
Qed.

Lemma first_index_none {A} (p : A -> bool) l k :
  first_index p l k = None -> Forall (fun x => p x = false) l.
Proof.
  revert k. induction l as [|a l IH]; intros k H; simpl in H; [constructor|].
  destruct (p a) eqn:E; [done|]. constructor; [done|by eapply IH].
Qed.

(** X18. The segment a timeline playback starts with. For a non-empty
    list the index is always inside the list, and the segment chosen is:
    the first one whose time span contains the requested time, if there is
    one; otherwise the first one that starts after it; otherwise (every
    segment lies before the requested time) the first segment of the
    list. *)
Theorem start_segment_index_choice segments start :
  segments <> [] ->
  exists i seg,
    start_segment_index segments start = Some i /\
    segments !! i = Some seg /\
    ((start_time seg <= start <= end_time seg /\
      forall j y, (j < i)%nat -> segments !! j = Some y ->
        ~ (start_time y <= start <= end_time y)) \/
     (Forall (fun y => ~ (start_time y <= start <= end_time y)) segments /\
      start < start_time seg /\
      forall j y, (j < i)%nat -> segments !! j = Some y ->
        end_time y < start) \/
     (Forall (fun y => end_time y < start) segments /\ i = 0%nat)).
Proof.
  intros Hne. unfold start_segment_index.
  assert (Hc : forall y, contains start y = false <->
                         ~ (start_time y <= start <= end_time y)).
  { intros y. unfold contains. rewrite andb_false_iff, !Z.leb_gt. lia. }
  destruct (first_index (contains start) segments 0) as [i|] eqn:E1.
  - destruct (first_index_some _ _ _ _ E1) as (j & seg & -> & Hj & Hp & Hb).
    exists j, seg. repeat split; try done. left. split.
    + unfold contains in Hp. apply andb_true_iff in Hp as [?%Z.leb_le ?%Z.leb_le].
      lia.
    + intros j' y Hlt Hy. apply Hc. by apply (Hb j').
  - apply first_index_none in E1.
    assert (Hnone : Forall (fun y => ~ (start_time y <= start <= end_time y))
                      segments).
    { eapply Forall_impl; [exact E1|]. intros y. apply Hc. }
    destruct (first_index (starts_after start) segments 0) as [i|] eqn:E2.
    + destruct (first_index_some _ _ _ _ E2) as (j & seg & -> & Hj & Hp & Hb).
      exists j, seg. repeat split; try done. right. left.
      unfold starts_after in *. apply Z.ltb_lt in Hp. repeat split; try done.
      intros j' y Hlt Hy. specialize (Hb j' y Hlt Hy). apply Z.ltb_ge in Hb.
      rewrite Forall_forall in Hnone.
      specialize (Hnone y (list_elem_of_lookup_2 _ _ _ Hy)). lia.
    + apply first_index_none in E2.
      destruct segments as [|seg segments]; [done|]. simpl.
      exists 0%nat, seg. repeat split; try done. right. right.
      split; [|done]. rewrite Forall_forall in *. intros y Hy.
      specialize (Hnone y Hy). specialize (E2 y Hy).
      unfold starts_after in E2. apply Z.ltb_ge in E2. lia.
Qed.

(** X18 at work: 200 lies in the second of two segments. *)
Lemma start_segment_index_choice_witness :
  exists i seg,
    start_segment_index [segment 1 100 160; segment 2 170 230] 200 = Some i /\
    [segment 1 100 160; segment 2 170 230] !! i = Some seg.
Proof.
  destruct (start_segment_index_choice [segment 1 100 160; segment 2 170 230]
              200 ltac:(discriminate)) as (i & seg & Hi & Hseg & _).
  by exists i, seg.
Defined.

(** The index the three steps end with lies inside a non-empty list. *)
Lemma start_segment_index_in_range segments start :
  segments <> [] ->
  exists i seg,
    start_segment_index segments start = Some i /\ segments !! i = Some seg.
Proof.
  intros Hne. unfold start_segment_index.
  destruct (first_index (contains start) segments 0) as [i|] eqn:E1.
  { destruct (first_index_some _ _ _ _ E1) as (j & seg & -> & Hj & _).
    by exists j, seg. }
  destruct (first_index (starts_after start) segments 0) as [i|] eqn:E2.
  { destruct (first_index_some _ _ _ _ E2) as (j & seg & -> & Hj & _).
    by exists j, seg. }
  destruct segments as [|seg segments]; [done|]. by exists 0%nat, seg.
Qed.

(** An addition in [time_t] that does not leave the range of [long] is the
    addition of integers. *)
Lemma time_add_in_range LONG_MAX a b :
  - LONG_MAX - 1 <= a + b <= LONG_MAX -> time_add LONG_MAX a b = a + b.
Proof.
  intros H. unfold time_add.
  rewrite Z.mod_small by lia. lia.
Qed.

(** One that goes above [LONG_MAX] by less than the range comes out at the
    bottom of the range. *)
Lemma time_add_overflow LONG_MAX a b :
  LONG_MAX < a + b <= 3 * LONG_MAX + 2 ->
  time_add LONG_MAX a b = a + b - 2 * (LONG_MAX + 1).
Proof.
  intros H. unfold time_add.
  replace (a + b + (LONG_MAX + 1))
    with (a + b - (LONG_MAX + 1) + 1 * (2 * (LONG_MAX + 1))) by lia.
  rewrite Z.mod_add by lia. rewrite Z.mod_small by lia. lia.
Qed.

Section Handler.

Variable MAX_STREAM_NAME : nat.
Variable LONG_MAX : Z.
Variable get_timeline_segments :
  string -> Z -> Z -> option (list timeline_segment_t).

Local Abbreviation handler :=
  (mg_handle_timeline_playback MAX_STREAM_NAME LONG_MAX get_timeline_segments).

(** X19. [mg_handle_timeline_playback] never reads [segments] outside the
    array, and when it redirects, the target is the playback URL of the
    id of a segment that the catalog listed for the range from the start
    time to [start_time + 24 * 60 * 60] as the code computes it in
    [time_t]. That end is 24 hours after the start while the sum stays in
    the range of [long]. It is not for a start time within 24 hours of
    [LONG_MAX], which the clamp of [strtol] lets in: the end then lies
    before the start. *)
Theorem timeline_playback_redirects_to_listed_segment
    tz now malloc_ok stream_param start_time_str :
  let response := handler tz now malloc_ok stream_param start_time_str in
  response <> invalid_read /\
  (forall location,
     response = redirect location ->
     exists start segments seg,
       playback_start_time LONG_MAX tz now start_time_str = Some start /\
       get_timeline_segments (strncpy (MAX_STREAM_NAME - 1) stream_param)
         start (time_add LONG_MAX start 86400) = Some segments /\
       seg ∈ segments /\
       location = strncpy 255
                    ("/api/recordings/play/"
                     ++ string_of_Z (StreamsDb.to_uint64 (seg_id seg)))) /\
  (forall start,
     - LONG_MAX - 1 <= start + 86400 <= LONG_MAX ->
     time_add LONG_MAX start 86400 = start + 86400) /\
  (forall start,
     86400 <= LONG_MAX -> LONG_MAX - 86400 < start <= LONG_MAX ->
     time_add LONG_MAX start 86400 < start).
Proof.
  split; [|split; [|split]].
  - unfold mg_handle_timeline_playback.
    destruct (nonempty stream_param) eqn:Hsp; simpl; [|done].
    destruct (nonempty (strncpy _ stream_param)); simpl; [|done].
    destruct (playback_start_time _ _ _ _) as [start|]; [|done].
    destruct malloc_ok; simpl; [|done].
    destruct (get_timeline_segments _ _ _) as [[|s segments]|] eqn:Hg; try done.
    destruct (start_segment_index_in_range (s :: segments) start ltac:(done))
      as (i & seg & -> & Hseg).
    by rewrite Hseg.
  - unfold mg_handle_timeline_playback.
    destruct (nonempty stream_param) eqn:Hsp; simpl; [|done].
    destruct (nonempty (strncpy _ stream_param)); simpl; [|done].
    destruct (playback_start_time _ _ _ _) as [start|]; [|done].
    destruct malloc_ok; simpl; [|done].
    destruct (get_timeline_segments _ _ _) as [[|s segments]|] eqn:Hg; try done.
    destruct (start_segment_index_in_range (s :: segments) start ltac:(done))
      as (i & seg & -> & Hseg).
    rewrite Hseg. intros location [= <-]. exists start, (s :: segments), seg.
    repeat split; try done. by eapply list_elem_of_lookup_2.
  - intros start. apply time_add_in_range.
  - intros start Hday Hlate.
    rewrite time_add_overflow by lia. lia.
Qed.

End Handler.

Lemma digits_of_uint_acc d acc :
  digits (Z.pos acc)
    (String.list_ascii_of_string (DecimalString.NilEmpty.string_of_uint d))
  = (Z.pos (Pos.of_uint_acc d acc), []).
Proof.
  revert acc. induction d as [|d IH|d IH|d IH|d IH|d IH|d IH|d IH|d IH|d IH|d IH];
    intros acc; [done|..]; simpl;
    match goal with
    | |- digits ?v _ = (Z.pos (Pos.of_uint_acc _ ?a), _) =>
        replace v with (Z.pos a)
          by (match goal with
              | |- context [digit_val ?c] =>
                  let x := eval vm_compute in (digit_val c) in
                  change (digit_val c) with x
              end; lia)
    end; apply IH.
Qed.

Lemma digits_of_uint d :
  digits 0
    (String.list_ascii_of_string (DecimalString.NilEmpty.string_of_uint d))
  = (Z.of_N (Pos.of_uint d), []).
Proof.
  induction d as [|d IH|d IH|d IH|d IH|d IH|d IH|d IH|d IH|d IH|d IH];
    [done|exact IH|..]; simpl;
    match goal with
    | |- digits ?v _ = (Z.pos (Pos.of_uint_acc _ ?a), _) =>
        replace v with (Z.pos a)
          by (match goal with
              | |- context [digit_val ?c] =>
                  let x := eval vm_compute in (digit_val c) in
                  change (digit_val c) with x
              end; lia)
    end; apply digits_of_uint_acc.
Qed.

Lemma uint_string_head d :
  d <> Decimal.Nil ->
  exists c rest,
    String.list_ascii_of_string (DecimalString.NilEmpty.string_of_uint d)
      = c :: rest /\
    is_digit c = true /\ is_space c = false /\
    Ascii.eqb c "-"%char = false /\ Ascii.eqb c "+"%char = false.
Proof. destruct d; [done|..]; intros _; by eexists _, _. Qed.

Lemma string_of_positive p :
  DecimalString.NilZero.string_of_uint (Pos.to_uint p)
    = DecimalString.NilEmpty.string_of_uint (Pos.to_uint p).
Proof.
  pose proof (DecimalPos.Unsigned.to_uint_nonnil p).
  by destruct (Pos.to_uint p).
Qed.

(** X20. Printing a time with [%ld] and reading it back with [strtol] is
    the identity on the range of [long]: the [start] parameter that
    [create_timeline_manifest] writes into the playlist's URI is taken by
    [mg_handle_timeline_playback] as exactly that epoch second, with no
    part of it left over and whatever the server's time zone. *)
Theorem manifest_start_parameter_round_trip LONG_MAX tz now z :
  - LONG_MAX - 1 <= z <= LONG_MAX ->
  strtol LONG_MAX (String.list_ascii_of_string (string_of_Z z)) = (z, []) /\
  playback_start_time LONG_MAX tz now (string_of_Z z) = Some z.
Proof.
  intros Hrange.
  assert (Hstrtol : strtol LONG_MAX (String.list_ascii_of_string (string_of_Z z))
                    = (z, [])).
  { unfold string_of_Z, strtol. destruct z as [|p|p]; simpl.
    - change (digit_val "0"%char) with 0. f_equal. lia.
    - rewrite string_of_positive.
      destruct (uint_string_head (Pos.to_uint p)
                  (DecimalPos.Unsigned.to_uint_nonnil p))
        as (c & rest & Hc & Hd & Hs & Hm & Hp).
      pose proof (digits_of_uint (Pos.to_uint p)) as Hdigits.
      rewrite DecimalPos.Unsigned.of_to in Hdigits.
      rewrite Hc in *. simpl. rewrite Hs. unfold sign_and_rest.
      rewrite Hm, Hp, Hd, Hdigits. f_equal. simpl. lia.
    - rewrite string_of_positive.
      destruct (uint_string_head (Pos.to_uint p)
                  (DecimalPos.Unsigned.to_uint_nonnil p))
        as (c & rest & Hc & Hd & Hs & Hm & Hp).
      pose proof (digits_of_uint (Pos.to_uint p)) as Hdigits.
      rewrite DecimalPos.Unsigned.of_to in Hdigits.
      rewrite Hc in *. rewrite Hd, Hdigits. f_equal. simpl. lia. }
  split; [exact Hstrtol|].
  unfold playback_start_time. rewrite Hstrtol.
  assert (nonempty (string_of_Z z) = true) as ->; [|done].
  unfold string_of_Z. destruct z as [|p|p]; simpl; [done| |done].
  rewrite string_of_positive.
  destruct (uint_string_head (Pos.to_uint p)
              (DecimalPos.Unsigned.to_uint_nonnil p)) as (c & rest & Hc & _).
  by destruct (DecimalString.NilEmpty.string_of_uint (Pos.to_uint p)).
Qed.

(** X20 at work on a 64-bit [long]. *)
Lemma manifest_start_parameter_round_trip_witness :
  playback_start_time 9223372036854775807 (fixed_zone 3600) 0
    (string_of_Z 1709294400) = Some 1709294400.
Proof.
  refine (proj2 (manifest_start_parameter_round_trip 9223372036854775807
                   (fixed_zone 3600) 0 1709294400 _)).
  lia.
Defined.

Lemma strptime_needs_year rp fmt t :
  get_number 0 9999 4 rp = None -> strptime rp (pct_Y :: fmt) t = None.
Proof. intros H. simpl. by rewrite H. Qed.

Lemma get_number_needs_digit from to n rp :
  match skip_spaces rp with
  | c :: _ => is_digit c = false
  | [] => True
  end ->
  get_number from to n rp = None.
Proof.
  unfold get_number. destruct (skip_spaces rp) as [|c rp']; [done|].
  by intros ->.
Qed.

(** X21. In [mg_handle_get_timeline_segments] and
    [mg_handle_timeline_manifest] a time parameter that does not begin
    (after white space) with a digit is not rejected: [start_time] or
    [end_time] silently becomes 0, the epoch. *)
Theorem non_numeric_time_parameter_becomes_epoch tz now time_str :
  nonempty time_str = true ->
  match skip_spaces
          (decode_colons (String.list_ascii_of_string (strncpy 63 time_str))) with
  | c :: _ => is_digit c = false
  | [] => True
  end ->
  query_start_time tz now time_str = 0 /\
  query_end_time tz now time_str = 0.
Proof.
  intros Hne Hhead.
  pose proof (get_number_needs_digit 0 9999 4 _ Hhead) as Hyear.
  unfold query_start_time, query_end_time, parse_time_string. rewrite Hne.
  unfold datetime_formats, first_match, fmt_datetime, fmt_date.
  cbn [app]. by rewrite !(strptime_needs_year _ _ _ Hyear).
Qed.

Lemma non_numeric_time_parameter_becomes_epoch_witness :
  query_start_time (fixed_zone 3600) 1700000000 "yesterday" = 0.
Proof.
  exact (proj1 (non_numeric_time_parameter_becomes_epoch (fixed_zone 3600)
                  1700000000 "yesterday" eq_refl eq_refl)).
Defined.

(** X22. A date without a time of day covers the local day: when the
    parameter is matched by [%Y-%m-%d] and by none of the date-time
    formats, the start is local midnight of that date and the end is
    23:59:59 of it; with the same UTC offset at both, they are 86399
    seconds apart. *)
Theorem date_only_range_covers_the_day tz now date_str t :
  let decoded :=
    decode_colons (String.list_ascii_of_string (strncpy 63 date_str)) in
  nonempty date_str = true ->
  first_match decoded datetime_formats = None ->
  strptime decoded fmt_date tm_zero = Some t ->
  let midnight := with_time_of_day 0 0 0 t in
  let last_second := with_time_of_day 23 59 59 t in
  query_start_time tz now date_str = mktime tz midnight /\
  query_end_time tz now date_str = mktime tz last_second /\
  (gmtoff tz (timegm midnight) = gmtoff tz (timegm last_second) ->
   query_end_time tz now date_str - query_start_time tz now date_str = 86399).
Proof.
  intros decoded Hne Hdt Hdate midnight last_second.
  unfold query_start_time, query_end_time, parse_time_string.
  fold decoded. rewrite Hne, Hdt, Hdate.
  repeat split. unfold mktime, timegm, midnight, last_second. simpl.
  intros ->. lia.
Qed.

Lemma date_only_range_covers_the_day_witness :
  query_end_time (fixed_zone 3600) 0 "2024-03-01"
  - query_start_time (fixed_zone 3600) 0 "2024-03-01" = 86399.
Proof.
  exact (proj2 (proj2 (date_only_range_covers_the_day (fixed_zone 3600) 0
                         "2024-03-01"
                         {| tm_year := 124; tm_mon := 2; tm_mday := 1;
                            tm_hour := 0; tm_min := 0; tm_sec := 0;
                            tm_isdst := 0 |}
                         eq_refl eq_refl eq_refl)) eq_refl).
Defined.

Lemma strncpy_length n s : (String.length (strncpy n s) <= n)%nat.
Proof.
  unfold strncpy. revert n. induction s as [|c s IH]; intros [|n]; simpl;
    try lia. specialize (IH n). lia.
Qed.

(** X23. [create_timeline_manifest] returns -1 exactly for a null or
    empty segment array, a null [manifest_path] or a manifest file that
    cannot be created. Otherwise [(int)max_duration + 1] has a defined value
    exactly when the longest duration among the first
    [MAX_MANIFEST_SEGMENTS] segments, as a [double], is below [INT_MAX];
    the function then returns 0, the manifest path fits the caller's buffer
    of [MAX_PATH_LENGTH] bytes, and the durations written are exact: no
    rounding to [double] has taken place. *)
Theorem manifest_failure_and_duration
    MAX_PATH_LENGTH storage_path now fopen_ok segments start manifest_path :
  (0 < MAX_PATH_LENGTH)%nat ->
  let result :=
    create_timeline_manifest MAX_PATH_LENGTH storage_path now fopen_ok
      segments start manifest_path in
  let listed := take MAX_MANIFEST_SEGMENTS (default [] segments) in
  (result = manifest_error <->
   segments = None \/ segments = Some [] \/
   manifest_path = false \/ fopen_ok = false) /\
  (result = manifest_undefined <->
   result <> manifest_error /\ INT_MAX <= max_duration listed) /\
  (forall path lines,
     result = manifest_created path lines ->
     (String.length path < MAX_PATH_LENGTH)%nat /\
     max_duration listed < INT_MAX /\
     lines !! 4%nat
       = Some ("#EXT-X-TARGETDURATION:"
               ++ string_of_Z (max_duration listed + 1))%string /\
     lines !! 5%nat
       = Some ("#EXTINF:" ++ string_of_double (max_duration listed) ++ ",")%string /\
     (max_duration listed = 0 \/
      exists seg, seg ∈ listed /\
                  max_duration listed = end_time seg - start_time seg)).
Proof.
  intros Hpos.
  assert (Herror :
    forall listed,
      (manifest_error = manifest_error <->
       segments = None \/ segments = Some [] \/
       manifest_path = false \/ fopen_ok = false) ->
      (manifest_error = manifest_error <->
       segments = None \/ segments = Some [] \/
       manifest_path = false \/ fopen_ok = false) /\
      (manifest_error = manifest_undefined <->
       manifest_error <> manifest_error /\ INT_MAX <= max_duration listed) /\
      (forall path lines,
         manifest_error = manifest_created path lines ->
         (String.length path < MAX_PATH_LENGTH)%nat /\
         max_duration listed < INT_MAX /\
         lines !! 4%nat
           = Some ("#EXT-X-TARGETDURATION:"
                   ++ string_of_Z (max_duration listed + 1))%string /\
         lines !! 5%nat
           = Some ("#EXTINF:" ++ string_of_double (max_duration listed)
                   ++ ",")%string /\
         (max_duration listed = 0 \/
          exists seg, seg ∈ listed /\
                      max_duration listed = end_time seg - start_time seg))).
  { intros listed Hcause. split; [exact Hcause|]. split; [|done].
    split; [done|]. by intros [? _]. }
  destruct segments as [[|first rest]|];
    [apply Herror; split; auto| |apply Herror; split; auto].
  destruct manifest_path; [|apply Herror; split; auto].
  destruct fopen_ok; [|apply Herror; split; auto 6].
  clear Herror.
  change (default [] (Some (first :: rest))) with (first :: rest).
  cbv beta iota zeta delta [create_timeline_manifest negb].
  set (listed := take MAX_MANIFEST_SEGMENTS (first :: rest)).
  destruct (TimelineFacts.max_duration_bounds listed) as [Hnonneg _].
  destruct (Z.lt_ge_cases (max_duration listed) INT_MAX) as [Hlt|Hge].
  - rewrite (TimelineFacts.target_duration_defined (max_duration listed))
      by lia.
    split; [|split].
    + split; [done|]. by intros [?|[?|[?|?]]].
    + split; [done|]. intros [_ ?]. lia.
    + intros path lines [= <- <-].
      pose proof (strncpy_length (MAX_PATH_LENGTH - 1)
                    (manifest_filename MAX_PATH_LENGTH storage_path now first
                       start)) as Hlen.
      unfold snprintf_path. repeat split; try done; try lia.
      destruct (TimelineFacts.max_duration_attained listed)
        as [E|(seg & Hin & E)]; [by left|].
      right. exists seg. split; [done|]. rewrite E. unfold difftime.
      apply TimelineFacts.round_double_exact.
      assert (Hsmall : Z.abs (difftime (end_time seg) (start_time seg)) < 2 ^ 53)
        by (unfold INT_MAX in Hlt; lia).
      destruct (Z.lt_ge_cases (Z.abs (end_time seg - start_time seg)) (2 ^ 53))
        as [?|Hbig]; [done|].
      pose proof (TimelineFacts.round_double_large _ Hbig) as Hlarge.
      unfold difftime in Hsmall. lia.
  - rewrite (TimelineFacts.target_duration_undefined _ Hge).
    split; [|split].
    + split; [done|]. by intros [?|[?|[?|?]]].
    + split; [|done]. intros _. by split.
    + done.
Qed.

Lemma manifest_failure_and_duration_witness :
  create_timeline_manifest 4096 "/var/lib/lightnvr" 1700000000 false
    (Some [segment 1 100 160]) 100 true = manifest_error.
Proof.
  refine (proj2 (proj1 (manifest_failure_and_duration 4096 "/var/lib/lightnvr"
                          1700000000 false (Some [segment 1 100 160]) 100
                          true _)) _).
  - lia.
  - right. right. by right.
Defined.

Lemma decode_colons_cases c1 s1 :
  (exists s3, c1 = "%"%char /\ s1 = "3"%char :: "A"%char :: s3 /\
              decode_colons (c1 :: s1) = ":"%char :: decode_colons s3) \/
  ((forall s3, ~ (c1 = "%"%char /\ s1 = "3"%char :: "A"%char :: s3)) /\
   decode_colons (c1 :: s1) = c1 :: decode_colons s1).
Proof.
  destruct s1 as [|c2 [|c3 s3]].
  - right. split; [|done]. by intros s3 [_ ?].
  - right. split; [|done]. by intros s3 [_ ?].
  - change (decode_colons (c1 :: c2 :: c3 :: s3))
      with (if Ascii.eqb c1 "%"%char && Ascii.eqb c2 "3"%char
               && Ascii.eqb c3 "A"%char
            then ":"%char :: decode_colons s3
            else c1 :: decode_colons (c2 :: c3 :: s3)).
    destruct (Ascii.eqb_spec c1 "%"%char) as [->|N1];
      [destruct (Ascii.eqb_spec c2 "3"%char) as [->|N2];
       [destruct (Ascii.eqb_spec c3 "A"%char) as [->|N3]|]|]; simpl.
    + left. by exists s3.
    + right. split; [|done]. intros s [_ H]. by injection H.
    + right. split; [|done]. intros s [_ H]. by injection H.
    + right. split; [|done]. by intros s [? _].
Qed.

Lemma occurs_cons needle c s :
  occurs needle (c :: s)
  = bool_decide (take (length needle) (c :: s) = needle) || occurs needle s.
Proof. reflexivity. Qed.

Lemma decode_colons_leaves_none n s :
  (length s <= n)%nat -> occurs encoded_colon (decode_colons s) = false.
Proof.
  revert s. induction n as [|n IH]; intros [|c1 s1] Hlen; simpl in Hlen;
    try lia; try reflexivity.
  destruct (decode_colons_cases c1 s1) as [(s3 & -> & -> & E)|[Hno E]];
    rewrite E, occurs_cons.
  - rewrite IH by (simpl in Hlen; lia). rewrite orb_false_r.
    by apply bool_decide_eq_false.
  - rewrite IH by lia. rewrite orb_false_r. apply bool_decide_eq_false.
    simpl. intros [= -> H2].
    destruct s1 as [|c2 s2]; [done|].
    destruct (decode_colons_cases c2 s2) as [(s3 & -> & -> & E2)|[_ E2]];
      rewrite E2 in H2; [done|]. injection H2 as -> H3.
    destruct s2 as [|c3 s3]; [done|].
    destruct (decode_colons_cases c3 s3) as [(s4 & -> & -> & E3)|[_ E3]];
      rewrite E3 in H3; [done|]. injection H3 as ->.
    by apply (Hno s3).
Qed.

Lemma decode_colons_shrinks n s :
  (length s <= n)%nat -> (length (decode_colons s) <= length s)%nat.
Proof.
  revert s. induction n as [|n IH]; intros [|c1 s1] Hlen; simpl in Hlen;
    try lia; try (simpl; lia).
  destruct (decode_colons_cases c1 s1) as [(s3 & -> & -> & E)|[_ E]];
    rewrite E; simpl.
  - specialize (IH s3). simpl in Hlen. lia.
  - specialize (IH s1). lia.
Qed.

(** X24. The [strstr]/[memmove] loop that decodes colons in a time
    parameter is complete and never grows the string: no [%3A] is left in
    the result, the result is at most as long as the input, it is the
    input itself when that has no percent sign, and a [%3A] that follows
    a prefix without percent sign becomes one colon, the decoding going on
    behind it. *)
Theorem colon_decoding_is_complete s :
  occurs encoded_colon (decode_colons s) = false /\
  (length (decode_colons s) <= length s)%nat /\
  ("%"%char ∉ s -> decode_colons s = s) /\
  (forall before after,
     "%"%char ∉ before ->
     decode_colons (before ++ encoded_colon ++ after)
     = before ++ ":"%char :: decode_colons after).
Proof.
  split; [by apply (decode_colons_leaves_none (length s))|].
  split; [by apply (decode_colons_shrinks (length s))|].
  split.
  - induction s as [|c1 s1 IH]; intros Hnone; [done|].
    apply not_elem_of_cons in Hnone as [Hc Hs].
    destruct (decode_colons_cases c1 s1) as [(s3 & -> & _)|[_ ->]]; [done|].
    by rewrite IH.
  - intros before after. induction before as [|c1 s1 IH]; intros Hnone.
    + reflexivity.
    + apply not_elem_of_cons in Hnone as [Hc Hs].
      change ((c1 :: s1) ++ encoded_colon ++ after)
        with (c1 :: (s1 ++ encoded_colon ++ after)).
      destruct (decode_colons_cases c1 (s1 ++ encoded_colon ++ after))
        as [(s3 & -> & _)|[_ ->]]; [done|].
      by rewrite IH.
Qed.

Lemma colon_decoding_is_complete_witness :
  decode_colons
    (String.list_ascii_of_string "2024-03-01T10" ++ encoded_colon
       ++ String.list_ascii_of_string "20%3A30")
  = String.list_ascii_of_string "2024-03-01T10" ++
    ":"%char :: decode_colons (String.list_ascii_of_string "20%3A30").
Proof.
  refine (proj2 (proj2 (proj2 (colon_decoding_is_complete [])))
            (String.list_ascii_of_string "2024-03-01T10")
            (String.list_ascii_of_string "20%3A30") _).
  vm_compute.
  repeat (apply not_elem_of_cons; split; [discriminate|]).
  apply not_elem_of_nil.
Defined.

End TimelineLaws.
